(** * loaders.gl: conversion of GeoJSON into projected proto-features

    A shallow embedding of [convertFeatures] and its helpers (the fork of
    geojson-vt's convert step): JavaScript numbers are IEEE-754 binary64
    values ([PrimFloat.float]), arrays are lists that can hold holes,
    exceptions are an explicit result type, and the mutable [features]
    array is threaded through the calls. A second part embeds the methods
    of the WMS service that build and read request URLs. *)

From Stdlib Require Import ZArith NArith List String Ascii Bool Lia Permutation DecimalString.
From Stdlib Require Import Floats.

#[local] Set Warnings "-register-all".
Import ListNotations.

Local Open Scope string_scope.
Local Open Scope list_scope.

(** ** JavaScript values, exceptions and arrays *)

Module Js.

(** The primitive values a property of a feature can hold. *)
Inductive value : Type :=
| Undefined
| Null
| Bool (b : bool)
| Num (n : float)
| Str (s : string).

(** What reading a property gives and what an [id] holds: a primitive
    value, or a member that the object inherits from [Object.prototype],
    known by its key (a function; for [__proto__] the prototype itself). *)
Inductive any : Type :=
| Prim (v : value)
| Inherited (key : string).

Inductive exn : Type :=
| TypeError                 (* a property read on, or an iteration of, undefined or null *)
| Error (message : string). (* throw new Error(message) *)

Inductive result (A : Type) : Type :=
| Return (a : A)
| Throw (e : exn).
Arguments Return {A} a.
Arguments Throw {A} e.

Definition bind {A B : Type} (m : result A) (k : A -> result B) : result B :=
  match m with
  | Return a => k a
  | Throw e => Throw e
  end.

(** ToInt32 of an integral number. *)
Definition ToInt32 (z : Z) : Z :=
  let m := (z mod 2 ^ 32)%Z in
  if (m <? 2 ^ 31)%Z then m else (m - 2 ^ 32)%Z.

(** ToUint32 of an integral number. *)
Definition ToUint32 (z : Z) : Z := (z mod 2 ^ 32)%Z.

(** [a << b]: a 32-bit left shift whose count is taken modulo 32. *)
Definition shl (a b : Z) : Z :=
  ToInt32 (Z.shiftl (ToInt32 a) (Z.land (ToUint32 b) 31)).

(** The Number holding a 32-bit integer (exact). *)
Definition of_int32 (z : Z) : float :=
  if (z <? 0)%Z then (- of_uint63 (Uint63.of_Z (- z)))%float
  else of_uint63 (Uint63.of_Z z).

(** The Number holding an array index (exact below 2^53). *)
Definition of_index (n : nat) : float := of_uint63 (Uint63.of_Z (Z.of_nat n)).

(** An array of numbers; [None] is a hole, which reads as undefined. *)
Definition array : Type := list (option float).

(** [a[i]]: undefined ([None]) outside the array and on a hole. *)
Definition get (a : array) (i : Z) : option float :=
  if (i <? 0)%Z then None
  else match nth_error a (Z.to_nat i) with
       | Some slot => slot
       | None => None
       end.

Fixpoint store (a : array) (i : nat) (v : float) : array :=
  match i, a with
  | O, [] => [Some v]
  | O, _ :: rest => Some v :: rest
  | S i', [] => None :: store [] i' v
  | S i', slot :: rest => slot :: store rest i' v
  end.

(** [a[i] = v]: past the end the array grows, the gap filled with holes;
    a negative [i] names a property that is not an element, so the
    elements stay as they are. *)
Definition set (a : array) (i : Z) (v : float) : array :=
  if (i <? 0)%Z then a else store a (Z.to_nat i) v.

(** [a.push(x, y, z)]. *)
Definition push3 (a : array) (x y z : float) : array :=
  a ++ [Some x; Some y; Some z].

(** [Math.PI]. *)
Definition Math_PI : float := 0x1.921fb54442d18p+1%float.

End Js.

Notation "x <- m ;; k" := (Js.bind m (fun x => k))
  (at level 61, m at next level, right associativity).

(** ** The engine's mathematical library

    ECMAScript fixes [Math.sin] and [Math.log] on the special values and
    leaves the rest implementation-approximated; [Math.pow] is taken whole
    from the engine. *)

Class MathLib : Type := {
  sin_approx : float -> float;
  log_approx : float -> float;
  Math_pow : float -> float -> float
}.

(** What the proofs ask of an engine: a sine within [-1, 1] and a logarithm
    that is a number on the positive finite numbers. *)
Class MathLibSound (M : MathLib) : Prop := {
  sin_approx_range : forall x : float,
    is_finite x = true ->
    ((-1 <=? sin_approx x) && (sin_approx x <=? 1))%float = true;
  log_approx_number : forall x : float,
    is_finite x = true -> (0 <? x)%float = true ->
    is_nan (log_approx x) = false
}.

Section Math.
Context {M : MathLib}.

(** [Math.sin]: NaN and the zeros are returned as they are, the
    infinities give NaN. *)
Definition Math_sin (x : float) : float :=
  if is_nan x || is_zero x then x
  else if is_infinity x then nan
  else sin_approx x.

(** [Math.log]: NaN and +Infinity are returned as they are, 1 gives +0,
    the zeros give -Infinity, a negative number gives NaN. *)
Definition Math_log (x : float) : float :=
  if is_nan x || (x =? infinity)%float then x
  else if (x =? 1)%float then 0%float
  else if is_zero x then neg_infinity
  else if (x <? 0)%float then nan
  else log_approx x.

End Math.

(** [Math.sqrt] and [Math.abs] are the IEEE operations. *)
Definition Math_sqrt (x : float) : float := PrimFloat.sqrt x.
Definition Math_abs (x : float) : float := PrimFloat.abs x.

(** ** The external simplifier (./simplify-path)

    [simplify coords first last sqTolerance] returns the buffer after the
    in-place update of the significance slots. *)

Class Simplifier : Type := {
  simplify : Js.array -> Z -> Z -> float -> Js.array
}.

(** The contract the conversion relies on: the buffer keeps its length, the
    coordinates are not written, and the significance slots of the two
    end points are left as the caller pinned them. *)
Class SimplifierContract (S : Simplifier) : Prop := {
  simplify_length : forall coords first last sqTolerance,
    List.length (simplify coords first last sqTolerance) = List.length coords;
  simplify_coordinates : forall coords first last sqTolerance i,
    ((i - first) mod 3 <> 2)%Z ->
    Js.get (simplify coords first last sqTolerance) i = Js.get coords i;
  simplify_first : forall coords first last sqTolerance,
    Js.get (simplify coords first last sqTolerance) (first + 2) = Js.get coords (first + 2);
  simplify_last : forall coords first last sqTolerance,
    Js.get (simplify coords first last sqTolerance) (last + 2) = Js.get coords (last + 2)
}.

(** ** Data model *)

(** A coordinate [[longitude, latitude]]; only the entries 0 and 1 are read. *)
Definition Position : Type := (float * float)%type.

(** [geojson.geometry]: the seven kinds with their coordinate arrays, and
    [Other type] for an object that only carries a [type]. *)
Inductive Geometry : Type :=
| Point (coordinates : Position)
| MultiPoint (coordinates : list Position)
| LineString (coordinates : list Position)
| MultiLineString (coordinates : list (list Position))
| Polygon (coordinates : list (list Position))
| MultiPolygon (coordinates : list (list (list Position)))
| GeometryCollection (geometries : list Geometry)
| Other (type : string).

Definition Properties : Type := list (string * Js.value).

Module Feature.
(** [id] is undefined when absent; [geometry] and [properties] are [None]
    when absent or null. [properties] holds the own entries of a plain
    object, whose prototype is [Object.prototype]. *)
Record t : Type := {
  id : Js.any;
  geometry : option Geometry;
  properties : option Properties
}.
End Feature.

(** The argument of [convertFeatures], by its [type]. *)
Inductive GeoJSON : Type :=
| FeatureCollection (features : list Feature.t)
| SingleFeature (feature : Feature.t)
| BareGeometry (geometry : Geometry).

Record ConvertFeatureOptions : Type := {
  maxZoom : Z;
  tolerance : float;
  extent : float;
  lineMetrics : bool;
  promoteId : option string;
  generateId : bool
}.

(** A flattened array [x0, y0, s0, x1, y1, s1, ...]; [convertLine] adds the
    properties [size], [start] and [end] to it. *)
Record FlatArray : Type := {
  elems : Js.array;
  size : option float;
  start : option float;
  end_ : option float
}.

Definition empty : FlatArray :=
  {| elems := []; size := None; start := None; end_ := None |}.

(** The [geometry] array of a proto-feature, by nesting depth. *)
Inductive ProtoGeometry : Type :=
| Flat (points : FlatArray)
| Rings (lines : list FlatArray)
| Polygons (polygons : list (list FlatArray)).

Module ProtoFeature.
Record t : Type := {
  id : Js.any;
  kind : string;
  geometry : ProtoGeometry;
  properties : option Properties
}.
End ProtoFeature.

(** Modelled from the spec: [createFeature] of ./proto-feature is not among
    the sources; the intermediate feature is the record of the identifier,
    the kind, the geometry container and the properties carried through
    unmodified. *)
Definition createFeature (id : Js.any) (type : string) (geom : ProtoGeometry)
    (tags : option Properties) : ProtoFeature.t :=
  {| ProtoFeature.id := id;
     ProtoFeature.kind := type;
     ProtoFeature.geometry := geom;
     ProtoFeature.properties := tags |}.

(** ** Projection *)

Definition projectX (x : float) : float := (x / 360 + 0.5)%float.

Section Projection.
Context {M : MathLib}.

Definition projectY (y : float) : float :=
  let sin := Math_sin ((y * Js.Math_PI) / 180)%float in
  let y2 := (0.5 - (0.25 * Math_log ((1 + sin) / (1 - sin))) / Js.Math_PI)%float in
  if (y2 <? 0)%float then 0%float
  else if (1 <? y2)%float then 1%float
  else y2.

End Projection.

(** ** Conversion *)

Definition convertPoint {M : MathLib} (coords : Position) (out : FlatArray) : FlatArray :=
  {| elems := Js.push3 (elems out) (projectX (fst coords)) (projectY (snd coords)) 0%float;
     size := size out;
     start := start out;
     end_ := end_ out |}.

(** What one further vertex [(x, y)] adds to [size] after [(x0, y0)]: the
    signed shoelace term of a ring, the segment length of a line. *)
Definition measure {M : MathLib} (isPolygon : bool) (x0 y0 x y : float) : float :=
  if isPolygon then ((x0 * y - x * y0) / 2)%float
  else Math_sqrt (Math_pow (x - x0) 2 + Math_pow (y - y0) 2)%float.

Section ConvertLine.
Context {M : MathLib} {simplifier : Simplifier}.

(** The loop of [convertLine] from index [j] on, with the buffer and the
    variables [x0], [y0] and [size] as they stand on entry. [x0] and [y0]
    are only read once [j > 0]. *)
Fixpoint convertLine_loop (ring : list Position) (isPolygon : bool) (j : nat)
    (out : Js.array) (x0 y0 size : float) {struct ring} : Js.array * float :=
  match ring with
  | [] => (out, size)
  | p :: ring' =>
      let x := projectX (fst p) in
      let y := projectY (snd p) in
      let out := Js.push3 out x y 0%float in
      let size := if (0 <? j)%nat then (size + measure isPolygon x0 y0 x y)%float else size in
      convertLine_loop ring' isPolygon (S j) out x y size
  end.

Definition convertLine (ring : list Position) (out : FlatArray) (tolerance : float)
    (isPolygon : bool) : FlatArray :=
  let '(out1, size) := convertLine_loop ring isPolygon 0 (elems out) nan nan 0%float in
  let last := (Z.of_nat (List.length out1) - 3)%Z in
  let out2 := Js.set out1 2 1%float in
  let out3 := simplify out2 0 last tolerance in
  let out4 := Js.set out3 (last + 2) 1%float in
  {| elems := out4;
     size := Some (Math_abs size);
     start := Some 0%float;
     end_ := Some (Math_abs size) |}.

Fixpoint convertLines (rings : list (list Position)) (out : list FlatArray)
    (tolerance : float) (isPolygon : bool) : list FlatArray :=
  match rings with
  | [] => out
  | ring :: rings' =>
      let geom := convertLine ring empty tolerance isPolygon in
      convertLines rings' (out ++ [geom]) tolerance isPolygon
  end.

End ConvertLine.

(** The squared tolerance of line 62:
    [Math.pow(options.tolerance / ((1 << options.maxZoom) * options.extent), 2)]. *)
Definition sqTolerance {M : MathLib} (options : ConvertFeatureOptions) : float :=
  Math_pow (tolerance options / (Js.of_int32 (Js.shl 1 (maxZoom options)) * extent options))%float
           2%float.

(** A string is truthy unless it is absent or empty. *)
Definition truthy (s : option string) : bool :=
  match s with
  | Some EmptyString | None => false
  | Some _ => true
  end.

(** The keys of [Object.prototype], those of Annex B of ECMAScript
    included. *)
Definition Object_prototype : list string :=
  ["constructor"; "__defineGetter__"; "__defineSetter__"; "hasOwnProperty";
   "__lookupGetter__"; "__lookupSetter__"; "isPrototypeOf"; "propertyIsEnumerable";
   "toString"; "valueOf"; "__proto__"; "toLocaleString"].

(** [properties[key]]: the object's own entry; without one, the member of
    [Object.prototype] of that key, and undefined when there is none. *)
Fixpoint lookup (props : Properties) (key : string) : Js.any :=
  match props with
  | [] =>
      if existsb (String.eqb key) Object_prototype then Js.Inherited key
      else Js.Prim Js.Undefined
  | (k, v) :: props' => if String.eqb k key then Js.Prim v else lookup props' key
  end.

(** [index || 0], for an index that may be undefined. *)
Definition or_zero (index : option nat) : nat :=
  match index with
  | Some (S n) => S n
  | Some O | None => O
  end.

(** Lines 64 to 69: the [id] given to the proto-features. *)
Definition resolveId (options : ConvertFeatureOptions) (id : Js.any)
    (properties : option Properties) (index : option nat) : Js.result Js.any :=
  if truthy (promoteId options) then
    match properties, promoteId options with
    | Some props, Some key => Js.Return (lookup props key)
    | _, _ => Js.Throw Js.TypeError
    end
  else if generateId options then Js.Return (Js.Prim (Js.Num (Js.of_index (or_zero index))))
  else Js.Return id.

(** The kinds the dispatch of [convertFeature] names. *)
Definition recognized (type : string) : bool :=
  existsb (String.eqb type)
    ["Point"; "MultiPoint"; "LineString"; "MultiLineString"; "Polygon";
     "MultiPolygon"; "GeometryCollection"].

Section ConvertFeature.
Context {M : MathLib} {simplifier : Simplifier}.

(** [convertFeature] past its guard on a missing geometry, on the fields
    [id], [geometry] and [properties] of its argument; the recursive call
    of the source builds its argument from exactly these three. An
    [Other] geometry of a named kind has no coordinates to read, which
    raises a TypeError; any other kind reaches the final [throw]. *)
Fixpoint convertGeometry (features : list ProtoFeature.t) (id0 : Js.any)
    (geometry0 : Geometry) (properties : option Properties)
    (options : ConvertFeatureOptions) (index : option nat) {struct geometry0}
    : Js.result (list ProtoFeature.t) :=
  let tolerance := sqTolerance options in
  id <- resolveId options id0 properties index ;;
  match geometry0 with
  | Point coords =>
      let geometry := convertPoint coords empty in
      Js.Return (features ++ [createFeature id "Point" (Flat geometry) properties])
  | MultiPoint coords =>
      let geometry := fold_left (fun out p => convertPoint p out) coords empty in
      Js.Return (features ++ [createFeature id "MultiPoint" (Flat geometry) properties])
  | LineString coords =>
      let geometry := convertLine coords empty tolerance false in
      Js.Return (features ++ [createFeature id "LineString" (Flat geometry) properties])
  | MultiLineString coords =>
      if lineMetrics options then
        Js.Return
          (fold_left
             (fun features line =>
                let geometry := convertLine line empty tolerance false in
                features ++ [createFeature id "LineString" (Flat geometry) properties])
             coords features)
      else
        let geometry := convertLines coords [] tolerance false in
        Js.Return (features ++ [createFeature id "MultiLineString" (Rings geometry) properties])
  | Polygon coords =>
      let geometry := convertLines coords [] tolerance true in
      Js.Return (features ++ [createFeature id "Polygon" (Rings geometry) properties])
  | MultiPolygon coords =>
      let geometry :=
        fold_left
          (fun geometry polygon =>
             let newPolygon := convertLines polygon [] tolerance true in
             geometry ++ [newPolygon])
          coords [] in
      Js.Return (features ++ [createFeature id "MultiPolygon" (Polygons geometry) properties])
  | GeometryCollection geometries =>
      (fix each (geometries : list Geometry) (features : list ProtoFeature.t)
         : Js.result (list ProtoFeature.t) :=
         match geometries with
         | [] => Js.Return features
         | singleGeometry :: geometries' =>
             features <- convertGeometry features id singleGeometry properties options index ;;
             each geometries' features
         end) geometries features
  | Other type =>
      if recognized type then Js.Throw Js.TypeError
      else Js.Throw (Js.Error "Input data is not a valid GeoJSON object.")
  end.

Definition convertFeature (features : list ProtoFeature.t) (geojson : Feature.t)
    (options : ConvertFeatureOptions) (index : option nat)
    : Js.result (list ProtoFeature.t) :=
  match Feature.geometry geojson with
  | None => Js.Return features
  | Some geometry =>
      convertGeometry features (Feature.id geojson) geometry
        (Feature.properties geojson) options index
  end.

(** The loop over [data.features], from index [i] on. *)
Fixpoint convertFeatures_loop (data_features : list Feature.t) (i : nat)
    (features : list ProtoFeature.t) (options : ConvertFeatureOptions)
    : Js.result (list ProtoFeature.t) :=
  match data_features with
  | [] => Js.Return features
  | geojson :: rest =>
      features <- convertFeature features geojson options (Some i) ;;
      convertFeatures_loop rest (S i) features options
  end.

Definition convertFeatures (data : GeoJSON) (options : ConvertFeatureOptions)
    : Js.result (list ProtoFeature.t) :=
  let features := [] in
  match data with
  | FeatureCollection data_features => convertFeatures_loop data_features 0 features options
  | SingleFeature geojson => convertFeature features geojson options None
  | BareGeometry geometry =>
      convertFeature features
        {| Feature.id := Js.Prim Js.Undefined;
           Feature.geometry := Some geometry;
           Feature.properties := None |}
        options None
  end.

End ConvertFeature.

(** ** The squared tolerance as the specification words it

    [(tolerance / ((2^maxZoom) * extent))^2], with the exact power of two
    ([Z.ldexp 1 maxZoom] is 2^maxZoom as a Number). *)
Definition tolerance_squared {M : MathLib} (tolerance : float) (maxZoom : Z) (extent : float)
    : float :=
  Math_pow (tolerance / (Z.ldexp 1 maxZoom * extent))%float 2%float.

(** [Math.pow(x, 2)] does not depend on the sign of [x]: what the square of
    the specification asks of the engine at [maxZoom] = 31, where the
    32-bit scale [1 << 31] is negative. *)
Definition even_square (M : MathLib) : Prop :=
  forall x : float, Math_pow (- x) 2 = Math_pow x 2.

(** ** The running sum of [convertLine] on projected vertices

    [size] as the loop leaves it when the projected vertices are [points]:
    nothing for the first vertex, one [measure] term for each later one,
    summed from the left from 0. *)
Fixpoint accumulate {M : MathLib} (isPolygon : bool) (x0 y0 : float)
    (points : list (float * float)) (size : float) : float :=
  match points with
  | [] => size
  | (x, y) :: points' =>
      accumulate isPolygon x y points' (size + measure isPolygon x0 y0 x y)%float
  end.

Definition running_sum {M : MathLib} (isPolygon : bool) (points : list (float * float))
    : float :=
  match points with
  | [] => 0%float
  | (x, y) :: points' => accumulate isPolygon x y points' 0%float
  end.

Definition project {M : MathLib} (p : Position) : float * float :=
  (projectX (fst p), projectY (snd p)).

(** ** Inputs of the statements *)

(** A geometry kind outside the seven occurs in the geometry. *)
Fixpoint unsupported (g : Geometry) : bool :=
  match g with
  | GeometryCollection geometries =>
      (fix any (gs : list Geometry) : bool :=
         match gs with
         | [] => false
         | g' :: gs' => unsupported g' || any gs'
         end) geometries
  | Other type => negb (recognized type)
  | _ => false
  end.

(** No object of a named kind lacks its coordinates. *)
Fixpoint well_shaped (g : Geometry) : bool :=
  match g with
  | GeometryCollection geometries =>
      (fix all (gs : list Geometry) : bool :=
         match gs with
         | [] => true
         | g' :: gs' => well_shaped g' && all gs'
         end) geometries
  | Other type => negb (recognized type)
  | _ => true
  end.

(** The features of the input, in the order [convertFeatures] visits them. *)
Definition features_of (data : GeoJSON) : list Feature.t :=
  match data with
  | FeatureCollection data_features => data_features
  | SingleFeature geojson => [geojson]
  | BareGeometry geometry =>
      [{| Feature.id := Js.Prim Js.Undefined;
          Feature.geometry := Some geometry;
          Feature.properties := None |}]
  end.

Definition feature_unsupported (geojson : Feature.t) : bool :=
  match Feature.geometry geojson with
  | Some g => unsupported g
  | None => false
  end.

(** The feature can be given an id and its geometry can be read:
    [properties] is an object when [promoteId] names a property, and
    every object of a named kind has its coordinates. *)
Definition readable (options : ConvertFeatureOptions) (geojson : Feature.t) : bool :=
  match Feature.geometry geojson with
  | Some g =>
      well_shaped g &&
      (negb (truthy (promoteId options)) ||
       match Feature.properties geojson with Some _ => true | None => false end)
  | None => true
  end.

(** One proto-feature comes out of the geometry: a kind of the seven that
    is neither a collection nor a MultiLineString exploded for its line
    metrics. *)
Definition single (options : ConvertFeatureOptions) (g : Geometry) : bool :=
  match g with
  | GeometryCollection _ | Other _ => false
  | MultiLineString _ => negb (lineMetrics options)
  | _ => true
  end.

Definition kind_of (g : Geometry) : string :=
  match g with
  | Point _ => "Point"
  | MultiPoint _ => "MultiPoint"
  | LineString _ => "LineString"
  | MultiLineString _ => "MultiLineString"
  | Polygon _ => "Polygon"
  | MultiPolygon _ => "MultiPolygon"
  | GeometryCollection _ => "GeometryCollection"
  | Other type => type
  end.

Definition has_geometry (geojson : Feature.t) : bool :=
  match Feature.geometry geojson with Some _ => true | None => false end.

(** ** An engine and a simplifier to run the conversion on examples *)

Module Reference.

(** The sine by its Taylor polynomial of degree 11, cut to [-1, 1]. *)
Definition sin (x : float) : float :=
  let x2 := (x * x)%float in
  let p := (x * (1 - x2 / 6 * (1 - x2 / 20 * (1 - x2 / 42 * (1 - x2 / 72 * (1 - x2 / 110))))))%float in
  if (p <? -1)%float then (-1)%float
  else if (p <=? 1)%float then p
  else 1%float.

(** The logarithm of [m * 2^e] as [e * ln 2 + 2 * atanh ((m - 1) / (m + 1))],
    the series cut after seven terms. *)
Definition log (x : float) : float :=
  let '(m, e) := Z.frexp x in
  let z := ((m - 1) / (m + 1))%float in
  let z2 := (z * z)%float in
  let series :=
    (2 * z * (1 + z2 * (1 / 3 + z2 * (1 / 5 + z2 * (1 / 7 + z2 * (1 / 9 + z2 * (1 / 11 + z2 / 13)))))))%float in
  let r := (Js.of_int32 e * 0x1.62e42fefa39efp-1 + series)%float in
  if is_nan r then 0%float else r.

(** Powers with the exponents 0, 1 and 2. *)
Definition pow (base exponent : float) : float :=
  if (exponent =? 2)%float then (base * base)%float
  else if (exponent =? 1)%float then base
  else if (exponent =? 0)%float then 1%float
  else nan.

#[export] Instance engine : MathLib :=
  {| sin_approx := sin; log_approx := log; Math_pow := pow |}.

(** A simplifier that marks every vertex strictly between [first] and
    [last] with the tolerance. [i] is the index of the head of [coords]. *)
Fixpoint mark (coords : Js.array) (i first last : Z) (v : float) : Js.array :=
  match coords with
  | [] => []
  | slot :: coords' =>
      (if ((first + 2 <? i) && (i <? last + 2) && ((i - first) mod 3 =? 2))%Z
       then Some v else slot)
      :: mark coords' (i + 1)%Z first last v
  end.

#[export] Instance marking : Simplifier :=
  {| simplify := fun coords first last sqTolerance => mark coords 0 first last sqTolerance |}.

Definition options : ConvertFeatureOptions :=
  {| maxZoom := 14; tolerance := 3%float; extent := 4096%float;
     lineMetrics := false; promoteId := None; generateId := false |}.

End Reference.

(** The loop over [geojson.geometry.geometries] of the GeometryCollection
    branch, named so that statements can speak of it. *)
Fixpoint convertChildren {M : MathLib} {simplifier : Simplifier}
    (geometries : list Geometry) (features : list ProtoFeature.t) (id : Js.any)
    (properties : option Properties) (options : ConvertFeatureOptions)
    (index : option nat) : Js.result (list ProtoFeature.t) :=
  match geometries with
  | [] => Js.Return features
  | singleGeometry :: geometries' =>
      features <- convertGeometry features id singleGeometry properties options index ;;
      convertChildren geometries' features id properties options index
  end.

(** The three slots [x, y, significance] of one projected vertex. *)
Definition vertex {M : MathLib} (significance : float) (p : Position) : Js.array :=
  [Some (projectX (fst p)); Some (projectY (snd p)); Some significance].

(** The first and the last significance slot of a flattened line hold 1. *)
Definition pinned (line : FlatArray) : Prop :=
  Js.get (elems line) 2 = Some 1%float /\
  Js.get (elems line) (Z.of_nat (List.length (elems line)) - 1) = Some 1%float.

(** The id of the proto-features of a feature, by the order in which the
    options are consulted: the property named by [promoteId] when it is
    given, as [properties[promoteId]] reads it (the member the object
    inherits when it has no such property, undefined without one); else, under
    [generateId], the index (0 without one); else the feature's own [id]. *)
Definition expected_id (options : ConvertFeatureOptions) (geojson : Feature.t)
    (index : option nat) : Js.any :=
  if truthy (promoteId options) then
    match promoteId options, Feature.properties geojson with
    | Some key, Some props => lookup props key
    | _, _ => Js.Prim Js.Undefined
    end
  else if generateId options then
    Js.Prim (Js.Num (Js.of_index (match index with Some i => i | None => 0%nat end)))
  else Feature.id geojson.

(** The message of the final [throw] of [convertFeature]. *)
Definition invalid_geojson : Js.exn :=
  Js.Error "Input data is not a valid GeoJSON object.".

(** What the proto-features of one feature share. *)
Definition carries (id : Js.any) (properties : option Properties) (f : ProtoFeature.t) : Prop :=
  ProtoFeature.id f = id /\
  ProtoFeature.properties f = properties /\
  recognized (ProtoFeature.kind f) = true /\
  ProtoFeature.kind f <> "GeometryCollection".

(** The features a collection may hold for one proto-feature each: no
    geometry, or a geometry that yields a single proto-feature and whose
    id can be resolved. *)
Definition plain (options : ConvertFeatureOptions) (geojson : Feature.t) : bool :=
  match Feature.geometry geojson with
  | None => true
  | Some g => single options g && readable options geojson
  end.

(** ** The exception a conversion ends on *)

(** The exception on which the dispatch ends for a geometry, if any, met
    in the order of the visit: a TypeError at an object of a named kind
    without its coordinates, the error of the final branch at a kind
    outside the seven. *)
Fixpoint first_failure (g : Geometry) : option Js.exn :=
  match g with
  | GeometryCollection geometries =>
      (fix first (gs : list Geometry) : option Js.exn :=
         match gs with
         | [] => None
         | g' :: gs' =>
             match first_failure g' with
             | Some e => Some e
             | None => first gs'
             end
         end) geometries
  | Other type => Some (if recognized type then Js.TypeError else invalid_geojson)
  | _ => None
  end.

(** The exception on which [convertFeature] ends for a feature, if any: a
    feature without geometry is passed over; with [promoteId], reading the
    property of a feature without properties is a TypeError, before the
    dispatch. *)
Definition feature_failure (options : ConvertFeatureOptions) (geojson : Feature.t)
    : option Js.exn :=
  match Feature.geometry geojson with
  | None => None
  | Some g =>
      match Feature.properties geojson with
      | None => if truthy (promoteId options) then Some Js.TypeError else first_failure g
      | Some _ => first_failure g
      end
  end.

(** The first exception among the features, in their order. *)
Fixpoint failure (options : ConvertFeatureOptions) (data_features : list Feature.t)
    : option Js.exn :=
  match data_features with
  | [] => None
  | geojson :: rest =>
      match feature_failure options geojson with
      | Some e => Some e
      | None => failure options rest
      end
  end.

(** The features up to the first with a kind outside the seven, that one
    included. *)
Fixpoint through_unsupported (data_features : list Feature.t) : list Feature.t :=
  match data_features with
  | [] => []
  | geojson :: rest =>
      if feature_unsupported geojson then [geojson] else geojson :: through_unsupported rest
  end.

(** ** Shapes of specified floats

    The predicates below classify the [spec_float] image of a Number; they
    carry the analysis of the Mercator formula through the roundings. *)

(** A number (not NaN) of sign [sx]. *)
Definition SFsigned (sx : bool) (x : spec_float) : Prop :=
  match x with
  | S754_zero s | S754_infinity s | S754_finite s _ _ => s = sx
  | S754_nan => False
  end.

(** A finite number other than zero, of sign [sx]. *)
Definition SFfinite_nonzero (sx : bool) (x : spec_float) : Prop :=
  match x with
  | S754_finite s _ _ => s = sx
  | _ => False
  end.

(** The Number 1. *)
Definition SFone : spec_float := S754_finite false 4503599627370496 (-52).

(** +0 or a positive finite number. *)
Definition zero_or_positive (x : spec_float) : Prop :=
  x = S754_zero false \/ SFfinite_nonzero false x.

(** A zero, a positive finite number or +Infinity. *)
Definition SFnonneg (x : spec_float) : Prop :=
  match x with
  | S754_zero _ | S754_infinity false | S754_finite false _ _ => True
  | _ => False
  end.

(** Not NaN. *)
Definition SFnumber (x : spec_float) : Prop :=
  match x with
  | S754_nan => False
  | _ => True
  end.

(** ** Counting and locating proto-features *)

(** The number of proto-features [convertFeature] pushes for a geometry:
    one for each geometry that is not a collection, except that a
    MultiLineString pushes one per line under [lineMetrics]; a collection
    pushes what its children push. *)
Fixpoint emitted (options : ConvertFeatureOptions) (g : Geometry) : nat :=
  match g with
  | GeometryCollection geometries =>
      (fix total (gs : list Geometry) : nat :=
         match gs with
         | [] => 0
         | g' :: gs' => emitted options g' + total gs'
         end) geometries
  | MultiLineString coordinates =>
      if lineMetrics options then List.length coordinates else 1
  | Other _ => 0
  | _ => 1
  end%nat.

Definition feature_emitted (options : ConvertFeatureOptions) (geojson : Feature.t) : nat :=
  match Feature.geometry geojson with
  | Some g => emitted options g
  | None => 0
  end.

(** The features of a collection that have a geometry, each with its
    position in the collection, counted from [i]. *)
Fixpoint located (data_features : list Feature.t) (i : nat) : list (nat * Feature.t) :=
  match data_features with
  | [] => []
  | geojson :: rest =>
      (if has_geometry geojson then [(i, geojson)] else []) ++ located rest (S i)
  end.

(** The nesting depth of a proto-feature's geometry is the one of its
    kind: a flat array for Point, MultiPoint and LineString, an array of
    flat arrays for MultiLineString and Polygon, one level more for
    MultiPolygon. *)
Definition nested_as_kind (f : ProtoFeature.t) : bool :=
  match ProtoFeature.geometry f with
  | Flat _ =>
      existsb (String.eqb (ProtoFeature.kind f)) ["Point"; "MultiPoint"; "LineString"]
  | Rings _ =>
      existsb (String.eqb (ProtoFeature.kind f)) ["MultiLineString"; "Polygon"]
  | Polygons _ => String.eqb (ProtoFeature.kind f) "MultiPolygon"
  end.

(** ** Shapes of projected coordinates *)

(** +0 or a positive finite number [m * 2^e] of value at most 1. *)
Definition SFunit (x : spec_float) : Prop :=
  match x with
  | S754_zero s => s = false
  | S754_finite s m e => s = false /\ (e <= -52)%Z /\ (Z.pos m <= 2 ^ (- e))%Z
  | _ => False
  end.

(** A coordinate of the globe as [projectX] and [projectY] are meant for:
    a longitude from -180 to 180 and a latitude below 2^1020 in magnitude
    (the latitudes from -90 to 90 among them). *)
Definition on_globe (p : Position) : bool :=
  ((-180 <=? fst p) && (fst p <=? 180) && (Math_abs (snd p) <? 0x1p+1020))%float.

(** A Number from 0 to 1. *)
Definition in_unit (slot : option float) : Prop :=
  exists v : float, slot = Some v /\ ((0 <=? v) && (v <=? 1))%float = true.

(** ** The WMS service (wms-service.ts): the URLs of its requests

    The part of the class that builds and reads URLs: the constructor,
    [testURL], the five URL creators, [_getWMSUrl], [_getParameterValue]
    and [_parseWMSUrl]. The methods that fetch and parse a response need
    the loaders and are left out. A JavaScript string is held as the
    bytes of its UTF-8 encoding, an object as the list of its own
    properties in the order of their creation. *)

Module Wms.

(** The engine's part: the Unicode case mappings and the printing of
    Numbers. *)
Class StringLib : Type := {
  toUpperCase : string -> string;
  toLowerCase : string -> string;
  Number_toString : float -> string
}.

Definition is_ascii (c : ascii) : bool := (N_of_ascii c <? 128)%N.

Definition ascii_only (s : string) : bool := forallb is_ascii (list_ascii_of_string s).

Definition upper (c : ascii) : ascii :=
  let n := N_of_ascii c in
  if ((97 <=? n) && (n <=? 122))%N then ascii_of_N (n - 32) else c.

Definition lower (c : ascii) : ascii :=
  let n := N_of_ascii c in
  if ((65 <=? n) && (n <=? 90))%N then ascii_of_N (n + 32) else c.

Definition map_chars (f : ascii -> ascii) (s : string) : string :=
  string_of_list_ascii (map f (list_ascii_of_string s)).

(** What ECMAScript fixes of the case mappings on a string of ASCII
    characters: the letters change case, nothing else changes. *)
Class StringLibSound (L : StringLib) : Prop := {
  toUpperCase_ascii : forall s, ascii_only s = true -> toUpperCase s = map_chars upper s;
  toLowerCase_ascii : forall s, ascii_only s = true -> toLowerCase s = map_chars lower s
}.

(** [s.split(sep)] for a separator of one character: the pieces between
    the occurrences of [sep], one more than there are occurrences. *)
Fixpoint split (sep : ascii) (s : string) : list string :=
  match s with
  | EmptyString => [EmptyString]
  | String c s' =>
      if Ascii.eqb c sep then EmptyString :: split sep s'
      else match split sep s' with
           | piece :: pieces => String c piece :: pieces
           | [] => [String c EmptyString]
           end
  end.

(** [s.includes(sub)]. *)
Fixpoint includes (s sub : string) : bool :=
  String.prefix sub s
  || match s with
     | EmptyString => false
     | String _ s' => includes s' sub
     end.

(** The characters [encodeURI] leaves as they are: letters, digits, the
    marks [-_.!~*'()] and the reserved characters [;/?:@&=+$,#]. *)
Definition uri_kept (c : ascii) : bool :=
  let n := N_of_ascii c in
  ((48 <=? n) && (n <=? 57) || (65 <=? n) && (n <=? 90) || (97 <=? n) && (n <=? 122))%N
  || existsb (Ascii.eqb c) (list_ascii_of_string "-_.!~*'();/?:@&=+$,#").

Definition hex_digit (n : N) : ascii :=
  if (n <? 10)%N then ascii_of_N (48 + n) else ascii_of_N (55 + n).

Definition escape (c : ascii) : string :=
  let n := N_of_ascii c in
  String "%" (String (hex_digit (n / 16)) (String (hex_digit (n mod 16)) EmptyString)).

(** [encodeURI(s)]: every other byte of the UTF-8 encoding becomes [%XX].
    (A string with a lone surrogate, on which [encodeURI] throws, has no
    UTF-8 encoding.) *)
Fixpoint encodeURI (s : string) : string :=
  match s with
  | EmptyString => EmptyString
  | String c s' =>
      ((if uri_kept c then String c EmptyString else escape c) ++ encodeURI s')%string
  end.

(** The value of a parameter: a primitive value or an array of values.
    Objects other than arrays are left out. *)
Inductive value : Type :=
| Atom (v : Js.value)
| Arr (items : list value).

(** The truthiness of a value. *)
Definition ToBoolean (v : value) : bool :=
  match v with
  | Atom Js.Undefined | Atom Js.Null => false
  | Atom (Js.Bool b) => b
  | Atom (Js.Num n) => negb (is_zero n || is_nan n)
  | Atom (Js.Str s) => negb (String.eqb s "")
  | Arr _ => true
  end.

Definition undefined : value := Atom Js.Undefined.
Definition str (s : string) : value := Atom (Js.Str s).

(** An object: its own enumerable properties, each key once, in the order
    of their creation. *)
Definition object : Type := list (string * value).

(** [o[k]] for a key that the prototype does not define. *)
Fixpoint get (o : object) (k : string) : value :=
  match o with
  | [] => undefined
  | (k', v) :: o' => if String.eqb k' k then v else get o' k
  end.

Definition has (o : object) (k : string) : bool := existsb (String.eqb k) (map fst o).

(** The definition of the property [k]: an existing property keeps its
    place and takes the value, a new one comes last. *)
Fixpoint define (o : object) (k : string) (v : value) : object :=
  match o with
  | [] => [(k, v)]
  | (k', v') :: o' =>
      if String.eqb k' k then (k', v) :: o' else (k', v') :: define o' k v
  end.

Definition digit (c : ascii) : option N :=
  let n := N_of_ascii c in
  if ((48 <=? n) && (n <=? 57))%N then Some (n - 48)%N else None.

Fixpoint digits_value (s : string) (acc : N) : option N :=
  match s with
  | EmptyString => Some acc
  | String c s' =>
      match digit c with
      | Some d => digits_value s' (10 * acc + d)%N
      | None => None
      end
  end.

(** The array index a key stands for, if any: the key is the decimal
    numeral, without a leading zero, of an integer up to 2^32 - 2. *)
Definition array_index (k : string) : option N :=
  match k with
  | EmptyString => None
  | String c EmptyString => digit c
  | String c _ =>
      if Ascii.eqb c "0" then None
      else match digits_value k 0 with
           | Some n => if (n <=? 4294967294)%N then Some n else None
           | None => None
           end
  end.

Fixpoint insert_index (n : N) (kv : string * value) (l : list (N * (string * value)))
    : list (N * (string * value)) :=
  match l with
  | [] => [(n, kv)]
  | (n', kv') :: l' =>
      if (n <=? n')%N then (n, kv) :: l else (n', kv') :: insert_index n kv l'
  end.

Fixpoint index_properties (o : object) : list (N * (string * value)) :=
  match o with
  | [] => []
  | kv :: o' =>
      match array_index (fst kv) with
      | Some n => insert_index n kv (index_properties o')
      | None => index_properties o'
      end
  end.

Definition named (kv : string * value) : bool :=
  match array_index (fst kv) with
  | Some _ => false
  | None => true
  end.

(** [Object.entries(o)]: the properties whose keys are array indices, in
    ascending order of the index, then the others in the order of their
    creation. *)
Definition entries (o : object) : list (string * value) :=
  map snd (index_properties o) ++ filter named o.

(** [{...target, ...source}]: the properties of [source], in the order of
    [Object.entries], are defined on [target]; spreading undefined adds
    nothing. *)
Definition spread (target : object) (source : option object) : object :=
  match source with
  | Some s => fold_left (fun o kv => define o (fst kv) (snd kv)) (entries s) target
  | None => target
  end.

Record WMSService : Type := {
  url : string;
  wmsParameters : object;
  vendorParameters : object
}.

(** [props]: the fields the constructor reads. *)
Record WMSServiceProps : Type := {
  props_url : string;
  props_wmsParameters : option object;
  props_vendorParameters : option object
}.

Definition constructor (props : WMSServiceProps) : WMSService :=
  {| url := props_url props;
     wmsParameters :=
       spread
         [("layers", undefined);
          ("styles", undefined);
          ("version", str "1.3.0");
          ("crs", str "EPSG:4326");
          ("format", str "image/png");
          ("info_format", str "text/plain");
          ("transparent", undefined)]
         (props_wmsParameters props);
     vendorParameters :=
       match props_vendorParameters props with
       | Some o => o
       | None => []
       end |}.

(** [version !== '1.3.0']. *)
Definition not_1_3_0 (version : value) : bool :=
  match version with
  | Atom (Js.Str s) => negb (String.eqb s "1.3.0")
  | _ => true
  end.

(** The pieces of [_parseWMSUrl]: [parameters[key] = value] for what
    [parameter.split('=')] gives. The assignment to [__proto__] of a
    string or of undefined creates no property. *)
Definition assign_parameter (parameters : object) (parameter : string) : object :=
  match split "=" parameter with
  | key :: rest =>
      if String.eqb key "__proto__" then parameters
      else define parameters key
             match rest with
             | v :: _ => str v
             | [] => undefined
             end
  | [] => parameters
  end.

Definition _parseWMSUrl (url : string) : Js.result (string * object) :=
  match split "?" url with
  | baseUrl :: search :: _ =>
      let searchParams := split "&" search in
      let parameters := fold_left assign_parameter searchParams [] in
      Js.Return (baseUrl, parameters)
  | _ => Js.Throw Js.TypeError
  end.

Section Urls.
Context {L : StringLib}.

Definition testURL (url : string) : bool := includes (toLowerCase url) "wms".

(** [String(v)]; the elements of an array are joined with commas, an
    undefined or null element giving the empty string. *)
Fixpoint ToString (v : value) : string :=
  match v with
  | Atom Js.Undefined => "undefined"
  | Atom Js.Null => "null"
  | Atom (Js.Bool b) => if b then "true" else "false"
  | Atom (Js.Num n) => Number_toString n
  | Atom (Js.Str s) => s
  | Arr items =>
      String.concat ","
        ((fix each (items : list value) : list string :=
            match items with
            | [] => []
            | item :: items' =>
                match item with
                | Atom Js.Undefined | Atom Js.Null => EmptyString
                | _ => ToString item
                end :: each items'
            end) items)
  end.

Definition _getParameterValue (version : value) (key : string) (v : value) : string :=
  let key := if String.eqb key "crs" && not_1_3_0 version then "srs" else key in
  let key := toUpperCase key in
  match v with
  | Arr _ => (key ++ "=" ++ ToString v)%string
  | _ => (key ++ "=" ++ (if ToBoolean v then ToString v else ""))%string
  end.

(** The object [allParameters] of [_getWMSUrl]. *)
Definition allParameters (this : WMSService) (request : string) (wmsParameters : object)
    (vendorParameters : option object) : object :=
  spread
    (spread
       (spread
          [("service", str "WMS");
           ("version", get wmsParameters "version");
           ("request", str request)]
          (Some wmsParameters))
       (Some (Wms.vendorParameters this)))
    vendorParameters.

(** [key !== 'transparent' || value]: the parameter is written. *)
Definition sent (kv : string * value) : bool :=
  negb (String.eqb (fst kv) "transparent") || ToBoolean (snd kv).

(** One turn of the loop of [_getWMSUrl] on the pair of [url] and [first]. *)
Definition add_parameter (version : value) (state : string * bool) (kv : string * value)
    : string * bool :=
  let '(url, first) := state in
  if sent kv then
    ((url ++ (if first then "?" else "&") ++ _getParameterValue version (fst kv) (snd kv))%string,
     false)
  else (url, first).

Definition _getWMSUrl (this : WMSService) (request : string) (wmsParameters : object)
    (vendorParameters : option object) : string :=
  let '(url, first) :=
    fold_left (add_parameter (get wmsParameters "version"))
      (entries (allParameters this request wmsParameters vendorParameters))
      (Wms.url this, true) in
  encodeURI url.

Definition getCapabilitiesURL (this : WMSService) (wmsParameters : option object)
    (vendorParameters : option object) : string :=
  let options :=
    spread [("version", get (Wms.wmsParameters this) "version")] wmsParameters in
  _getWMSUrl this "GetCapabilities" options vendorParameters.

Definition getMapURL (this : WMSService) (wmsParameters : object)
    (vendorParameters : option object) : string :=
  let options :=
    spread
      [("version", get (Wms.wmsParameters this) "version");
       ("styles", get (Wms.wmsParameters this) "styles");
       ("crs", get (Wms.wmsParameters this) "crs");
       ("format", get (Wms.wmsParameters this) "format");
       ("transparent", get (Wms.wmsParameters this) "transparent")]
      (Some wmsParameters) in
  _getWMSUrl this "GetMap" options vendorParameters.

Definition getFeatureInfoURL (this : WMSService) (wmsParameters : object)
    (vendorParameters : option object) : string :=
  let options :=
    spread
      [("version", get (Wms.wmsParameters this) "version");
       ("srs", get (Wms.wmsParameters this) "crs");
       ("format", get (Wms.wmsParameters this) "format");
       ("info_format", get (Wms.wmsParameters this) "info_format");
       ("styles", get (Wms.wmsParameters this) "styles")]
      (Some wmsParameters) in
  _getWMSUrl this "GetFeatureInfo" options vendorParameters.

Definition describeLayerURL (this : WMSService) (wmsParameters : object)
    (vendorParameters : option object) : string :=
  let options :=
    spread [("version", get (Wms.wmsParameters this) "version")] (Some wmsParameters) in
  _getWMSUrl this "DescribeLayer" options vendorParameters.

Definition getLegendGraphicURL (this : WMSService) (wmsParameters : object)
    (vendorParameters : option object) : string :=
  let options :=
    spread [("version", get (Wms.wmsParameters this) "version")] (Some wmsParameters) in
  _getWMSUrl this "GetLegendGraphic" options vendorParameters.

End Urls.

End Wms.

(** The properties [l] defined one after the other on [t]. *)
Definition defines (t : Wms.object) (l : list (string * Wms.value)) : Wms.object :=
  fold_left (fun o kv => Wms.define o (fst kv) (snd kv)) l t.

(** Each key once. *)
Definition distinct_keys (o : Wms.object) : Prop := NoDup (map fst o).

(** The written text of one parameter. *)
Definition written {L : Wms.StringLib} (version : Wms.value) (kv : string * Wms.value) : string :=
  Wms._getParameterValue version (fst kv) (snd kv).

(** The key is not an array index. *)
Definition named_key (k : string) : bool :=
  match Wms.array_index k with
  | Some _ => false
  | None => true
  end.

(** The object [{service, version, request}] that [_getWMSUrl] starts from. *)
Definition request_defaults (request : string) (wmsParameters : Wms.object) : Wms.object :=
  [("service", Wms.str "WMS");
   ("version", Wms.get wmsParameters "version");
   ("request", Wms.str request)].

(** The value of [k] in the first of the objects that has it. *)
Fixpoint first_of (objects : list Wms.object) (k : string) : Wms.value :=
  match objects with
  | [] => Wms.undefined
  | o :: objects' => if Wms.has o k then Wms.get o k else first_of objects' k
  end.

Definition optional (o : option Wms.object) : Wms.object :=
  match o with
  | Some o => o
  | None => []
  end.

(** The parameters written after the first: each with its [&]. *)
Fixpoint appended {L : Wms.StringLib} (version : Wms.value)
    (parameters : list (string * Wms.value)) : string :=
  match parameters with
  | [] => ""
  | kv :: parameters' => ("&" ++ written version kv ++ appended version parameters')%string
  end.

(** The keys that [getMapURL] and [_getWMSUrl] define themselves. *)
Definition getMap_keys : list string :=
  ["service"; "version"; "request"; "styles"; "crs"; "format"; "transparent"].

(** A key of the caller's own: not an array index and not one of [keys]. *)
Definition own_key (keys : list string) (k : string) : bool :=
  named_key k && negb (existsb (String.eqb k) keys).

(** ** An engine for the examples *)

Module WmsReference.

(** The printing of a Number that is an integer below 10^21, as
    [Number::toString] does it; the other numbers are not printed (NaN
    stands in for them), the examples use none. *)
Definition print (n : float) : string :=
  match Prim2SF n with
  | S754_zero _ => "0"
  | S754_infinity s => if s then "-Infinity" else "Infinity"
  | S754_nan => "NaN"
  | S754_finite s m e =>
      let whole :=
        if (0 <=? e)%Z then Some (Z.pos m * 2 ^ e)%Z
        else if (Z.pos m mod 2 ^ (- e) =? 0)%Z then Some (Z.pos m / 2 ^ (- e))%Z
        else None in
      match whole with
      | Some z =>
          if (z <? 10 ^ 21)%Z then
            ((if s then "-" else "") ++ NilZero.string_of_uint (N.to_uint (Z.to_N z)))%string
          else "NaN"
      | None => "NaN"
      end
  end.

#[export] Instance engine : Wms.StringLib :=
  {| Wms.toUpperCase := Wms.map_chars Wms.upper;
     Wms.toLowerCase := Wms.map_chars Wms.lower;
     Wms.Number_toString := print |}.

Definition service : Wms.WMSService :=
  Wms.constructor
    {| Wms.props_url := "https://example.com/wms";
       Wms.props_wmsParameters := None;
       Wms.props_vendorParameters := None |}.

End WmsReference.

(** The character [c] does not occur in [s]. *)
Definition free_of (c : ascii) (s : string) : bool :=
  negb (existsb (Ascii.eqb c) (list_ascii_of_string s)).

(** A key or a value without [?], [&] and [=]. *)
Definition plain_text (s : string) : bool :=
  free_of "?" s && free_of "&" s && free_of "=" s.

(** The text [key=value]. *)
Definition assignment (kv : string * string) : string :=
  (fst kv ++ "=" ++ snd kv)%string.

(** A pair that [_parseWMSUrl] reads back as it is, at its place: the key
    is no array index, which [Object.entries] would move to the front, and
    not [__proto__]. *)
Definition readable_pair (kv : string * string) : bool :=
  plain_text (fst kv) && plain_text (snd kv) && negb (String.eqb (fst kv) "__proto__")
  && named_key (fst kv).

(** The keys that [getFeatureInfoURL] and [_getWMSUrl] define themselves. *)
Definition getFeatureInfo_keys : list string :=
  ["service"; "version"; "request"; "srs"; "format"; "info_format"; "styles"].

(** The keys that [_getWMSUrl] defines itself. *)
Definition request_keys : list string := ["service"; "version"; "request"].

(** The name of the reference system's parameter under [version]. *)
Definition crs_name (version : string) : string :=
  if String.eqb version "1.3.0" then "CRS" else "SRS".

(** * Properties *)

(** ** Arrays *)

Section ArrayFacts.

Lemma store_length (a : Js.array) (i : nat) (v : float) :
  (i < List.length a)%nat -> List.length (Js.store a i v) = List.length a.
Proof.
  revert a; induction i as [|i IH]; intros [|slot a] Hi; simpl in *; try lia.
  rewrite IH by lia; reflexivity.
Qed.

Lemma nth_error_store_same (a : Js.array) (i : nat) (v : float) :
  nth_error (Js.store a i v) i = Some (Some v).
Proof.
  revert a; induction i as [|i IH]; intros [|slot a]; simpl; auto.
Qed.

Lemma get_nat (a : Js.array) (i : nat) :
  Js.get a (Z.of_nat i) = match nth_error a i with Some slot => slot | None => None end.
Proof.
  unfold Js.get.
  destruct (Z.ltb_spec (Z.of_nat i) 0); [lia|].
  rewrite Nat2Z.id; reflexivity.
Qed.

Lemma get_store_other (a : Js.array) (i j : nat) (v : float) :
  i <> j -> Js.get (Js.store a i v) (Z.of_nat j) = Js.get a (Z.of_nat j).
Proof.
  rewrite !get_nat.
  revert a j; induction i as [|i IH]; intros [|slot a] [|j] Hij; simpl; try congruence.
  - destruct j; reflexivity.
  - rewrite IH by congruence. destruct j; reflexivity.
  - apply IH; congruence.
Qed.

Lemma set_length (a : Js.array) (i : Z) (v : float) :
  (i < Z.of_nat (List.length a))%Z -> List.length (Js.set a i v) = List.length a.
Proof.
  intros Hi; unfold Js.set.
  destruct (Z.ltb_spec i 0); [reflexivity|].
  apply store_length; lia.
Qed.

Lemma get_set_same (a : Js.array) (i : Z) (v : float) :
  (0 <= i)%Z -> Js.get (Js.set a i v) i = Some v.
Proof.
  intros Hi; unfold Js.set, Js.get.
  destruct (Z.ltb_spec i 0); [lia|].
  rewrite nth_error_store_same; reflexivity.
Qed.

Lemma get_set_other (a : Js.array) (i j : Z) (v : float) :
  i <> j -> Js.get (Js.set a i v) j = Js.get a j.
Proof.
  intros Hij; unfold Js.set.
  destruct (Z.ltb_spec i 0); [reflexivity|].
  destruct (Z.ltb_spec j 0) as [Hj|Hj].
  - unfold Js.get. destruct (Z.ltb_spec j 0); [reflexivity|lia].
  - rewrite <- (Z2Nat.id j) by lia.
    apply get_store_other; lia.
Qed.

(** An array of three numbers is determined by its three reads. *)
Lemma array3_ext (a : Js.array) (x y z : float) :
  List.length a = 3%nat ->
  Js.get a 0 = Some x -> Js.get a 1 = Some y -> Js.get a 2 = Some z ->
  a = [Some x; Some y; Some z].
Proof.
  destruct a as [|s0 [|s1 [|s2 [|s3 a]]]]; simpl; try discriminate.
  unfold Js.get; simpl; intros _ -> -> ->; reflexivity.
Qed.

End ArrayFacts.

(** ** The loop of [convertLine] *)

Section LoopFacts.
Context {M : MathLib} {simplifier : Simplifier}.

Lemma convertLine_loop_elems (ring : list Position) (isPolygon : bool) :
  forall j out x0 y0 size,
    fst (convertLine_loop ring isPolygon j out x0 y0 size)
    = out ++ flat_map (vertex 0) ring.
Proof.
  induction ring as [|p ring IH]; intros j out x0 y0 size; simpl.
  - rewrite app_nil_r; reflexivity.
  - rewrite IH. unfold Js.push3. rewrite <- app_assoc. reflexivity.
Qed.

Lemma convertLine_loop_size (ring : list Position) (isPolygon : bool) :
  forall j out x0 y0 size,
    snd (convertLine_loop ring isPolygon (S j) out x0 y0 size)
    = accumulate isPolygon x0 y0 (map project ring) size.
Proof.
  induction ring as [|p ring IH]; intros j out x0 y0 size; simpl; [reflexivity|].
  rewrite IH; reflexivity.
Qed.

Lemma convertLine_loop_size0 (ring : list Position) (isPolygon : bool) (out : Js.array)
    (x0 y0 : float) :
  snd (convertLine_loop ring isPolygon 0 out x0 y0 0%float)
  = running_sum isPolygon (map project ring).
Proof.
  destruct ring as [|p ring]; simpl; [reflexivity|].
  apply convertLine_loop_size.
Qed.

Lemma flat_map_vertex_length (s : float) (ring : list Position) :
  List.length (flat_map (vertex s) ring) = (3 * List.length ring)%nat.
Proof.
  induction ring as [|p ring IH]; simpl; [reflexivity|]. rewrite IH; lia.
Qed.

(** [convertLine] in terms of the loop's two results. *)
Lemma convertLine_unfold (ring : list Position) (out : FlatArray) (tolerance : float)
    (isPolygon : bool) :
  let out1 := elems out ++ flat_map (vertex 0) ring in
  let last := (Z.of_nat (List.length out1) - 3)%Z in
  convertLine ring out tolerance isPolygon
  = {| elems := Js.set (simplify (Js.set out1 2 1%float) 0 last tolerance) (last + 2) 1%float;
       size := Some (Math_abs (running_sum isPolygon (map project ring)));
       start := Some 0%float;
       end_ := Some (Math_abs (running_sum isPolygon (map project ring))) |}.
Proof.
  unfold convertLine.
  pose proof (convertLine_loop_elems ring isPolygon 0 (elems out) nan nan 0%float) as He.
  pose proof (convertLine_loop_size0 ring isPolygon (elems out) nan nan) as Hs.
  destruct (convertLine_loop ring isPolygon 0 (elems out) nan nan 0%float) as [out1 size1].
  simpl in He, Hs; subst out1 size1. reflexivity.
Qed.

Lemma convertLines_app (rings : list (list Position)) (tolerance : float) (isPolygon : bool) :
  forall out,
    convertLines rings out tolerance isPolygon
    = out ++ map (fun ring => convertLine ring empty tolerance isPolygon) rings.
Proof.
  induction rings as [|ring rings IH]; intros out; simpl.
  - rewrite app_nil_r; reflexivity.
  - rewrite IH, <- app_assoc; reflexivity.
Qed.

End LoopFacts.

(** ** Pinned end points *)

Section Endpoints.
Context {M : MathLib} {simplifier : Simplifier} {contract : SimplifierContract simplifier}.

Lemma convertLine_length (ring : list Position) (tolerance : float) (isPolygon : bool) :
  ring <> [] ->
  List.length (elems (convertLine ring empty tolerance isPolygon))
  = (3 * List.length ring)%nat.
Proof.
  intros Hne. rewrite convertLine_unfold; simpl.
  pose proof (flat_map_vertex_length 0 ring) as Hl.
  assert (List.length ring <> 0)%nat by (destruct ring; simpl; congruence).
  rewrite set_length; rewrite simplify_length, set_length; lia.
Qed.

End Endpoints.

(** The marking simplifier of the examples honours the contract. *)
Section MarkingFacts.

Lemma mark_length (coords : Js.array) (i first last : Z) (v : float) :
  List.length (Reference.mark coords i first last v) = List.length coords.
Proof.
  revert i; induction coords as [|slot coords IH]; intros i; simpl; auto.
Qed.

Lemma mark_get (coords : Js.array) (first last : Z) (v : float) :
  forall (i : Z) (k : nat),
    Js.get (Reference.mark coords i first last v) (Z.of_nat k)
    = if ((first + 2 <? i + Z.of_nat k) && (i + Z.of_nat k <? last + 2)
          && ((i + Z.of_nat k - first) mod 3 =? 2))%Z
      then match nth_error coords k with Some _ => Some v | None => None end
      else Js.get coords (Z.of_nat k).
Proof.
  induction coords as [|slot coords IH]; intros i k.
  - rewrite !get_nat; destruct k; simpl; destruct (_ && _); reflexivity.
  - destruct k as [|k].
    + rewrite !get_nat; simpl. rewrite Z.add_0_r.
      destruct (_ && _); reflexivity.
    + rewrite !get_nat.
      replace (i + Z.of_nat (S k))%Z with (i + 1 + Z.of_nat k)%Z by lia.
      cbn [Reference.mark nth_error].
      rewrite <- !get_nat. apply IH.
Qed.

Lemma mark_get_off (coords : Js.array) (first last : Z) (v : float) (j : Z) :
  ((first + 2 <? j) && (j <? last + 2) && ((j - first) mod 3 =? 2))%Z = false ->
  Js.get (Reference.mark coords 0 first last v) j = Js.get coords j.
Proof.
  intros Hoff.
  destruct (Z.ltb_spec j 0) as [Hj|Hj].
  - unfold Js.get. destruct (Z.ltb_spec j 0); [reflexivity|lia].
  - rewrite <- (Z2Nat.id j) by lia. rewrite mark_get.
    rewrite Z.add_0_l, Z2Nat.id by lia. rewrite Hoff; reflexivity.
Qed.

Lemma marking_contract : SimplifierContract Reference.marking.
Proof.
  constructor; simpl; intros.
  - apply mark_length.
  - apply mark_get_off.
    destruct (Z.eqb_spec ((i - first) mod 3) 2); [contradiction|].
    rewrite andb_false_r; reflexivity.
  - apply mark_get_off. rewrite Z.ltb_irrefl; reflexivity.
  - apply mark_get_off. rewrite Z.ltb_irrefl, andb_false_r; reflexivity.
Qed.

End MarkingFacts.

Section EndpointTheorems.
Context {M : MathLib} {simplifier : Simplifier} {contract : SimplifierContract simplifier}.

Lemma convertLine_pinned (ring : list Position) (tolerance : float) (isPolygon : bool) :
  (2 <= List.length ring)%nat ->
  pinned (convertLine ring empty tolerance isPolygon).
Proof.
  intros Hlen.
  assert (Hne : ring <> []) by (destruct ring; simpl in *; [lia|congruence]).
  pose proof (convertLine_length ring tolerance isPolygon Hne) as Hl.
  unfold pinned. rewrite Hl. clear Hl.
  rewrite convertLine_unfold; simpl.
  pose proof (flat_map_vertex_length 0 ring) as Hv.
  rewrite Hv.
  replace (Z.of_nat (3 * List.length ring) - 3 + 2)%Z
    with (Z.of_nat (3 * List.length ring) - 1)%Z by lia.
  split.
  - rewrite get_set_other by lia.
    change 2%Z with (0 + 2)%Z at 1. rewrite simplify_first.
    apply get_set_same; lia.
  - apply get_set_same; lia.
Qed.

End EndpointTheorems.

(** C3: for a ring or line of at least two coordinates, whatever the
    tolerance (zero included) and whether it is measured as a polygon ring
    or as a line, the flattened buffer has three slots per coordinate and
    the significance slot of its first vertex (index 2) and of its last
    vertex (the last index) both hold 1, provided the simplifier keeps the
    buffer's length and leaves the pinned slot of the first end point
    untouched; the same holds for every line that [convertLines] flattens. *)
Theorem endpoints_pinned {M : MathLib} {simplifier : Simplifier}
    (contract : SimplifierContract simplifier)
    (ring : list Position) (tolerance : float) (isPolygon : bool) :
  (2 <= List.length ring)%nat ->
  let line := convertLine ring empty tolerance isPolygon in
  List.length (elems line) = (3 * List.length ring)%nat /\
  Js.get (elems line) 2 = Some 1%float /\
  Js.get (elems line) (Z.of_nat (List.length (elems line)) - 1) = Some 1%float /\
  forall rings : list (list Position),
    Forall (fun r => 2 <= List.length r)%nat rings ->
    Forall pinned (convertLines rings [] tolerance isPolygon).
Proof.
  intros Hlen line.
  assert (Hne : ring <> []) by (destruct ring; simpl in *; [lia|congruence]).
  split; [apply convertLine_length; assumption|].
  destruct (convertLine_pinned ring tolerance isPolygon Hlen) as [Hfirst Hlast].
  split; [exact Hfirst|]. split; [exact Hlast|].
  intros rings Hrings. rewrite convertLines_app; simpl.
  rewrite Forall_map. eapply Forall_impl; [|exact Hrings].
  intros r Hr. apply convertLine_pinned; assumption.
Qed.

Lemma endpoints_pinned_witness :
  let line :=
    convertLine (M := Reference.engine) (simplifier := Reference.marking)
      [(0, 0); (90, 0); (180, 0)]%float empty 0%float false in
  (2 <= 3)%nat /\
  Js.get (elems line) 2 = Some 1%float /\
  Js.get (elems line) 8 = Some 1%float.
Proof.
  pose proof (endpoints_pinned (M := Reference.engine) marking_contract
                [(0, 0); (90, 0); (180, 0)]%float 0%float false) as H.
  simpl List.length in H.
  split; [lia|].
  destruct (H ltac:(lia)) as (Hl & Hfirst & Hlast & _).
  split; [exact Hfirst|].
  rewrite Hl in Hlast. exact Hlast.
Defined.

(** C10: a line or ring of exactly one coordinate flattens to one vertex
    whose significance is 1 (the sole vertex is pinned as first and as
    last), whereas the vertex of a Point has significance 0. *)
Theorem single_coordinate_line_is_pinned {M : MathLib} {simplifier : Simplifier}
    (contract : SimplifierContract simplifier)
    (p : Position) (tolerance : float) (isPolygon : bool) :
  elems (convertLine [p] empty tolerance isPolygon) = vertex 1 p /\
  elems (convertPoint p empty) = vertex 0 p.
Proof.
  split; [|reflexivity].
  rewrite convertLine_unfold; simpl.
  apply array3_ext.
  - rewrite set_length; rewrite simplify_length; [reflexivity|].
    change (2 < 3)%Z; lia.
  - rewrite get_set_other by lia.
    rewrite simplify_coordinates by (change ((0 - 0) mod 3)%Z with 0%Z; lia).
    reflexivity.
  - rewrite get_set_other by lia.
    rewrite simplify_coordinates by (change ((1 - 0) mod 3)%Z with 1%Z; lia).
    reflexivity.
  - apply get_set_same; lia.
Qed.

Lemma single_coordinate_line_is_pinned_witness :
  elems (convertLine (M := Reference.engine) (simplifier := Reference.marking)
           [(90, 0)]%float empty 0%float false)
  = [Some 0.75; Some 0.5; Some 1]%float /\
  elems (convertPoint (M := Reference.engine) (90, 0)%float empty)
  = [Some 0.75; Some 0.5; Some 0]%float.
Proof.
  exact (single_coordinate_line_is_pinned (M := Reference.engine) marking_contract
           (90, 0)%float 0%float false).
Defined.

(** ** The dispatch of [convertFeature] *)

Section DispatchFacts.
Context {M : MathLib} {simplifier : Simplifier}.

Lemma Geometry_nested_ind (P : Geometry -> Prop) :
  (forall c, P (Point c)) ->
  (forall c, P (MultiPoint c)) ->
  (forall c, P (LineString c)) ->
  (forall c, P (MultiLineString c)) ->
  (forall c, P (Polygon c)) ->
  (forall c, P (MultiPolygon c)) ->
  (forall gs, Forall P gs -> P (GeometryCollection gs)) ->
  (forall t, P (Other t)) ->
  forall g, P g.
Proof.
  intros HP HMP HL HML HPo HMPo HGC HO.
  fix IH 1. intros [c|c|c|c|c|c|gs|t].
  - apply HP.
  - apply HMP.
  - apply HL.
  - apply HML.
  - apply HPo.
  - apply HMPo.
  - apply HGC. induction gs as [|g gs IHgs]; constructor; [apply IH|exact IHgs].
  - apply HO.
Qed.

Lemma fold_left_push {A B : Type} (f : B -> A) (l : list B) :
  forall acc : list A, fold_left (fun acc x => acc ++ [f x]) l acc = acc ++ map f l.
Proof.
  induction l as [|x l IH]; intros acc; simpl.
  - rewrite app_nil_r; reflexivity.
  - rewrite IH, <- app_assoc; reflexivity.
Qed.

Lemma convertGeometry_collection (features : list ProtoFeature.t) (id0 : Js.any)
    (geometries : list Geometry) (properties : option Properties)
    (options : ConvertFeatureOptions) (index : option nat) :
  convertGeometry features id0 (GeometryCollection geometries) properties options index
  = (id <- resolveId options id0 properties index ;;
     convertChildren geometries features id properties options index).
Proof.
  simpl. destruct (resolveId options id0 properties index) as [id|e]; simpl; [|reflexivity].
  revert features; induction geometries as [|g gs IH]; intros features; simpl; [reflexivity|].
  destruct (convertGeometry features id g properties options index); simpl; auto.
Qed.

Lemma resolveId_idempotent (options : ConvertFeatureOptions) (id0 id : Js.any)
    (properties : option Properties) (index : option nat) :
  resolveId options id0 properties index = Js.Return id ->
  resolveId options id properties index = Js.Return id.
Proof.
  unfold resolveId.
  destruct (truthy (promoteId options)); [|destruct (generateId options)]; congruence.
Qed.

Lemma resolveId_readable (options : ConvertFeatureOptions) (id0 : Js.any)
    (properties : option Properties) (index : option nat) :
  negb (truthy (promoteId options))
  || match properties with Some _ => true | None => false end = true ->
  exists id, resolveId options id0 properties index = Js.Return id.
Proof.
  unfold resolveId, truthy.
  destruct (promoteId options) as [[|c key]|]; simpl; intros H;
    try (destruct (generateId options); eexists; reflexivity).
  destruct properties; [eexists; reflexivity|discriminate].
Qed.

(** The id resolves when the feature has properties for [promoteId] to
    read. *)
Lemma resolveId_resolves (options : ConvertFeatureOptions) (id0 : Js.any)
    (properties : option Properties) (index : option nat) :
  (truthy (promoteId options) = true -> properties <> None) ->
  exists id, resolveId options id0 properties index = Js.Return id.
Proof.
  intros H. apply resolveId_readable.
  destruct (truthy (promoteId options)); [|reflexivity].
  destruct properties; [reflexivity|]. destruct (H eq_refl). reflexivity.
Qed.

(** A name that is no entry of the properties reads the member of
    [Object.prototype] of that name, and undefined when there is none. *)
Lemma lookup_missing (props : Properties) (key : string) :
  ~ In key (map fst props) ->
  lookup props key
  = if existsb (String.eqb key) Object_prototype then Js.Inherited key
    else Js.Prim Js.Undefined.
Proof.
  induction props as [|[k v] props IH]; simpl; [reflexivity|].
  intros H. destruct (String.eqb_spec k key) as [->|_]; [tauto|]. apply IH. tauto.
Qed.

Lemma resolveId_expected (options : ConvertFeatureOptions) (geojson : Feature.t)
    (index : option nat) (id : Js.any) :
  resolveId options (Feature.id geojson) (Feature.properties geojson) index = Js.Return id ->
  id = expected_id options geojson index.
Proof.
  unfold resolveId, expected_id.
  destruct (truthy (promoteId options)).
  - destruct (Feature.properties geojson), (promoteId options); intros [= <-]; reflexivity.
  - destruct (generateId options); intros [= <-]; [destruct index as [[|i]|]|]; reflexivity.
Qed.

Lemma carries_createFeature (id : Js.any) (type : string) (geom : ProtoGeometry)
    (properties : option Properties) :
  recognized type = true -> type <> "GeometryCollection" ->
  carries id properties (createFeature id type geom properties).
Proof. intros; repeat split; assumption. Qed.

(** Whatever [convertGeometry] returns extends [features], and the
    proto-features it appends carry the resolved id and the properties and
    a kind of the seven other than GeometryCollection. *)
Lemma convertGeometry_appends (g : Geometry) :
  forall features id0 properties options index out,
    convertGeometry features id0 g properties options index = Js.Return out ->
    exists id new,
      resolveId options id0 properties index = Js.Return id /\
      out = features ++ new /\ Forall (carries id properties) new.
Proof.
  induction g as [c|c|c|c|c|c|gs IHgs|t] using Geometry_nested_ind;
    intros features id0 properties options index out;
    try (simpl; destruct (resolveId options id0 properties index) as [id|e]; simpl;
         [|discriminate]; intros [= <-]; exists id; eexists; split; [reflexivity|];
         split; [reflexivity|]; repeat constructor; discriminate).
  - (* MultiLineString *)
    simpl; destruct (resolveId options id0 properties index) as [id|e]; simpl; [|discriminate].
    destruct (lineMetrics options); intros [= <-]; exists id.
    + rewrite fold_left_push. eexists; split; [reflexivity|]. split; [reflexivity|].
      rewrite Forall_map. apply Forall_forall; intros line _.
      repeat constructor; discriminate.
    + eexists; split; [reflexivity|]. split; [reflexivity|].
      repeat constructor; discriminate.
  - (* GeometryCollection *)
    rewrite convertGeometry_collection.
    destruct (resolveId options id0 properties index) as [id|e] eqn:Hid; simpl; [|discriminate].
    intros Hout. exists id.
    assert (H : exists new, out = features ++ new /\ Forall (carries id properties) new).
    { revert features Hout. induction IHgs as [|g gs Hg _ IH]; intros features; simpl.
      - intros [= <-]. exists []. rewrite app_nil_r. split; [reflexivity|constructor].
      - destruct (convertGeometry features id g properties options index) as [mid|e] eqn:Hg1;
          simpl; [|discriminate].
        intros Hrest.
        destruct (Hg _ _ _ _ _ _ Hg1) as (id' & new1 & Hid' & -> & Hnew1).
        rewrite (resolveId_idempotent _ _ _ _ _ Hid) in Hid'. injection Hid' as <-.
        destruct (IH _ Hrest) as (new2 & -> & Hnew2).
        exists (new1 ++ new2). rewrite app_assoc. split; [reflexivity|].
        apply Forall_app; split; assumption. }
    destruct H as (new & -> & Hnew). exists new. repeat split; assumption.
  - (* Other *)
    simpl; destruct (resolveId options id0 properties index); simpl;
      destruct (recognized t); discriminate.
Qed.

End DispatchFacts.

Section TotalityFacts.
Context {M : MathLib} {simplifier : Simplifier}.

Lemma unsupported_collection (gs : list Geometry) :
  unsupported (GeometryCollection gs) = existsb unsupported gs.
Proof.
  simpl. induction gs as [|g gs IH]; simpl; [reflexivity|]. rewrite IH; reflexivity.
Qed.

Lemma well_shaped_collection (gs : list Geometry) :
  well_shaped (GeometryCollection gs) = forallb well_shaped gs.
Proof.
  simpl. induction gs as [|g gs IH]; simpl; [reflexivity|]. rewrite IH; reflexivity.
Qed.

(** A geometry of supported kinds whose coordinates are there is
    converted, once the id is resolved. *)
Lemma convertGeometry_returns (g : Geometry) :
  unsupported g = false -> well_shaped g = true ->
  forall features id0 properties options index id,
    resolveId options id0 properties index = Js.Return id ->
    exists out, convertGeometry features id0 g properties options index = Js.Return out.
Proof.
  induction g as [c|c|c|c|c|c|gs IHgs|t] using Geometry_nested_ind;
    intros Hsup Hshape features id0 properties options index id Hid;
    try (simpl; rewrite Hid; simpl; eexists; reflexivity).
  - simpl; rewrite Hid; simpl. destruct (lineMetrics options); eexists; reflexivity.
  - rewrite convertGeometry_collection, Hid; simpl.
    rewrite unsupported_collection in Hsup. rewrite well_shaped_collection in Hshape.
    apply resolveId_idempotent in Hid.
    revert features. induction IHgs as [|g gs Hg _ IH]; intros features; simpl.
    + eexists; reflexivity.
    + simpl in Hsup, Hshape.
      apply orb_false_iff in Hsup as [Hsup1 Hsup2].
      apply andb_true_iff in Hshape as [Hshape1 Hshape2].
      destruct (Hg Hsup1 Hshape1 features id properties options index id Hid) as [mid ->].
      simpl. apply IH; assumption.
  - simpl in Hsup, Hshape. rewrite Hshape in Hsup; discriminate.
Qed.

Lemma readable_inv (options : ConvertFeatureOptions) (geojson : Feature.t) (g : Geometry) :
  Feature.geometry geojson = Some g -> readable options geojson = true ->
  well_shaped g = true /\
  forall index, exists id,
    resolveId options (Feature.id geojson) (Feature.properties geojson) index = Js.Return id.
Proof.
  unfold readable; intros ->. intros H. apply andb_true_iff in H as [Hshape Hprops].
  split; [assumption|]. intros index. apply resolveId_readable; assumption.
Qed.

Lemma convertFeature_returns (geojson : Feature.t) (options : ConvertFeatureOptions) :
  feature_unsupported geojson = false -> readable options geojson = true ->
  forall features index,
    exists out, convertFeature features geojson options index = Js.Return out.
Proof.
  unfold feature_unsupported, convertFeature.
  destruct (Feature.geometry geojson) as [g|] eqn:Hg; [|eexists; reflexivity].
  intros Hsup Hread features index.
  destruct (readable_inv _ _ _ Hg Hread) as [Hshape Hres].
  destruct (Hres index) as [id Hid].
  eapply convertGeometry_returns; eassumption.
Qed.

Lemma first_failure_cons (g : Geometry) (gs : list Geometry) :
  first_failure (GeometryCollection (g :: gs))
  = match first_failure g with
    | Some e => Some e
    | None => first_failure (GeometryCollection gs)
    end.
Proof. reflexivity. Qed.

(** Once the id is resolved, the geometry decides: the conversion throws
    its first failure, and returns when it has none. *)
Lemma convertGeometry_outcome (g : Geometry) :
  forall features id0 properties options index id,
    resolveId options id0 properties index = Js.Return id ->
    match first_failure g with
    | Some e => convertGeometry features id0 g properties options index = Js.Throw e
    | None => exists out, convertGeometry features id0 g properties options index = Js.Return out
    end.
Proof.
  induction g as [c|c|c|c|c|c|gs IHgs|t] using Geometry_nested_ind;
    intros features id0 properties options index id Hid;
    try (simpl; rewrite Hid; simpl; eexists; reflexivity).
  - simpl; rewrite Hid; simpl. destruct (lineMetrics options); eexists; reflexivity.
  - rewrite convertGeometry_collection, Hid. cbn [Js.bind].
    apply resolveId_idempotent in Hid.
    revert features. induction IHgs as [|g gs Hg _ IH]; intros features.
    + simpl. eexists; reflexivity.
    + rewrite first_failure_cons. cbn [convertChildren].
      specialize (Hg features id properties options index id Hid).
      destruct (first_failure g) as [e|].
      * rewrite Hg. reflexivity.
      * destruct Hg as [mid ->]. cbn [Js.bind]. apply IH.
  - simpl. rewrite Hid. simpl. destruct (recognized t); reflexivity.
Qed.

Lemma convertGeometry_unresolved (g : Geometry) (features : list ProtoFeature.t)
    (id0 : Js.any) (properties : option Properties) (options : ConvertFeatureOptions)
    (index : option nat) (e : Js.exn) :
  resolveId options id0 properties index = Js.Throw e ->
  convertGeometry features id0 g properties options index = Js.Throw e.
Proof. intros H. destruct g; simpl; rewrite H; reflexivity. Qed.

Lemma convertFeature_outcome (geojson : Feature.t) (options : ConvertFeatureOptions)
    (features : list ProtoFeature.t) (index : option nat) :
  match feature_failure options geojson with
  | Some e => convertFeature features geojson options index = Js.Throw e
  | None => exists out, convertFeature features geojson options index = Js.Return out
  end.
Proof.
  unfold feature_failure, convertFeature.
  destruct (Feature.geometry geojson) as [g|]; [|eexists; reflexivity].
  assert (Hcase :
            (exists id, resolveId options (Feature.id geojson) (Feature.properties geojson) index
                        = Js.Return id)
            \/ (Feature.properties geojson = None /\ truthy (promoteId options) = true /\
                resolveId options (Feature.id geojson) (Feature.properties geojson) index
                = Js.Throw Js.TypeError)).
  { unfold resolveId. destruct (truthy (promoteId options)) eqn:Ht.
    - destruct (Feature.properties geojson) as [props|].
      + left. destruct (promoteId options); [eexists; reflexivity|discriminate].
      + right. auto.
    - left. destruct (generateId options); eexists; reflexivity. }
  destruct Hcase as [[id Hid]|(Hp & Ht & Hthrow)].
  - pose proof (convertGeometry_outcome g features _ _ _ _ _ Hid) as H.
    destruct (Feature.properties geojson) as [props|] eqn:Hp; [exact H|].
    destruct (truthy (promoteId options)) eqn:Ht; [|exact H].
    unfold resolveId in Hid. rewrite Ht in Hid. discriminate.
  - rewrite Hp in *. rewrite Ht. apply convertGeometry_unresolved. exact Hthrow.
Qed.

Lemma convertFeatures_loop_outcome (data_features : list Feature.t)
    (options : ConvertFeatureOptions) :
  forall i features,
    match failure options data_features with
    | Some e => convertFeatures_loop data_features i features options = Js.Throw e
    | None => exists out, convertFeatures_loop data_features i features options = Js.Return out
    end.
Proof.
  induction data_features as [|geojson rest IH]; intros i features; simpl.
  - eexists; reflexivity.
  - pose proof (convertFeature_outcome geojson options features (Some i)) as H.
    destruct (feature_failure options geojson) as [e|].
    + rewrite H. reflexivity.
    + destruct H as [mid ->]. simpl. apply IH.
Qed.

Lemma convertFeatures_outcome (data : GeoJSON) (options : ConvertFeatureOptions) :
  match failure options (features_of data) with
  | Some e => convertFeatures data options = Js.Throw e
  | None => exists out, convertFeatures data options = Js.Return out
  end.
Proof.
  destruct data as [data_features|geojson|geometry]; simpl.
  - apply convertFeatures_loop_outcome.
  - pose proof (convertFeature_outcome geojson options [] None) as H.
    destruct (feature_failure options geojson); exact H.
  - match goal with |- context [feature_failure options ?f] =>
      pose proof (convertFeature_outcome f options [] None) as H;
      destruct (feature_failure options f); exact H
    end.
Qed.

Lemma unsupported_fails (g : Geometry) :
  unsupported g = true -> exists e, first_failure g = Some e.
Proof.
  induction g as [c|c|c|c|c|c|gs IHgs|t] using Geometry_nested_ind; try discriminate.
  - rewrite unsupported_collection.
    induction IHgs as [|g gs Hg _ IH]; simpl existsb; [discriminate|].
    intros H. rewrite first_failure_cons.
    destruct (first_failure g) as [e|] eqn:E; [eexists; reflexivity|].
    apply orb_true_iff in H as [H|H]; [destruct (Hg H); discriminate|].
    apply IH. exact H.
  - intros _. eexists; reflexivity.
Qed.

Lemma well_shaped_failure (g : Geometry) :
  well_shaped g = true ->
  first_failure g = if unsupported g then Some invalid_geojson else None.
Proof.
  induction g as [c|c|c|c|c|c|gs IHgs|t] using Geometry_nested_ind; try reflexivity.
  - rewrite unsupported_collection, well_shaped_collection.
    induction IHgs as [|g gs Hg _ IH]; [reflexivity|].
    simpl forallb. simpl existsb. intros H. apply andb_true_iff in H as [H1 H2].
    rewrite first_failure_cons, (Hg H1).
    destruct (unsupported g); [reflexivity|]. apply IH. exact H2.
  - simpl. intros H. rewrite H. apply negb_true_iff in H. rewrite H. reflexivity.
Qed.

Lemma readable_failure (options : ConvertFeatureOptions) (geojson : Feature.t) :
  readable options geojson = true ->
  feature_failure options geojson
  = if feature_unsupported geojson then Some invalid_geojson else None.
Proof.
  unfold readable, feature_failure, feature_unsupported.
  destruct (Feature.geometry geojson) as [g|]; [|reflexivity].
  intros H. apply andb_true_iff in H as [Hshape Hprops].
  destruct (Feature.properties geojson).
  - apply well_shaped_failure. exact Hshape.
  - rewrite orb_false_r in Hprops. apply negb_true_iff in Hprops. rewrite Hprops.
    apply well_shaped_failure. exact Hshape.
Qed.

Lemma feature_unsupported_fails (options : ConvertFeatureOptions)
    (data_features : list Feature.t) :
  existsb feature_unsupported data_features = true ->
  exists e, failure options data_features = Some e.
Proof.
  induction data_features as [|geojson rest IH]; simpl; [discriminate|].
  intros H. destruct (feature_failure options geojson) as [e|] eqn:E; [eexists; reflexivity|].
  apply orb_true_iff in H as [H|H]; [|apply IH; exact H].
  exfalso. unfold feature_failure, feature_unsupported in *.
  destruct (Feature.geometry geojson) as [g|]; [|discriminate].
  destruct (unsupported_fails g H) as [e He].
  destruct (Feature.properties geojson); [congruence|].
  destruct (truthy (promoteId options)); congruence.
Qed.

Lemma through_unsupported_failure (options : ConvertFeatureOptions)
    (data_features : list Feature.t) :
  existsb feature_unsupported data_features = true ->
  forallb (readable options) (through_unsupported data_features) = true ->
  failure options data_features = Some invalid_geojson.
Proof.
  induction data_features as [|geojson rest IH]; simpl; [discriminate|].
  intros Hsup Hread.
  destruct (feature_unsupported geojson) eqn:E; simpl in Hread;
    apply andb_true_iff in Hread as [H1 H2]; rewrite (readable_failure _ _ H1), E.
  - reflexivity.
  - apply IH; assumption.
Qed.

End TotalityFacts.




(** ** One proto-feature per geometry, and the exceptions to it *)

Section CardinalityFacts.
Context {M : MathLib} {simplifier : Simplifier}.

Lemma convertGeometry_single (g : Geometry) (id0 id : Js.any)
    (properties : option Properties) (options : ConvertFeatureOptions) (index : option nat) :
  single options g = true ->
  resolveId options id0 properties index = Js.Return id ->
  exists f,
    (forall features,
       convertGeometry features id0 g properties options index = Js.Return (features ++ [f])) /\
    carries id properties f /\ ProtoFeature.kind f = kind_of g.
Proof.
  intros Hsingle Hid.
  destruct g as [c|c|c|c|c|c|gs|t]; simpl in Hsingle; try discriminate;
    simpl; rewrite Hid; simpl;
    try (eexists; split; [intros; reflexivity|];
         split; [apply carries_createFeature; [reflexivity|discriminate]|reflexivity]).
  apply negb_true_iff in Hsingle. rewrite Hsingle.
  eexists; split; [intros; reflexivity|].
  split; [apply carries_createFeature; [reflexivity|discriminate]|reflexivity].
Qed.

Lemma convertChildren_single (geometries : list Geometry) (id : Js.any)
    (properties : option Properties) (options : ConvertFeatureOptions) (index : option nat) :
  forallb (single options) geometries = true ->
  resolveId options id properties index = Js.Return id ->
  exists new,
    (forall features,
       convertChildren geometries features id properties options index
       = Js.Return (features ++ new)) /\
    Forall2 (fun g f =>
               convertGeometry [] id g properties options index = Js.Return [f] /\
               carries id properties f /\ ProtoFeature.kind f = kind_of g)
            geometries new.
Proof.
  intros Hall Hid.
  induction geometries as [|g gs IH]; simpl in *.
  - exists []. split; [intros; rewrite app_nil_r; reflexivity|constructor].
  - apply andb_true_iff in Hall as [Hg Hgs].
    destruct (convertGeometry_single g id id properties options index Hg Hid)
      as (f & Hf & Hcar & Hkind).
    destruct (IH Hgs) as (new & Hnew & Hall2).
    exists (f :: new). split.
    + intros features. rewrite Hf; simpl. rewrite Hnew, <- app_assoc. reflexivity.
    + constructor; [|assumption]. repeat split; try apply Hcar; try assumption.
      apply (Hf []).
Qed.

Lemma convertFeatures_loop_appends (P : ProtoFeature.t -> Prop)
    (options : ConvertFeatureOptions) :
  (forall g features id0 properties index out,
     convertGeometry features id0 g properties options index = Js.Return out ->
     Forall P features -> Forall P out) ->
  forall data_features i features out,
    convertFeatures_loop data_features i features options = Js.Return out ->
    Forall P features -> Forall P out.
Proof.
  intros Hstep data_features.
  induction data_features as [|geojson rest IH]; simpl; intros i features out.
  - intros [= <-]; auto.
  - unfold convertFeature at 1.
    destruct (Feature.geometry geojson) as [g|]; simpl.
    + destruct (convertGeometry features (Feature.id geojson) g (Feature.properties geojson)
                  options (Some i)) as [mid|e] eqn:Hg; simpl; [|discriminate].
      intros Hout HP. eapply IH; [eassumption|]. eapply Hstep; eassumption.
    + apply IH.
Qed.

Lemma convertGeometry_kinds (options : ConvertFeatureOptions) :
  forall g features id0 properties index out,
    convertGeometry features id0 g properties options index = Js.Return out ->
    Forall (fun f => ProtoFeature.kind f <> "GeometryCollection") features ->
    Forall (fun f => ProtoFeature.kind f <> "GeometryCollection") out.
Proof.
  intros g features id0 properties index out Hout Hfeatures.
  destruct (convertGeometry_appends g _ _ _ _ _ _ Hout) as (id & new & _ & -> & Hnew).
  apply Forall_app; split; [assumption|].
  eapply Forall_impl; [|exact Hnew]. intros f Hf; apply Hf.
Qed.

Lemma convertFeatures_kinds (data : GeoJSON) (options : ConvertFeatureOptions)
    (out : list ProtoFeature.t) :
  convertFeatures data options = Js.Return out ->
  Forall (fun f => ProtoFeature.kind f <> "GeometryCollection") out.
Proof.
  destruct data as [data_features|geojson|geometry]; simpl.
  - intros Hout.
    eapply convertFeatures_loop_appends; [apply convertGeometry_kinds|eassumption|constructor].
  - unfold convertFeature. destruct (Feature.geometry geojson) as [g|].
    + intros Hout. eapply convertGeometry_kinds; [eassumption|constructor].
    + intros [= <-]; constructor.
  - unfold convertFeature; simpl.
    intros Hout. eapply convertGeometry_kinds; [eassumption|constructor].
Qed.

Lemma filter_complement_length {A : Type} (p : A -> bool) (l : list A) :
  (List.length l - List.length (filter (fun x => negb (p x)) l))%nat
  = List.length (filter p l).
Proof.
  assert (H : (List.length (filter p l) + List.length (filter (fun x => negb (p x)) l)
               = List.length l)%nat).
  { induction l as [|x l IH]; simpl; [reflexivity|].
    destruct (p x); simpl; lia. }
  lia.
Qed.

Lemma convertFeatures_loop_count (data_features : list Feature.t)
    (options : ConvertFeatureOptions) :
  forallb (plain options) data_features = true ->
  forall i features,
    exists out,
      convertFeatures_loop data_features i features options = Js.Return out /\
      List.length out
      = (List.length features + List.length (filter has_geometry data_features))%nat.
Proof.
  induction data_features as [|geojson rest IH]; simpl; intros Hall i features.
  - exists features; split; [reflexivity|lia].
  - apply andb_true_iff in Hall as [Hplain Hrest].
    unfold plain, has_geometry, convertFeature in *.
    destruct (Feature.geometry geojson) as [g|] eqn:Hg; simpl.
    + apply andb_true_iff in Hplain as [Hsingle Hread].
      destruct (readable_inv _ _ _ Hg Hread) as [_ Hres].
      destruct (Hres (Some i)) as [id Hid].
      destruct (convertGeometry_single g _ _ _ _ _ Hsingle Hid) as (f & -> & _).
      simpl. destruct (IH Hrest (S i) (features ++ [f])) as (out & -> & Hlen).
      exists out; split; [reflexivity|]. rewrite Hlen, length_app; simpl; lia.
    + destruct (IH Hrest (S i) features) as (out & -> & Hlen).
      exists out; split; [reflexivity|]. exact Hlen.
Qed.

End CardinalityFacts.

(** C5, the claim as given fails: under [promoteId] a MultiLineString
    feature without properties is not converted, with [lineMetrics] or
    without: reading the id throws a TypeError and nothing is emitted. *)
Lemma multilinestring_without_properties :
  let geojson :=
    {| Feature.id := Js.Prim (Js.Num 7);
       Feature.geometry :=
         Some (MultiLineString [[(0, 0); (90, 0)]; [(0, 0); (180, 0)]]%float);
       Feature.properties := None |} in
  let options exploded :=
    {| maxZoom := 14; tolerance := 3%float; extent := 4096%float;
       lineMetrics := exploded; promoteId := Some "name"; generateId := false |} in
  convertFeatures (M := Reference.engine) (simplifier := Reference.marking)
    (SingleFeature geojson) (options true)
  = Js.Throw Js.TypeError /\
  convertFeatures (M := Reference.engine) (simplifier := Reference.marking)
    (SingleFeature geojson) (options false)
  = Js.Throw Js.TypeError.
Proof. split; reflexivity. Qed.

(** C5, amended: for a MultiLineString feature of k lines that has
    properties whenever [promoteId] is given, the id resolves, to [id]
    say, and: under [lineMetrics] exactly k proto-features are appended,
    the i-th of kind LineString holding the flattened i-th line, all with
    the id [id] and the properties of the feature; otherwise exactly one
    proto-feature of kind MultiLineString is appended, holding the k
    flattened lines. Every flattened line has its own [size], [start] = 0
    and [end] = [size]. *)
Theorem multilinestring_lineMetrics {M : MathLib} {simplifier : Simplifier}
    (features : list ProtoFeature.t) (id0 : Js.any) (lines : list (list Position))
    (properties : option Properties) (options : ConvertFeatureOptions)
    (index : option nat) :
  (truthy (promoteId options) = true -> properties <> None) ->
  let flatten line := convertLine line empty (sqTolerance options) false in
  exists id new,
    resolveId options id0 properties index = Js.Return id /\
    convertFeature features
      {| Feature.id := id0;
         Feature.geometry := Some (MultiLineString lines);
         Feature.properties := properties |}
      options index
    = Js.Return (features ++ new) /\
    (lineMetrics options = true ->
     new = map (fun line => createFeature id "LineString" (Flat (flatten line)) properties) lines /\
     List.length new = List.length lines) /\
    (lineMetrics options = false ->
     new = [createFeature id "MultiLineString" (Rings (map flatten lines)) properties] /\
     List.length (map flatten lines) = List.length lines) /\
    (forall line,
       start (flatten line) = Some 0%float /\
       end_ (flatten line) = size (flatten line) /\
       size (flatten line) = Some (Math_abs (running_sum false (map project line)))).
Proof.
  intros Hprops flatten.
  destruct (resolveId_resolves options id0 properties index Hprops) as [id Hid].
  exists id. unfold convertFeature; simpl. rewrite Hid; simpl.
  assert (Hline : forall line,
             start (flatten line) = Some 0%float /\
             end_ (flatten line) = size (flatten line) /\
             size (flatten line) = Some (Math_abs (running_sum false (map project line)))).
  { intros line. unfold flatten. rewrite convertLine_unfold. simpl. auto. }
  destruct (lineMetrics options).
  - rewrite fold_left_push. eexists; split; [reflexivity|]. split; [reflexivity|].
    split; [intros _; split; [reflexivity|apply length_map]|].
    split; [discriminate|exact Hline].
  - rewrite convertLines_app; simpl. eexists; split; [reflexivity|]. split; [reflexivity|].
    split; [discriminate|].
    split; [intros _; split; [reflexivity|apply length_map]|exact Hline].
Qed.

Lemma multilinestring_lineMetrics_witness :
  let options :=
    {| maxZoom := 14; tolerance := 3%float; extent := 4096%float;
       lineMetrics := true; promoteId := None; generateId := false |} in
  let lines := [[(0, 0); (90, 0)]; [(0, 0); (90, 0); (180, 0)]]%float in
  match
    convertFeature (M := Reference.engine) (simplifier := Reference.marking) []
      {| Feature.id := Js.Prim (Js.Num 7);
         Feature.geometry := Some (MultiLineString lines);
         Feature.properties := None |}
      options None
  with
  | Js.Return out => map (fun f => (ProtoFeature.id f, ProtoFeature.kind f)) out
  | Js.Throw _ => []
  end
  = [(Js.Prim (Js.Num 7), "LineString"); (Js.Prim (Js.Num 7), "LineString")].
Proof.
  intros options lines.
  destruct (multilinestring_lineMetrics (M := Reference.engine)
              (simplifier := Reference.marking) [] (Js.Prim (Js.Num 7)) lines None
              options None ltac:(discriminate)) as (id & new & Hid & -> & Hexploded & _).
  injection Hid as <-.
  destruct (Hexploded eq_refl) as [-> _]. reflexivity.
Defined.

(** C6, the claim as given fails: of three features, one without
    geometry, a Point without properties and a LineString, [promoteId]
    makes the conversion throw a TypeError at the Point, where the claim
    counts two proto-features. *)
Lemma missing_properties_abort :
  convertFeatures (M := Reference.engine) (simplifier := Reference.marking)
    (FeatureCollection
       [{| Feature.id := Js.Prim Js.Undefined; Feature.geometry := None;
           Feature.properties := None |};
        {| Feature.id := Js.Prim (Js.Num 1);
           Feature.geometry := Some (Point (0, 0)%float);
           Feature.properties := None |};
        {| Feature.id := Js.Prim (Js.Num 2);
           Feature.geometry := Some (LineString [(0, 0); (90, 0)]%float);
           Feature.properties := Some [("name", Js.Str "a")] |}])
    {| maxZoom := 14; tolerance := 3%float; extent := 4096%float;
       lineMetrics := false; promoteId := Some "name"; generateId := false |}
  = Js.Throw Js.TypeError.
Proof. reflexivity. Qed.

(** C6, amended: a feature without geometry is passed over without an
    error, and a collection of N features of which M have no geometry,
    the others having a geometry that yields one proto-feature (a kind of
    the seven that is neither a GeometryCollection nor a MultiLineString
    exploded under [lineMetrics]) and, whenever [promoteId] is given,
    properties to read the id from, is converted into exactly N - M
    proto-features. *)
Theorem missing_geometry_is_skipped {M : MathLib} {simplifier : Simplifier}
    (data_features : list Feature.t) (options : ConvertFeatureOptions) :
  forallb (plain options) data_features = true ->
  (exists out,
     convertFeatures (FeatureCollection data_features) options = Js.Return out /\
     List.length out
     = (List.length data_features
        - List.length (filter (fun f => negb (has_geometry f)) data_features))%nat) /\
  (forall features geojson index,
     Feature.geometry geojson = None ->
     convertFeature features geojson options index = Js.Return features).
Proof.
  intros Hall. split.
  - destruct (convertFeatures_loop_count data_features options Hall 0 []) as (out & Hout & Hlen).
    exists out; split; [exact Hout|].
    rewrite Hlen, filter_complement_length. reflexivity.
  - intros features geojson index Hg. unfold convertFeature. rewrite Hg. reflexivity.
Qed.

Lemma missing_geometry_is_skipped_witness :
  let no_geometry :=
    {| Feature.id := Js.Prim Js.Undefined; Feature.geometry := None; Feature.properties := None |} in
  let point :=
    {| Feature.id := Js.Prim (Js.Num 1);
       Feature.geometry := Some (Point (0, 0)%float);
       Feature.properties := None |} in
  exists out,
    convertFeatures (M := Reference.engine) (simplifier := Reference.marking)
      (FeatureCollection [no_geometry; point; no_geometry]) Reference.options
    = Js.Return out /\
    List.length out = 1%nat.
Proof.
  intros no_geometry point.
  exact (proj1 (missing_geometry_is_skipped (M := Reference.engine)
                  (simplifier := Reference.marking)
                  [no_geometry; point; no_geometry] Reference.options eq_refl)).
Defined.

(** C7, the claim as given fails: a GeometryCollection whose only child is
    a MultiLineString of two lines yields two proto-features under
    [lineMetrics], not one per child. *)
Lemma collection_child_exploded :
  match
    convertFeatures (M := Reference.engine) (simplifier := Reference.marking)
      (SingleFeature
         {| Feature.id := Js.Prim (Js.Num 7);
            Feature.geometry :=
              Some (GeometryCollection
                      [MultiLineString [[(0, 0); (90, 0)]; [(0, 0); (180, 0)]]%float]);
            Feature.properties := None |})
      {| maxZoom := 14; tolerance := 3%float; extent := 4096%float;
         lineMetrics := true; promoteId := None; generateId := false |}
  with
  | Js.Return out => map ProtoFeature.kind out
  | Js.Throw _ => []
  end
  = ["LineString"; "LineString"].
Proof. reflexivity. Qed.

(** C7, amended: for a GeometryCollection feature that has properties
    whenever [promoteId] is given and whose k children each yield one
    proto-feature (a kind of the seven other than GeometryCollection, and
    not a MultiLineString exploded under [lineMetrics]), the id resolves,
    to [id] say, and exactly k proto-features are appended, the i-th
    being what the i-th child alone converts to under the id [id] and the
    collection's properties; it carries that id, those properties and the
    child's kind. No proto-feature for the collection itself is appended,
    and no proto-feature that [convertFeatures] returns, whatever the
    input, has the kind GeometryCollection. *)
Theorem geometry_collection_expanded {M : MathLib} {simplifier : Simplifier}
    (features : list ProtoFeature.t) (id0 : Js.any) (children : list Geometry)
    (properties : option Properties) (options : ConvertFeatureOptions)
    (index : option nat) :
  (truthy (promoteId options) = true -> properties <> None) ->
  forallb (single options) children = true ->
  (exists id new,
     resolveId options id0 properties index = Js.Return id /\
     convertFeature features
       {| Feature.id := id0;
          Feature.geometry := Some (GeometryCollection children);
          Feature.properties := properties |}
       options index
     = Js.Return (features ++ new) /\
     List.length new = List.length children /\
     Forall2 (fun g f =>
                convertGeometry [] id g properties options index = Js.Return [f] /\
                ProtoFeature.id f = id /\
                ProtoFeature.properties f = properties /\
                ProtoFeature.kind f = kind_of g)
             children new) /\
  (forall data out,
     convertFeatures data options = Js.Return out ->
     Forall (fun f => ProtoFeature.kind f <> "GeometryCollection") out).
Proof.
  intros Hprops Hall. split; [|intros data out; apply convertFeatures_kinds].
  destruct (resolveId_resolves options id0 properties index Hprops) as [id Hid].
  exists id.
  unfold convertFeature; simpl Feature.geometry; cbv iota beta.
  rewrite convertGeometry_collection. simpl Feature.id; simpl Feature.properties.
  rewrite Hid; simpl.
  destruct (convertChildren_single children id properties options index Hall
              (resolveId_idempotent _ _ _ _ _ Hid)) as (new & Hnew & Hall2).
  exists new. split; [reflexivity|]. split; [apply Hnew|]. split.
  - symmetry. eapply Forall2_length; eassumption.
  - eapply Forall2_impl; [|exact Hall2].
    intros g f (Hg & Hcar & Hkind). destruct Hcar as (Hi & Hp & _).
    repeat split; assumption.
Qed.

Lemma geometry_collection_expanded_witness :
  let properties := Some [("name", Js.Str "x")] in
  let children :=
    [Point (0, 0)%float; LineString [(0, 0); (90, 0)]%float;
     Polygon [[(0, 0); (90, 0); (0, 0)]]%float] in
  exists new,
    convertFeature (M := Reference.engine) (simplifier := Reference.marking) []
      {| Feature.id := Js.Prim (Js.Num 7);
         Feature.geometry := Some (GeometryCollection children);
         Feature.properties := properties |}
      Reference.options None
    = Js.Return new /\
    List.length new = 3%nat /\
    Forall2 (fun g f =>
               convertGeometry (M := Reference.engine) (simplifier := Reference.marking)
                 [] (Js.Prim (Js.Num 7)) g properties Reference.options None
               = Js.Return [f] /\
               ProtoFeature.id f = Js.Prim (Js.Num 7) /\
               ProtoFeature.properties f = properties /\
               ProtoFeature.kind f = kind_of g)
            children new.
Proof.
  intros properties children.
  destruct (proj1 (geometry_collection_expanded (M := Reference.engine)
                     (simplifier := Reference.marking) [] (Js.Prim (Js.Num 7))
                     children properties Reference.options None
                     ltac:(discriminate) eq_refl))
    as (id & new & Hid & Hnew).
  injection Hid as <-. exists new. exact Hnew.
Defined.

(** ** Identity *)

Section IdentityFacts.
Context {M : MathLib} {simplifier : Simplifier}.

Lemma convertFeatures_loop_app (before after : list Feature.t)
    (options : ConvertFeatureOptions) :
  forall i features,
    convertFeatures_loop (before ++ after) i features options
    = (features <- convertFeatures_loop before i features options ;;
       convertFeatures_loop after (i + List.length before) features options).
Proof.
  induction before as [|geojson before IH]; intros i features; simpl.
  - rewrite Nat.add_0_r; reflexivity.
  - destruct (convertFeature features geojson options (Some i)) as [mid|e]; simpl;
      [|reflexivity].
    rewrite IH. replace (S i + List.length before)%nat with (i + S (List.length before))%nat
      by lia.
    reflexivity.
Qed.

Lemma convertFeature_ids (geojson : Feature.t) (options : ConvertFeatureOptions)
    (index : option nat) (features out : list ProtoFeature.t) :
  convertFeature features geojson options index = Js.Return out ->
  exists new,
    out = features ++ new /\
    Forall (fun f => ProtoFeature.id f = expected_id options geojson index) new.
Proof.
  unfold convertFeature. destruct (Feature.geometry geojson) as [g|].
  - intros Hout.
    destruct (convertGeometry_appends g _ _ _ _ _ _ Hout) as (id & new & Hid & -> & Hnew).
    exists new; split; [reflexivity|].
    apply resolveId_expected in Hid. subst id.
    eapply Forall_impl; [|exact Hnew]. intros f Hf; apply Hf.
  - intros [= <-]. exists []. rewrite app_nil_r. split; [reflexivity|constructor].
Qed.

End IdentityFacts.

(** C1, the claim as given fails: a feature with the explicit id 7 gets
    the id 9 of its property "name" when [promoteId] is "name", and the
    id 0 of its position when [generateId] is set. *)
Lemma explicit_id_is_overridden :
  let geojson :=
    {| Feature.id := Js.Prim (Js.Num 7);
       Feature.geometry := Some (Point (0, 0)%float);
       Feature.properties := Some [("name", Js.Num 9)] |} in
  let ids options :=
    match
      convertFeatures (M := Reference.engine) (simplifier := Reference.marking)
        (SingleFeature geojson) options
    with
    | Js.Return out => map ProtoFeature.id out
    | Js.Throw _ => []
    end in
  ids {| maxZoom := 14; tolerance := 3%float; extent := 4096%float;
         lineMetrics := false; promoteId := Some "name"; generateId := false |}
  = [Js.Prim (Js.Num 9)] /\
  ids {| maxZoom := 14; tolerance := 3%float; extent := 4096%float;
         lineMetrics := false; promoteId := None; generateId := true |}
  = [Js.Prim (Js.Num 0)].
Proof. split; reflexivity. Qed.

(** C1, amended: whenever the conversion of a feature returns, every
    proto-feature of the feature carries the id decided in this order,
    first match winning: what [properties[promoteId]] reads, when
    [promoteId] is given (a non-empty name), whether or not the feature
    has an explicit id (the property of the feature of that name; without
    one, the member of that name that the object inherits, as for
    "toString"; else undefined); else, when [generateId] is set, the
    feature's index; else the explicit [id] of the feature, which is
    undefined when the feature has none. The index is the 0-based position
    in the collection, and absent, hence 0, for a single feature. The
    conversion returns for a feature whose geometry has only kinds of the
    seven and can be read (properties present when [promoteId] is given,
    coordinates present on the named kinds). *)
Theorem id_resolution_order {M : MathLib} {simplifier : Simplifier}
    (options : ConvertFeatureOptions) (geojson : Feature.t) (index : option nat)
    (features : list ProtoFeature.t) :
  (forall out,
     convertFeature features geojson options index = Js.Return out ->
     exists new,
       out = features ++ new /\
       Forall (fun f => ProtoFeature.id f = expected_id options geojson index) new) /\
  (feature_unsupported geojson = false -> readable options geojson = true ->
   exists new,
     convertFeature features geojson options index = Js.Return (features ++ new) /\
     Forall (fun f => ProtoFeature.id f = expected_id options geojson index) new) /\
  convertFeatures (SingleFeature geojson) options
  = convertFeature [] geojson options None /\
  (forall before after,
     convertFeatures (FeatureCollection (before ++ geojson :: after)) options
     = (features <- convertFeatures (FeatureCollection before) options ;;
        features <- convertFeature features geojson options (Some (List.length before)) ;;
        convertFeatures_loop after (S (List.length before)) features options)).
Proof.
  split; [|split; [|split]].
  - intros out Hout. apply convertFeature_ids. exact Hout.
  - intros Hsup Hread.
    destruct (convertFeature_returns geojson options Hsup Hread features index) as [out Hout].
    destruct (convertFeature_ids _ _ _ _ _ Hout) as (new & -> & Hnew).
    exists new; split; assumption.
  - reflexivity.
  - intros before after. simpl. rewrite convertFeatures_loop_app. simpl. reflexivity.
Qed.

Lemma id_resolution_order_witness :
  let geojson :=
    {| Feature.id := Js.Prim (Js.Num 7);
       Feature.geometry :=
         Some (GeometryCollection [Point (0, 0)%float; LineString [(0, 0); (90, 0)]%float]);
       Feature.properties := Some [("name", Js.Num 9)] |} in
  let options :=
    {| maxZoom := 14; tolerance := 3%float; extent := 4096%float;
       lineMetrics := false; promoteId := Some "name"; generateId := true |} in
  exists new,
    convertFeature (M := Reference.engine) (simplifier := Reference.marking)
      [] geojson options (Some 2%nat)
    = Js.Return new /\
    Forall (fun f => ProtoFeature.id f = Js.Prim (Js.Num 9)) new.
Proof.
  intros geojson options.
  exact (proj1 (proj2 (id_resolution_order (M := Reference.engine)
                         (simplifier := Reference.marking) options geojson (Some 2%nat) []))
               eq_refl eq_refl).
Defined.

(** ** The squared tolerance *)

Lemma shl_one_is_power (z : Z) :
  (0 <= z <= 30)%Z -> Js.of_int32 (Js.shl 1 z) = Z.ldexp 1 z.
Proof.
  intros Hz.
  rewrite <- (Z2Nat.id z) by lia.
  assert (Hn : (Z.to_nat z <= 30)%nat) by lia.
  revert Hn. generalize (Z.to_nat z) as n. intros n Hn.
  do 31 (destruct n as [|n]; [vm_compute; reflexivity|]).
  lia.
Qed.

Section SignFacts.

Lemma binary_round_aux_opp (sx : bool) (mx ex : Z) (lx : location) :
  binary_round_aux prec emax (negb sx) mx ex lx
  = SFopp (binary_round_aux prec emax sx mx ex lx).
Proof.
  unfold binary_round_aux.
  destruct (shr_fexp prec emax mx ex lx) as [mrs' e'].
  destruct (shr_fexp prec emax _ e' loc_Exact) as [mrs'' e''].
  destruct (shr_m mrs''); simpl; try reflexivity.
  destruct (_ <=? _)%Z; reflexivity.
Qed.

Lemma SFmul_opp_l (x y : spec_float) :
  SFmul prec emax (SFopp x) y = SFopp (SFmul prec emax x y).
Proof.
  destruct x as [sx|sx| |sx mx ex], y as [sy|sy| |sy my ey]; simpl;
    rewrite <- ?negb_xorb_l; try reflexivity.
  apply binary_round_aux_opp.
Qed.

Lemma SFmul_opp_r (x y : spec_float) :
  SFmul prec emax x (SFopp y) = SFopp (SFmul prec emax x y).
Proof.
  destruct x as [sx|sx| |sx mx ex], y as [sy|sy| |sy my ey]; simpl;
    rewrite <- ?negb_xorb_r; try reflexivity.
  apply binary_round_aux_opp.
Qed.

Lemma SFdiv_opp_r (x y : spec_float) :
  SFdiv prec emax x (SFopp y) = SFopp (SFdiv prec emax x y).
Proof.
  destruct x as [sx|sx| |sx mx ex], y as [sy|sy| |sy my ey]; simpl;
    rewrite <- ?negb_xorb_r; try reflexivity.
  destruct (SFdiv_core_binary prec emax (Z.pos mx) ex (Z.pos my) ey) as [[mz ez] lz].
  apply binary_round_aux_opp.
Qed.

Lemma SFopp_involutive (x : spec_float) : SFopp (SFopp x) = x.
Proof. destruct x; simpl; rewrite ?negb_involutive; reflexivity. Qed.

Local Open Scope float_scope.

Lemma mul_opp_l (x y : float) : (- x) * y = - (x * y).
Proof.
  apply Prim2SF_inj. rewrite mul_spec, !opp_spec, mul_spec. apply SFmul_opp_l.
Qed.

Lemma div_opp_r (x y : float) : x / (- y) = - (x / y).
Proof.
  apply Prim2SF_inj. rewrite div_spec, !opp_spec, div_spec. apply SFdiv_opp_r.
Qed.

Lemma mul_opp_opp (x : float) : (- x) * (- x) = x * x.
Proof.
  apply Prim2SF_inj. rewrite !mul_spec, !opp_spec. unfold SF64mul.
  rewrite SFmul_opp_l, SFmul_opp_r. apply SFopp_involutive.
Qed.

(** At 31 the shift gives the 32-bit integer -2^31. *)
Lemma shl_one_31 : Js.of_int32 (Js.shl 1 31) = - Z.ldexp 1 31.
Proof. vm_compute. reflexivity. Qed.

(** The engine of the examples squares. *)
Lemma reference_even_square : even_square Reference.engine.
Proof.
  intros x. change (Math_pow (- x) 2) with ((- x) * (- x)).
  change (Math_pow x 2) with (x * x). apply mul_opp_opp.
Qed.

End SignFacts.

(** C2, the claim as given fails: the shift count of [1 << maxZoom] is
    taken modulo 32, so at [maxZoom] = 32 the scale is 1 and not 2^32.
    With tolerance 3 and extent 4096 the code squares 3/4096 where the
    formula squares 3/(2^32 * 4096). *)
Lemma shift_count_wraps_at_32 :
  let options :=
    {| maxZoom := 32; tolerance := 3%float; extent := 4096%float;
       lineMetrics := false; promoteId := None; generateId := false |} in
  Js.shl 1 32 = 1%Z /\
  sqTolerance (M := Reference.engine) options = 0x1.2p-21%float /\
  tolerance_squared (M := Reference.engine) 3 32 4096 = 0x1.2p-85%float /\
  (sqTolerance (M := Reference.engine) options
   =? tolerance_squared (M := Reference.engine) 3 32 4096)%float = false.
Proof. vm_compute. repeat split. Qed.

(** C2, amended: for [maxZoom] from 0 to 31, and any tolerance and extent,
    the squared tolerance that [convertFeature] computes equals
    (tolerance / ((2^maxZoom) * extent))^2 with the exact power of two, and
    this is the value handed to [convertLine] and [convertLines] for every
    line and ring: of a LineString, of a MultiLineString whether exploded
    or not, of a Polygon and of a MultiPolygon. At 31 the scale [1 << 31]
    is -2^31 and the quotient has the opposite sign, which the square
    removes: there the engine's [Math.pow(x, 2)] is asked to give the same
    for [x] and [-x]. *)
Theorem squared_tolerance {M : MathLib} {simplifier : Simplifier}
    (options : ConvertFeatureOptions) :
  (0 <= maxZoom options <= 31)%Z ->
  (maxZoom options = 31%Z -> even_square M) ->
  let sq := tolerance_squared (tolerance options) (maxZoom options) (extent options) in
  sqTolerance options = sq /\
  (forall features id0 coords properties index,
     convertGeometry features id0 (LineString coords) properties options index
     = (id <- resolveId options id0 properties index ;;
        Js.Return (features
                   ++ [createFeature id "LineString"
                         (Flat (convertLine coords empty sq false)) properties]))) /\
  (forall features id0 coords properties index,
     convertGeometry features id0 (MultiLineString coords) properties options index
     = (id <- resolveId options id0 properties index ;;
        if lineMetrics options then
          Js.Return
            (fold_left
               (fun features line =>
                  features ++ [createFeature id "LineString"
                                 (Flat (convertLine line empty sq false)) properties])
               coords features)
        else
          Js.Return (features
                     ++ [createFeature id "MultiLineString"
                           (Rings (convertLines coords [] sq false)) properties]))) /\
  (forall features id0 coords properties index,
     convertGeometry features id0 (Polygon coords) properties options index
     = (id <- resolveId options id0 properties index ;;
        Js.Return (features
                   ++ [createFeature id "Polygon"
                         (Rings (convertLines coords [] sq true)) properties]))) /\
  (forall features id0 coords properties index,
     convertGeometry features id0 (MultiPolygon coords) properties options index
     = (id <- resolveId options id0 properties index ;;
        Js.Return (features
                   ++ [createFeature id "MultiPolygon"
                         (Polygons
                            (fold_left
                               (fun geometry polygon =>
                                  geometry ++ [convertLines polygon [] sq true])
                               coords []))
                         properties]))).
Proof.
  intros Hz Heven sq.
  assert (Hsq : sqTolerance options = sq).
  { unfold sq, sqTolerance, tolerance_squared.
    destruct (Z.eq_dec (maxZoom options) 31) as [H31|Hne].
    - rewrite H31, shl_one_31, mul_opp_l, div_opp_r. apply (Heven H31).
    - rewrite shl_one_is_power by lia. reflexivity. }
  split; [exact Hsq|]. rewrite <- Hsq. repeat split.
Qed.

Lemma squared_tolerance_witness :
  sqTolerance (M := Reference.engine)
    {| maxZoom := 31; tolerance := 3%float; extent := 4096%float;
       lineMetrics := false; promoteId := None; generateId := false |}
  = tolerance_squared (M := Reference.engine) 3 31 4096.
Proof.
  exact (proj1 (squared_tolerance (M := Reference.engine) (simplifier := Reference.marking)
                  {| maxZoom := 31; tolerance := 3%float; extent := 4096%float;
                     lineMetrics := false; promoteId := None; generateId := false |}
                  ltac:(simpl; lia) (fun _ => reference_even_square))).
Defined.

(** ** Numbers as specified floats *)

Section FloatFacts.

Lemma is_nan_spec (x : float) :
  is_nan x = match Prim2SF x with S754_nan => true | _ => false end.
Proof.
  unfold Prim2SF. destruct (is_nan x); [reflexivity|].
  destruct (is_zero x); [reflexivity|].
  destruct (is_infinity x); [reflexivity|].
  destruct (Z.frexp x) as [r e].
  destruct (shr_fexp prec emax _ _ _) as [shr e'].
  destruct (shr_m shr); reflexivity.
Qed.

Lemma abs_not_negative (x : float) : (Math_abs x <? 0)%float = false.
Proof.
  unfold Math_abs. rewrite ltb_spec, abs_spec.
  change (Prim2SF 0) with (S754_zero false).
  destruct (Prim2SF x) as [s|s| |s m e]; reflexivity.
Qed.

Lemma abs_nonnegative (x : float) :
  is_nan x = false -> (0 <=? Math_abs x)%float = true.
Proof.
  unfold Math_abs. rewrite is_nan_spec, leb_spec, abs_spec.
  change (Prim2SF 0) with (S754_zero false).
  destruct (Prim2SF x) as [s|s| |s m e]; try reflexivity. discriminate.
Qed.

End FloatFacts.

(** C8, the claim as given fails: [Math.abs] of NaN is NaN, which is not
    at least 0. A ring with the finite latitude 2^1023 projects to NaN
    (the latitude in radians overflows and the sine of an infinity is
    NaN), so its [size] is NaN. *)
Lemma metric_can_be_nan :
  let line :=
    convertLine (M := Reference.engine) (simplifier := Reference.marking)
      [(0, 0x1p+1023); (0, 0x1p+1023)]%float empty 0%float true in
  size line = Some nan /\ (0 <=? nan)%float = false.
Proof. vm_compute. split; reflexivity. Qed.

(** C8, amended: the [size] stored on a flattened ring or line is the
    absolute value of the running sum over its projected vertices, the
    first vertex adding nothing and each later one adding the signed
    shoelace term (x0*y - x*y0)/2 for a ring, the Euclidean distance to
    the previous vertex for a line; [start] is 0 and [end] equals [size].
    [size] is never negative, and it is at least 0 whenever the running sum
    is a number (not NaN). The square ring
    [[0,0],[0,10],[10,10],[10,0],[0,0]], taken as projected vertices, has
    the running sum -100 and the size 100. *)
Theorem line_metric {M : MathLib} {simplifier : Simplifier}
    (ring : list Position) (tolerance : float) (isPolygon : bool) :
  let line := convertLine ring empty tolerance isPolygon in
  let sum := running_sum isPolygon (map project ring) in
  size line = Some (Math_abs sum) /\
  start line = Some 0%float /\
  end_ line = size line /\
  (Math_abs sum <? 0)%float = false /\
  (is_nan sum = false -> (0 <=? Math_abs sum)%float = true) /\
  (forall x0 y0 x y : float,
     measure true x0 y0 x y = ((x0 * y - x * y0) / 2)%float /\
     measure false x0 y0 x y
     = Math_sqrt (Math_pow (x - x0) 2 + Math_pow (y - y0) 2)%float) /\
  (forall (x0 y0 x1 y1 : float) (points : list (float * float)),
     running_sum isPolygon [] = 0%float /\
     running_sum isPolygon [(x0, y0)] = 0%float /\
     running_sum isPolygon ((x0, y0) :: (x1, y1) :: points)
     = accumulate isPolygon x1 y1 points (0 + measure isPolygon x0 y0 x1 y1)%float) /\
  running_sum true [(0, 0); (0, 10); (10, 10); (10, 0); (0, 0)]%float = (-100)%float /\
  Math_abs (running_sum true [(0, 0); (0, 10); (10, 10); (10, 0); (0, 0)]%float) = 100%float.
Proof.
  intros line sum. unfold line. rewrite convertLine_unfold. simpl.
  split; [reflexivity|]. split; [reflexivity|]. split; [reflexivity|].
  split; [apply abs_not_negative|]. split; [apply abs_nonnegative|].
  split; [intros; split; reflexivity|].
  split; [intros; repeat split; reflexivity|].
  split; vm_compute; reflexivity.
Qed.

Lemma line_metric_witness :
  let line :=
    convertLine (M := Reference.engine) (simplifier := Reference.marking)
      [(0, 0); (90, 0); (180, 0)]%float empty 0%float false in
  size line = Some 0.5%float /\ start line = Some 0%float /\ end_ line = Some 0.5%float /\
  (0 <=? 0.5)%float = true.
Proof.
  destruct (line_metric (M := Reference.engine) (simplifier := Reference.marking)
              [(0, 0); (90, 0); (180, 0)]%float 0%float false)
    as (Hsize & Hstart & Hend & _ & Hpos & _).
  split; [exact Hsize|]. split; [exact Hstart|]. split; [exact Hend|].
  exact (Hpos eq_refl).
Defined.

(** ** Rounding to binary64

    [SpecFloat] rounds an integer mantissa [m] at an exponent [e] by two
    right shifts around a round-to-nearest-even step. The lemmas of this
    part bound the outcome: its sign, that it is finite when
    [digits m + e <= 1023], and that it is not zero when [0 < m] and
    [-1074 <= e]. *)

Section Rounding.
Local Open Scope Z_scope.

Lemma digits2_pos_size (p : positive) : digits2_pos p = Pos.size p.
Proof. induction p as [p IH|p IH|]; simpl; congruence. Qed.

(** [Zdigits2 m] is the number of binary digits of [m]. *)
Lemma Zdigits2_bounds (m : Z) :
  0 < m -> 2 ^ (Zdigits2 m - 1) <= m < 2 ^ Zdigits2 m.
Proof.
  destruct m as [|p|p]; try lia. intros _. simpl Zdigits2.
  rewrite digits2_pos_size.
  pose proof (Pos.size_gt p) as Hgt. pose proof (Pos.size_le p) as Hle.
  apply Pos2Z.pos_lt_pos in Hgt. apply Pos2Z.pos_le_pos in Hle.
  rewrite Pos2Z.inj_pow in Hgt, Hle.
  replace (Z.pos (Pos.size p)) with (Z.succ (Z.pos (Pos.size p) - 1)) in Hle at 1 by lia.
  rewrite Z.pow_succ_r in Hle by lia.
  change (Z.pos p~0) with (2 * Z.pos p) in Hle. lia.
Qed.

Lemma Zdigits2_nonneg (m : Z) : 0 <= Zdigits2 m.
Proof. destruct m; simpl; lia. Qed.

Lemma Zdigits2_unique (m d : Z) :
  2 ^ (d - 1) <= m < 2 ^ d -> 0 < m -> Zdigits2 m = d.
Proof.
  intros [Hlo Hhi] Hm.
  destruct (Zdigits2_bounds m Hm) as [Hlo' Hhi'].
  pose proof (Zdigits2_nonneg m) as Hd.
  assert (0 < d).
  { destruct (Z.lt_trichotomy d 0) as [?|[?|?]]; try assumption.
    - rewrite Z.pow_neg_r in Hhi by lia. lia.
    - subst d. simpl in Hhi. lia. }
  assert (Zdigits2 m - 1 < d) by (apply (Z.pow_lt_mono_r_iff 2); lia).
  assert (d - 1 < Zdigits2 m) by (apply (Z.pow_lt_mono_r_iff 2); lia).
  lia.
Qed.

Lemma Zdigits2_le (m k : Z) : 0 <= k -> 0 <= m < 2 ^ k -> Zdigits2 m <= k.
Proof.
  intros Hk [Hm Hlt].
  destruct (Z.eq_dec m 0) as [->|Hne]; [simpl; lia|].
  destruct (Zdigits2_bounds m ltac:(lia)) as [Hlo _].
  pose proof (Zdigits2_nonneg m).
  assert (Zdigits2 m - 1 < k); [|lia].
  apply (Z.pow_lt_mono_r_iff 2); lia.
Qed.

(** One step of the right shift halves the mantissa. *)
Lemma shr_1_half (r : shr_record) : 0 <= shr_m r -> shr_m (shr_1 r) = shr_m r / 2.
Proof.
  destruct r as [m b s]; simpl. intros Hm.
  destruct m as [|[p|p|]|p]; simpl; try lia.
  - reflexivity.
  - rewrite Pos2Z.inj_xI. apply Z.div_unique with 1; lia.
  - rewrite Pos2Z.inj_xO. apply Z.div_unique with 0; lia.
  - reflexivity.
Qed.

Lemma pow2_xO (p : positive) : 2 ^ Z.pos p~0 = 2 ^ Z.pos p * 2 ^ Z.pos p.
Proof. rewrite <- Z.pow_add_r by lia. f_equal. lia. Qed.

Lemma pow2_xI (p : positive) : 2 ^ Z.pos p~1 = 2 * (2 ^ Z.pos p * 2 ^ Z.pos p).
Proof.
  rewrite <- Z.pow_add_r, <- Z.pow_succ_r by lia. f_equal. lia.
Qed.

(** [p] steps divide it by [2^p]. *)
Lemma iter_pos_shr (p : positive) :
  forall r, 0 <= shr_m r -> shr_m (iter_pos shr_1 p r) = shr_m r / 2 ^ Z.pos p.
Proof.
  induction p as [p IH|p IH|]; intros r Hr; simpl iter_pos.
  - assert (H1 : 0 <= shr_m (shr_1 r)) by (rewrite shr_1_half by lia; apply Z.div_pos; lia).
    assert (H2 : 0 <= shr_m (iter_pos shr_1 p (shr_1 r)))
      by (rewrite IH by lia; apply Z.div_pos; lia).
    rewrite IH, IH, shr_1_half by lia.
    rewrite !Z.div_div by lia. f_equal.
    rewrite pow2_xI. ring.
  - assert (H2 : 0 <= shr_m (iter_pos shr_1 p r))
      by (rewrite IH by lia; apply Z.div_pos; lia).
    rewrite IH, IH by lia.
    rewrite !Z.div_div by lia. f_equal.
    rewrite pow2_xO. ring.
  - apply shr_1_half; assumption.
Qed.

Lemma shr_spec (r : shr_record) (e n : Z) :
  0 <= shr_m r ->
  shr_m (fst (shr r e n)) = shr_m r / 2 ^ Z.max 0 n /\
  snd (shr r e n) = e + Z.max 0 n.
Proof.
  intros Hr. destruct n as [|p|p]; simpl fst; simpl snd.
  - change (Z.max 0 0) with 0. rewrite Z.div_1_r. lia.
  - rewrite iter_pos_shr by assumption. rewrite Z.max_r by lia. lia.
  - rewrite Z.max_l by lia. rewrite Z.div_1_r. lia.
Qed.

Lemma shr_record_of_loc_m (m : Z) (l : location) : shr_m (shr_record_of_loc m l) = m.
Proof. destruct l as [|[| |]]; reflexivity. Qed.

End Rounding.

Section RoundAux.
Local Open Scope Z_scope.

Lemma fexp64 (e : Z) : fexp prec emax e = Z.max (e - 53) (-1074).
Proof. reflexivity. Qed.

Lemma shr_fexp_spec (m e : Z) (l : location) :
  0 <= m ->
  let n := Z.max 0 (fexp prec emax (Zdigits2 m + e) - e) in
  shr_m (fst (shr_fexp prec emax m e l)) = m / 2 ^ n /\
  snd (shr_fexp prec emax m e l) = e + n.
Proof.
  intros Hm n. unfold shr_fexp.
  pose proof (shr_spec (shr_record_of_loc m l) e
                (fexp prec emax (Zdigits2 m + e) - e)) as H.
  rewrite shr_record_of_loc_m in H. apply H. assumption.
Qed.

Lemma round_nearest_even_bounds (m : Z) (l : location) :
  m <= round_nearest_even m l <= m + 1.
Proof.
  destruct l as [|[| |]]; simpl; try lia. destruct (Z.even m); lia.
Qed.

(** The two shifts and the rounding of [binary_round_aux], spelled out. *)
Lemma binary_round_aux_spec (sx : bool) (mx ex : Z) (lx : location) :
  0 <= mx ->
  exists m1 e1 m2 m3 e3,
    e1 = ex + Z.max 0 (fexp prec emax (Zdigits2 mx + ex) - ex) /\
    m1 = mx / 2 ^ (e1 - ex) /\
    m1 <= m2 <= m1 + 1 /\
    e3 = e1 + Z.max 0 (fexp prec emax (Zdigits2 m2 + e1) - e1) /\
    m3 = m2 / 2 ^ (e3 - e1) /\
    binary_round_aux prec emax sx mx ex lx
    = match m3 with
      | Z0 => S754_zero sx
      | Zpos m => if e3 <=? emax - prec then S754_finite sx m e3 else S754_infinity sx
      | Zneg _ => S754_nan
      end.
Proof.
  intros Hmx. unfold binary_round_aux.
  destruct (shr_fexp_spec mx ex lx Hmx) as [Hm1 He1].
  destruct (shr_fexp prec emax mx ex lx) as [mrs' e'] eqn:Hshr1. simpl in Hm1, He1.
  set (m2 := round_nearest_even (shr_m mrs') (loc_of_shr_record mrs')).
  pose proof (round_nearest_even_bounds (shr_m mrs') (loc_of_shr_record mrs')) as Hm2.
  fold m2 in Hm2.
  assert (H1 : 0 <= shr_m mrs') by (rewrite Hm1; apply Z.div_pos; lia).
  destruct (shr_fexp_spec m2 e' loc_Exact ltac:(lia)) as [Hm3 He3].
  destruct (shr_fexp prec emax m2 e' loc_Exact) as [mrs'' e''] eqn:Hshr2.
  simpl in Hm3, He3.
  exists (shr_m mrs'), e', m2, (shr_m mrs''), e''.
  repeat split; try lia.
  - rewrite Hm1. f_equal. f_equal. lia.
  - rewrite Hm3. f_equal. f_equal. lia.
Qed.

Lemma pow2_pos (k : Z) : 0 <= k -> 0 < 2 ^ k.
Proof. intros; apply Z.pow_pos_nonneg; lia. Qed.

(** A mantissa of [d] digits keeps at most [d - n] digits after a shift by [n]. *)
Lemma shift_upper (m d n : Z) :
  0 <= m < 2 ^ d -> 0 <= d -> 0 <= n -> m / 2 ^ n < 2 ^ Z.max 0 (d - n).
Proof.
  intros [Hm Hlt] Hd Hn.
  pose proof (pow2_pos n Hn).
  destruct (Z.le_gt_cases n d) as [Hle|Hgt].
  - rewrite Z.max_r by lia.
    apply Z.div_lt_upper_bound; [assumption|].
    rewrite <- Z.pow_add_r by lia. replace (n + (d - n)) with d by lia. assumption.
  - rewrite Z.max_l by lia. rewrite Z.div_small; [simpl; lia|].
    split; [assumption|]. apply Z.lt_le_trans with (2 ^ d); [assumption|].
    apply Z.pow_le_mono_r; lia.
Qed.

Lemma Zdigits2_upper (m : Z) : 0 <= m -> m < 2 ^ Zdigits2 m.
Proof.
  intros Hm. destruct (Z.eq_dec m 0) as [->|Hne]; [simpl; lia|].
  apply Zdigits2_bounds; lia.
Qed.

(** From an exponent not below -1074 the shift to the format's exponent
    never loses all the digits. *)
Lemma shift_keeps_positive (m e : Z) :
  0 < m -> -1074 <= e ->
  0 < m / 2 ^ Z.max 0 (fexp prec emax (Zdigits2 m + e) - e).
Proof.
  intros Hm He. rewrite fexp64.
  destruct (Zdigits2_bounds m Hm) as [Hlo _].
  pose proof (Zdigits2_nonneg m) as Hd.
  destruct (Z.le_gt_cases (Z.max (Zdigits2 m + e - 53) (-1074) - e) 0) as [Hn|Hn].
  - rewrite Z.max_l by lia. simpl. rewrite Z.div_1_r. assumption.
  - rewrite Z.max_r by lia.
    assert (Hmax : Z.max (Zdigits2 m + e - 53) (-1074) = Zdigits2 m + e - 53) by lia.
    rewrite Hmax in *.
    replace (Zdigits2 m + e - 53 - e) with (Zdigits2 m - 53) in * by lia.
    apply Z.lt_le_trans with 1; [lia|].
    apply Z.div_le_lower_bound; [apply pow2_pos; lia|].
    rewrite Z.mul_1_r. apply Z.le_trans with (2 ^ (Zdigits2 m - 1)); [|assumption].
    apply Z.pow_le_mono_r; lia.
Qed.

(** Rounding a mantissa that is not negative gives a number of the given sign. *)
Lemma binary_round_aux_signed (sx : bool) (mx ex : Z) (lx : location) :
  0 <= mx -> SFsigned sx (binary_round_aux prec emax sx mx ex lx).
Proof.
  intros Hmx.
  destruct (binary_round_aux_spec sx mx ex lx Hmx)
    as (m1 & e1 & m2 & m3 & e3 & He1 & Hm1 & Hm2 & He3 & Hm3 & ->).
  assert (0 <= m1) by (rewrite Hm1; apply Z.div_pos; [lia|apply pow2_pos; lia]).
  assert (0 <= m3) by (rewrite Hm3; apply Z.div_pos; [lia|apply pow2_pos; lia]).
  destruct m3 as [|p|p]; simpl; try lia; try reflexivity.
  destruct (_ <=? _); simpl; reflexivity.
Qed.

(** Below the overflow threshold, and from an exponent not below -1074,
    rounding a positive mantissa gives a finite number other than zero. *)
Lemma binary_round_aux_finite (sx : bool) (mx ex : Z) (lx : location) :
  0 < mx -> -1074 <= ex <= 970 -> Zdigits2 mx + ex <= 1023 ->
  SFfinite_nonzero sx (binary_round_aux prec emax sx mx ex lx).
Proof.
  intros Hmx Hex Hd.
  destruct (binary_round_aux_spec sx mx ex lx ltac:(lia))
    as (m1 & e1 & m2 & m3 & e3 & He1 & Hm1 & Hm2 & He3 & Hm3 & ->).
  pose proof (Zdigits2_nonneg mx) as Hdn.
  rewrite fexp64 in He1.
  assert (Hm1pos : 0 < m1).
  { rewrite Hm1, He1. replace (ex + _ - ex) with
      (Z.max 0 (fexp prec emax (Zdigits2 mx + ex) - ex)) by (rewrite fexp64; lia).
    apply shift_keeps_positive; lia. }
  assert (Hm3pos : 0 < m3).
  { rewrite Hm3, He3. replace (e1 + _ - e1) with
      (Z.max 0 (fexp prec emax (Zdigits2 m2 + e1) - e1)) by lia.
    apply shift_keeps_positive; lia. }
  assert (Hm1up : m1 < 2 ^ Z.max 0 (Zdigits2 mx - (e1 - ex))).
  { rewrite Hm1. apply shift_upper; try lia. split; [lia|]. apply Zdigits2_upper; lia. }
  assert (Hd2 : Zdigits2 m2 <= Z.max 0 (Zdigits2 mx - (e1 - ex)) + 1).
  { apply Zdigits2_le; [lia|]. split; [lia|].
    rewrite Z.pow_add_r by lia. change (2 ^ 1) with 2. lia. }
  rewrite fexp64 in He3.
  assert (He3' : e3 <= 971) by lia.
  destruct m3 as [|p|p]; try lia.
  replace (e3 <=? emax - prec) with true; [reflexivity|].
  symmetry. apply Z.leb_le. change (emax - prec) with 971. assumption.
Qed.

End RoundAux.

Section Operations.
Local Open Scope Z_scope.

(** [shl_align] lowers the exponent to the smaller one and scales the mantissa. *)
Lemma shl_align_spec (mx : positive) (ex ex' : Z) :
  snd (shl_align mx ex ex') = Z.min ex ex' /\
  Z.pos (fst (shl_align mx ex ex')) = Z.pos mx * 2 ^ (ex - Z.min ex ex').
Proof.
  unfold shl_align. destruct (ex' - ex) as [|d|d] eqn:Hd; simpl fst; simpl snd.
  - rewrite Z.min_l by lia. rewrite Z.sub_diag. simpl. lia.
  - rewrite Z.min_l by lia. rewrite Z.sub_diag. simpl. lia.
  - rewrite Z.min_r by lia.
    replace (ex - ex') with (Z.pos d) by lia.
    change (Pos.iter xO mx d) with (shift_pos d mx).
    rewrite shift_pos_correct. rewrite Z.pow_pos_fold. lia.
Qed.

Lemma Zdigits2_shift (m k : Z) :
  0 < m -> 0 <= k -> Zdigits2 (m * 2 ^ k) = Zdigits2 m + k.
Proof.
  intros Hm Hk.
  destruct (Zdigits2_bounds m Hm) as [Hlo Hhi].
  pose proof (Zdigits2_nonneg m) as Hd.
  pose proof (pow2_pos k Hk) as Hp.
  assert (0 < Zdigits2 m).
  { destruct (Z.eq_dec (Zdigits2 m) 0) as [E|]; [|lia]. rewrite E in Hhi. simpl in Hhi. lia. }
  apply Zdigits2_unique; [|nia].
  replace (Zdigits2 m + k - 1) with (Zdigits2 m - 1 + k) by lia.
  rewrite !Z.pow_add_r by lia. nia.
Qed.

Lemma binary_round_spec (sx : bool) (mx : positive) (ex : Z) :
  exists mz ez,
    ez = Z.min ex (fexp prec emax (Zdigits2 (Z.pos mx) + ex)) /\
    Zdigits2 (Z.pos mz) + ez = Zdigits2 (Z.pos mx) + ex /\
    binary_round prec emax sx mx ex = binary_round_aux prec emax sx (Z.pos mz) ez loc_Exact.
Proof.
  unfold binary_round.
  destruct (shl_align_spec mx ex (fexp prec emax (Z.pos (digits2_pos mx) + ex))) as [He Hm].
  destruct (shl_align mx ex _) as [mz ez]. cbn [fst snd] in He, Hm.
  exists mz, ez. split; [exact He|]. split; [|reflexivity].
  change (Z.pos (digits2_pos mx)) with (Zdigits2 (Z.pos mx)) in He, Hm.
  rewrite Hm, Zdigits2_shift by lia. rewrite He. lia.
Qed.

Lemma binary_round_signed (sx : bool) (mx : positive) (ex : Z) :
  SFsigned sx (binary_round prec emax sx mx ex).
Proof.
  destruct (binary_round_spec sx mx ex) as (mz & ez & _ & _ & ->).
  apply binary_round_aux_signed; lia.
Qed.

Lemma binary_round_finite (sx : bool) (mx : positive) (ex : Z) :
  -1074 <= ex <= 970 -> Zdigits2 (Z.pos mx) + ex <= 1023 ->
  SFfinite_nonzero sx (binary_round prec emax sx mx ex).
Proof.
  intros Hex Hd.
  destruct (binary_round_spec sx mx ex) as (mz & ez & He & Hdz & ->).
  rewrite fexp64 in He.
  apply binary_round_aux_finite; lia.
Qed.

Lemma binary_normalize_signed (m e : Z) :
  match binary_normalize prec emax m e false with
  | S754_nan => False
  | _ => True
  end.
Proof.
  destruct m as [|p|p]; simpl; [exact I| |].
  - pose proof (binary_round_signed false p e) as H.
    destruct (binary_round prec emax false p e); simpl in H; auto.
  - pose proof (binary_round_signed true p e) as H.
    destruct (binary_round prec emax true p e); simpl in H; auto.
Qed.

(** [1 + s] and [1 - s] for a finite [s] of magnitude at most 1, written
    [mx * 2^ex] with [mx <= 2^(-ex)]: aligned at [ex], the mantissa of 1 is
    [2^(-ex)]. *)
Lemma one_aligned (ex : Z) :
  ex <= -52 ->
  Z.pos (fst (shl_align 4503599627370496 (-52) (Z.min (-52) ex))) = 2 ^ (- ex).
Proof.
  intros Hex.
  destruct (shl_align_spec 4503599627370496 (-52) (Z.min (-52) ex)) as [_ ->].
  change (Z.pos 4503599627370496) with (2 ^ 52).
  rewrite <- Z.pow_add_r by lia. f_equal. lia.
Qed.

Lemma other_aligned (mx : positive) (ex : Z) :
  ex <= -52 -> fst (shl_align mx ex (Z.min (-52) ex)) = mx.
Proof.
  intros Hex. unfold shl_align. rewrite Z.min_r by lia. rewrite Z.sub_diag. reflexivity.
Qed.

(** A sum of at most twice that mantissa is exact zero or rounds to a
    positive finite number. *)
Lemma normalize_small (m ex : Z) :
  -1074 <= ex <= -52 -> 0 <= m <= 2 ^ (1 - ex) ->
  binary_normalize prec emax m ex false = S754_zero false /\ m = 0 \/
  SFfinite_nonzero false (binary_normalize prec emax m ex false) /\ 0 < m.
Proof.
  intros Hex Hm. destruct m as [|p|p]; simpl; [left; split; reflexivity| |lia].
  right; split; [|lia]. apply binary_round_finite; [lia|].
  assert (Zdigits2 (Z.pos p) <= 2 - ex); [|lia].
  apply Zdigits2_le; [lia|]. split; [lia|].
  replace (2 - ex) with (1 + (1 - ex)) by lia.
  rewrite Z.pow_add_r by lia. change (2 ^ 1) with 2.
  pose proof (pow2_pos (1 - ex) ltac:(lia)). lia.
Qed.

(** [1 + s] is +0 or positive and finite, and +0 only for a negative [s]. *)
Lemma add_one_shape (sx : bool) (mx : positive) (ex : Z) :
  -1074 <= ex <= -52 -> Z.pos mx <= 2 ^ (- ex) ->
  let r := SFadd prec emax SFone (S754_finite sx mx ex) in
  zero_or_positive r /\ (r = S754_zero false -> sx = true).
Proof.
  intros Hex Hmx. unfold SFone, SFadd. cbv zeta.
  rewrite one_aligned, other_aligned by lia.
  assert (Hmin : Z.min (-52) ex = ex) by lia. rewrite Hmin.
  pose proof (pow2_pos (- ex) ltac:(lia)) as Hp.
  assert (Hdouble : 2 ^ (1 - ex) = 2 * 2 ^ (- ex)).
  { replace (1 - ex) with (1 + - ex) by lia. rewrite Z.pow_add_r by lia. reflexivity. }
  destruct sx; simpl cond_Zopp.
  - match goal with |- context [binary_normalize prec emax ?m ex false] =>
      destruct (normalize_small m ex Hex ltac:(lia)) as [[E _]|[H _]] end.
    + rewrite E. split; [left; reflexivity|reflexivity].
    + split; [right; exact H|].
      intros E; rewrite E in H; contradiction.
  - match goal with |- context [binary_normalize prec emax ?m ex false] =>
      destruct (normalize_small m ex Hex ltac:(lia)) as [[_ H]|[H _]] end.
    + lia.
    + split; [right; exact H|].
      intros E; rewrite E in H; contradiction.
Qed.

(** [1 - s] is +0 or positive and finite, and +0 only for a positive [s]. *)
Lemma sub_one_shape (sx : bool) (mx : positive) (ex : Z) :
  -1074 <= ex <= -52 -> Z.pos mx <= 2 ^ (- ex) ->
  let r := SFsub prec emax SFone (S754_finite sx mx ex) in
  zero_or_positive r /\ (r = S754_zero false -> sx = false).
Proof.
  intros Hex Hmx. unfold SFone, SFsub. cbv zeta.
  rewrite one_aligned, other_aligned by lia.
  assert (Hmin : Z.min (-52) ex = ex) by lia. rewrite Hmin.
  pose proof (pow2_pos (- ex) ltac:(lia)) as Hp.
  assert (Hdouble : 2 ^ (1 - ex) = 2 * 2 ^ (- ex)).
  { replace (1 - ex) with (1 + - ex) by lia. rewrite Z.pow_add_r by lia. reflexivity. }
  destruct sx; simpl cond_Zopp.
  - match goal with |- context [binary_normalize prec emax ?m ex false] =>
      destruct (normalize_small m ex Hex ltac:(lia)) as [[_ H]|[H _]] end.
    + lia.
    + split; [right; exact H|].
      intros E; rewrite E in H; contradiction.
  - match goal with |- context [binary_normalize prec emax ?m ex false] =>
      destruct (normalize_small m ex Hex ltac:(lia)) as [[E _]|[H _]] end.
    + rewrite E. split; [left; reflexivity|reflexivity].
    + split; [right; exact H|].
      intros E; rewrite E in H; contradiction.
Qed.

End Operations.

Section Quotient.
Local Open Scope Z_scope.

Lemma SFsigned_number (sx : bool) (x : spec_float) : SFsigned sx x -> SFnumber x.
Proof. destruct x; simpl; auto. Qed.

Lemma SFsigned_nonneg (x : spec_float) : SFsigned false x -> SFnonneg x.
Proof. destruct x as [s|s| |s m e]; simpl; intros H; try subst s; auto. Qed.

Lemma div_core_nonneg (m1 e1 m2 e2 : Z) :
  0 < m1 -> 0 < m2 ->
  0 <= fst (fst (SFdiv_core_binary prec emax m1 e1 m2 e2)).
Proof.
  intros H1 H2. unfold SFdiv_core_binary.
  set (s := _ - _ - _).
  set (m' := match s with Z.pos _ => Z.shiftl m1 s | 0 => m1 | Z.neg _ => 0 end).
  assert (Hm' : 0 <= m').
  { unfold m'. destruct s; try lia. apply Z.shiftl_nonneg; lia. }
  destruct (Z.div_eucl m' m2) as [q r] eqn:E. simpl.
  assert (Hq : q = m' / m2) by (unfold Z.div; rewrite E; reflexivity).
  rewrite Hq. apply Z.div_pos; lia.
Qed.

Lemma SFdiv_finite_signed (sx sy : bool) (mx my : positive) (ex ey : Z) :
  SFsigned (xorb sx sy)
    (SFdiv prec emax (S754_finite sx mx ex) (S754_finite sy my ey)).
Proof.
  unfold SFdiv.
  pose proof (div_core_nonneg (Z.pos mx) ex (Z.pos my) ey ltac:(lia) ltac:(lia)) as Hq.
  destruct (SFdiv_core_binary prec emax (Z.pos mx) ex (Z.pos my) ey) as [[mz ez] lz].
  simpl in Hq. apply binary_round_aux_signed; assumption.
Qed.

(** The quotient of two such numbers, not both zero, is a zero, positive
    or +Infinity: never NaN and never negative. *)
Lemma SFdiv_nonneg (x y : spec_float) :
  zero_or_positive x -> zero_or_positive y ->
  ~ (x = S754_zero false /\ y = S754_zero false) ->
  SFnonneg (SFdiv prec emax x y).
Proof.
  intros [->|Hx] [->|Hy] Hboth.
  - exfalso; apply Hboth; split; reflexivity.
  - destruct y as [s|s| |s m e]; simpl in Hy; try contradiction. exact I.
  - destruct x as [s|s| |s m e]; simpl in Hx; try contradiction. subst s. exact I.
  - destruct x as [s|s| |s m e]; simpl in Hx; try contradiction.
    destruct y as [s'|s'| |s' m' e']; simpl in Hy; try contradiction.
    subst s s'. apply SFsigned_nonneg. apply (SFdiv_finite_signed false false).
Qed.

(** A finite factor, a finite divisor and a finite minuend keep a number a number. *)
Lemma SFmul_number (sx : bool) (mx : positive) (ex : Z) (y : spec_float) :
  SFnumber y -> SFnumber (SFmul prec emax (S754_finite sx mx ex) y).
Proof.
  destruct y as [s|s| |s m e]; simpl; auto. intros _.
  eapply SFsigned_number. apply binary_round_aux_signed. lia.
Qed.

Lemma SFdiv_number (x : spec_float) (sy : bool) (my : positive) (ey : Z) :
  SFnumber x -> SFnumber (SFdiv prec emax x (S754_finite sy my ey)).
Proof.
  destruct x as [s|s| |s m e]; try (simpl; auto; fail). intros _.
  eapply SFsigned_number. apply SFdiv_finite_signed.
Qed.

Lemma SFsub_number (sx : bool) (mx : positive) (ex : Z) (y : spec_float) :
  SFnumber y -> SFnumber (SFsub prec emax (S754_finite sx mx ex) y).
Proof.
  destruct y as [s|s| |s m e]; try (simpl; auto; fail). intros _.
  unfold SFsub.
  match goal with |- SFnumber (binary_normalize prec emax ?z ?e false) =>
    pose proof (binary_normalize_signed z e) as H;
    destruct (binary_normalize prec emax z e false); simpl; auto
  end.
Qed.

End Quotient.

Section PrimitiveFacts.
Local Open Scope float_scope.

Lemma SFcompare_refl (x : spec_float) :
  SFcompare x x = match x with S754_nan => None | _ => Some Eq end.
Proof.
  destruct x as [s|s| |s m e]; simpl; try reflexivity.
  - destruct s; reflexivity.
  - rewrite Z.compare_refl, Pos.compare_cont_refl. destruct s; reflexivity.
Qed.

Lemma is_zero_spec (x : float) :
  is_zero x = match Prim2SF x with S754_zero _ => true | _ => false end.
Proof.
  unfold is_zero. rewrite eqb_spec. change (Prim2SF zero) with (S754_zero false).
  destruct (Prim2SF x) as [s|s| |s m e]; try reflexivity; destruct s; reflexivity.
Qed.

Lemma is_infinity_spec (x : float) :
  is_infinity x = match Prim2SF x with S754_infinity _ => true | _ => false end.
Proof.
  unfold is_infinity. rewrite eqb_spec, abs_spec.
  change (Prim2SF infinity) with (S754_infinity false).
  destruct (Prim2SF x) as [s|s| |s m e]; reflexivity.
Qed.

Lemma is_finite_spec (x : float) :
  is_finite x
  = match Prim2SF x with S754_zero _ | S754_finite _ _ _ => true | _ => false end.
Proof.
  unfold is_finite. rewrite is_nan_spec, is_infinity_spec.
  destruct (Prim2SF x); reflexivity.
Qed.

Lemma eqb_infinity_spec (x : float) :
  (x =? infinity) = match Prim2SF x with S754_infinity false => true | _ => false end.
Proof.
  rewrite eqb_spec. change (Prim2SF infinity) with (S754_infinity false).
  destruct (Prim2SF x) as [s|s| |s m e]; try reflexivity; destruct s; reflexivity.
Qed.

Lemma ltb_zero_spec (x : float) :
  (x <? 0)
  = match Prim2SF x with S754_infinity true | S754_finite true _ _ => true | _ => false end.
Proof.
  rewrite ltb_spec. change (Prim2SF 0) with (S754_zero false).
  destruct (Prim2SF x) as [s|s| |s m e]; try reflexivity; destruct s; reflexivity.
Qed.

Lemma zero_ltb_spec (x : float) :
  (0 <? x)
  = match Prim2SF x with S754_infinity false | S754_finite false _ _ => true | _ => false end.
Proof.
  rewrite ltb_spec. change (Prim2SF 0) with (S754_zero false).
  destruct (Prim2SF x) as [s|s| |s m e]; try reflexivity; destruct s; reflexivity.
Qed.

Lemma zero_leb_spec (x : float) :
  (0 <=? x)
  = match Prim2SF x with
    | S754_zero _ | S754_infinity false | S754_finite false _ _ => true
    | _ => false
    end.
Proof.
  rewrite leb_spec. change (Prim2SF 0) with (S754_zero false).
  destruct (Prim2SF x) as [s|s| |s m e]; try reflexivity; destruct s; reflexivity.
Qed.

End PrimitiveFacts.

(** ** The Mercator formula *)

Section Comparisons.

Lemma SFcompare_antisym (a b : spec_float) :
  SFcompare b a
  = match SFcompare a b with Some c => Some (CompOpp c) | None => None end.
Proof.
  destruct a as [s1|s1| |s1 m1 e1], b as [s2|s2| |s2 m2 e2]; simpl; try reflexivity;
    try (destruct s1; reflexivity); try (destruct s2; reflexivity);
    try (destruct s1, s2; reflexivity).
  destruct s1, s2; simpl; try reflexivity.
  - rewrite (Z.compare_antisym e1 e2).
    destruct (e1 ?= e2)%Z; simpl; try reflexivity.
    rewrite (Pos.compare_cont_antisym m1 m2 Eq). reflexivity.
  - rewrite (Z.compare_antisym e1 e2).
    destruct (e1 ?= e2)%Z; simpl; try reflexivity.
    rewrite (Pos.compare_cont_antisym m1 m2 Eq). reflexivity.
Qed.

(** On numbers, [a < b] false means [b <= a]. *)
Lemma ltb_false_leb (a b : float) :
  is_nan a = false -> is_nan b = false -> (a <? b)%float = false -> (b <=? a)%float = true.
Proof.
  rewrite !is_nan_spec, ltb_spec, leb_spec. unfold SFltb, SFleb.
  rewrite (SFcompare_antisym (Prim2SF a) (Prim2SF b)).
  destruct (Prim2SF a) as [s1|s1| |s1 m1 e1] eqn:Ea, (Prim2SF b) as [s2|s2| |s2 m2 e2] eqn:Eb;
    try discriminate; intros _ _;
    match goal with |- context [SFcompare ?x ?y] => destruct (SFcompare x y) as [[| |]|] eqn:E end;
    simpl; try reflexivity; try discriminate;
    simpl in E; try discriminate; destruct s1; try discriminate; destruct s2; discriminate.
Qed.

End Comparisons.

Section Mercator.
Local Open Scope float_scope.
Lemma SF_one : Prim2SF 1 = SFone.
Proof. vm_compute. reflexivity. Qed.
Lemma SF_minus_one : Prim2SF (-1) = S754_finite true 4503599627370496 (-52).
Proof. vm_compute. reflexivity. Qed.

Lemma compare_cont_Eq (p q : positive) : Pos.compare_cont Eq p q = Pos.compare p q.
Proof. reflexivity. Qed.

Lemma leb_one_shape (sx : bool) (mx : positive) (ex : Z) :
  SFleb (S754_finite true 4503599627370496 (-52)) (S754_finite sx mx ex) = true ->
  SFleb (S754_finite sx mx ex) (S754_finite false 4503599627370496 (-52)) = true ->
  (ex < -52)%Z \/ (ex = -52 /\ (mx <= 4503599627370496)%positive)%Z.
Proof.
  unfold SFleb, SFcompare. destruct sx.
  - intros Hlo _.
    destruct (Z.compare_spec (-52) ex) as [E|E|E]; try discriminate.
    + right; split; [symmetry; exact E|].
      rewrite compare_cont_Eq in Hlo.
      apply Pos.compare_ge_iff. intros Hlt. rewrite Hlt in Hlo. discriminate.
    + left. exact E.
  - intros _ Hhi.
    destruct (Z.compare_spec ex (-52)) as [E|E|E]; try discriminate.
    + right; split; [exact E|].
      rewrite compare_cont_Eq in Hhi.
      apply Pos.compare_le_iff. intros Hgt. rewrite Hgt in Hhi. discriminate.
    + left. exact E.
Qed.

(** A float between -1 and 1 is a zero or [mx * 2^ex] with [mx <= 2^(-ex)]. *)
Lemma unit_range_shape (s : float) :
  (-1 <=? s) && (s <=? 1) = true ->
  (exists b, Prim2SF s = S754_zero b) \/
  (exists sx mx ex,
     Prim2SF s = S754_finite sx mx ex /\
     (-1074 <= ex <= -52)%Z /\ (Z.pos mx <= 2 ^ (- ex))%Z).
Proof.
  rewrite !leb_spec, SF_one, SF_minus_one. unfold SFone.
  pose proof (Prim2SF_valid s) as Hvalid.
  destruct (Prim2SF s) as [b|b| |sx mx ex]; intros H;
    apply andb_true_iff in H as [Hlo Hhi].
  - left; exists b; reflexivity.
  - destruct b; discriminate.
  - discriminate.
  - right. exists sx, mx, ex. split; [reflexivity|].
    pose proof (leb_one_shape sx mx ex Hlo Hhi) as Hcases. clear Hlo Hhi.
    simpl in Hvalid. unfold bounded, canonical_mantissa in Hvalid.
    apply andb_true_iff in Hvalid as [Hcanon _].
    apply Z.eqb_eq in Hcanon. rewrite fexp64 in Hcanon.
    change (Z.pos (digits2_pos mx)) with (Zdigits2 (Z.pos mx)) in Hcanon.
    pose proof (Zdigits2_upper (Z.pos mx) (Pos2Z.is_nonneg mx)) as Hup.
    assert (Hd : (Zdigits2 (Z.pos mx) <= 53)%Z) by (clear Hup Hcases; lia).
    assert (Hlow : (-1074 <= ex)%Z) by (clear Hup Hcases; lia).
    assert (Hm53 : (Z.pos mx < 2 ^ 53)%Z).
    { eapply Z.lt_le_trans; [exact Hup|]. apply Z.pow_le_mono_r; [reflexivity|exact Hd]. }
    clear Hup Hcanon Hd.
    destruct Hcases as [Hlt|[-> Hle]].
    + split; [split; [exact Hlow|]|].
      * clear Hm53. lia.
      * apply Z.lt_le_incl. eapply Z.lt_le_trans; [exact Hm53|].
        apply Z.pow_le_mono_r; [reflexivity|]. clear Hm53. lia.
    + split; [split; [exact Hlow|reflexivity]|].
      apply Pos2Z.pos_le_pos in Hle. exact Hle.
Qed.

Lemma SF_half : Prim2SF 0.5 = S754_finite false 4503599627370496 (-53).
Proof. vm_compute. reflexivity. Qed.

Lemma SF_quarter : Prim2SF 0.25 = S754_finite false 4503599627370496 (-54).
Proof. vm_compute. reflexivity. Qed.

Lemma SF_PI : Prim2SF Js.Math_PI = S754_finite false 7074237752028440 (-51).
Proof. vm_compute. reflexivity. Qed.

Lemma ratio_nonneg (s : float) :
  (-1 <=? s) && (s <=? 1) = true ->
  SFnonneg (Prim2SF ((1 + s) / (1 - s))).
Proof.
  intros Hrange. rewrite div_spec, add_spec, sub_spec, SF_one.
  destruct (unit_range_shape s Hrange) as [[b ->]|(sx & mx & ex & -> & Hex & Hmx)].
  - apply SFsigned_nonneg. apply (SFdiv_finite_signed false false).
  - destruct (add_one_shape sx mx ex Hex Hmx) as [Hnum Hnum0].
    destruct (sub_one_shape sx mx ex Hex Hmx) as [Hden Hden0].
    apply SFdiv_nonneg; try assumption.
    intros [E1 E2]. specialize (Hnum0 E1). specialize (Hden0 E2). congruence.
Qed.

Context {M : MathLib} {sound : MathLibSound M}.

Lemma Math_sin_range (r : float) :
  is_finite r = true -> (-1 <=? Math_sin r) && (Math_sin r <=? 1) = true.
Proof.
  intros Hfin. unfold Math_sin.
  pose proof Hfin as Hshape. rewrite is_finite_spec in Hshape.
  rewrite is_nan_spec, is_zero_spec, is_infinity_spec.
  destruct (Prim2SF r) as [b|b| |sx mx ex] eqn:Er; try discriminate; simpl.
  - rewrite !leb_spec, Er, SF_one, SF_minus_one. reflexivity.
  - apply sin_approx_range. assumption.
Qed.

Lemma Math_log_number (q : float) :
  SFnonneg (Prim2SF q) -> is_nan (Math_log q) = false.
Proof.
  intros Hq. unfold Math_log.
  rewrite (is_nan_spec q), eqb_infinity_spec, is_zero_spec, ltb_zero_spec.
  destruct (Prim2SF q) as [b|b| |sx mx ex] eqn:Eq; simpl in Hq; try contradiction.
  - simpl. destruct (q =? 1); reflexivity.
  - destruct b; [contradiction|]. simpl. rewrite is_nan_spec, Eq. reflexivity.
  - destruct sx; [contradiction|]. simpl.
    destruct (q =? 1); [reflexivity|].
    apply log_approx_number.
    + rewrite is_finite_spec, Eq. reflexivity.
    + rewrite zero_ltb_spec, Eq. reflexivity.
Qed.

Lemma mercator_number (L : float) :
  is_nan L = false -> is_nan (0.5 - (0.25 * L) / Js.Math_PI) = false.
Proof.
  rewrite !is_nan_spec, sub_spec, div_spec, mul_spec, SF_half, SF_quarter, SF_PI.
  intros HL.
  assert (H : SFnumber (Prim2SF L)) by (destruct (Prim2SF L); simpl; auto; discriminate).
  apply (SFmul_number false 4503599627370496 (-54)) in H.
  apply (fun H => SFdiv_number _ false 7074237752028440 (-51) H) in H.
  apply (SFsub_number false 4503599627370496 (-53)) in H.
  unfold SF64sub, SF64div, SF64mul.
  destruct (SFsub prec emax _ _); simpl in H; auto; contradiction.
Qed.

Lemma clamp_unit (y2 : float) :
  is_nan y2 = false ->
  let r := if y2 <? 0 then 0 else if 1 <? y2 then 1 else y2 in
  (0 <=? r) && (r <=? 1) = true.
Proof.
  intros Hnum. cbv zeta.
  destruct (y2 <? 0) eqn:Hlo; [reflexivity|].
  destruct (1 <? y2) eqn:Hhi; [reflexivity|].
  rewrite (ltb_false_leb y2 0 Hnum eq_refl Hlo).
  rewrite (ltb_false_leb 1 y2 eq_refl Hnum Hhi).
  reflexivity.
Qed.

(** The clamp sees a number, so its result is in [0, 1]. *)
Lemma projectY_unit (y : float) :
  is_finite (y * Js.Math_PI / 180) = true ->
  (0 <=? projectY y) && (projectY y <=? 1) = true.
Proof.
  intros Hfin. unfold projectY.
  apply clamp_unit. apply mercator_number. apply Math_log_number.
  apply ratio_nonneg. apply Math_sin_range. assumption.
Qed.

End Mercator.

(** ** Latitudes whose radians are finite *)

Section Radians.
Local Open Scope Z_scope.

(** Below the overflow threshold rounding gives a zero or a finite number. *)
Lemma binary_round_aux_no_overflow (sx : bool) (mx ex : Z) (lx : location) :
  0 <= mx -> ex <= 970 -> Zdigits2 mx + ex <= 1023 ->
  match binary_round_aux prec emax sx mx ex lx with
  | S754_zero _ | S754_finite _ _ _ => True
  | _ => False
  end.
Proof.
  intros Hmx Hex Hd.
  destruct (binary_round_aux_spec sx mx ex lx Hmx)
    as (m1 & e1 & m2 & m3 & e3 & He1 & Hm1 & Hm2 & He3 & Hm3 & ->).
  pose proof (Zdigits2_nonneg mx) as Hdn.
  rewrite fexp64 in He1.
  assert (Hm1nn : 0 <= m1) by (rewrite Hm1; apply Z.div_pos; [lia|apply pow2_pos; lia]).
  assert (Hm3nn : 0 <= m3) by (rewrite Hm3; apply Z.div_pos; [lia|apply pow2_pos; lia]).
  assert (Hm1up : m1 < 2 ^ Z.max 0 (Zdigits2 mx - (e1 - ex))).
  { rewrite Hm1. apply shift_upper; try lia. split; [lia|]. apply Zdigits2_upper; lia. }
  assert (Hd2 : Zdigits2 m2 <= Z.max 0 (Zdigits2 mx - (e1 - ex)) + 1).
  { apply Zdigits2_le; [lia|]. split; [lia|].
    rewrite Z.pow_add_r by lia. change (2 ^ 1) with 2. lia. }
  rewrite fexp64 in He3.
  assert (He3' : e3 <= 971) by lia.
  destruct m3 as [|p|p]; [exact I| |lia].
  replace (e3 <=? emax - prec) with true; [exact I|].
  symmetry. apply Z.leb_le. change (emax - prec) with 971. assumption.
Qed.

Lemma valid_finite_digits (s : bool) (m : positive) (e : Z) :
  valid_binary (S754_finite s m e) = true ->
  Zdigits2 (Z.pos m) <= 53 /\ -1074 <= e <= 971.
Proof.
  intros H. change (bounded prec emax m e = true) in H.
  unfold bounded, canonical_mantissa in H.
  apply andb_true_iff in H as [Hcanon Hmax].
  apply Z.eqb_eq in Hcanon. apply Z.leb_le in Hmax. rewrite fexp64 in Hcanon.
  change (Z.pos (digits2_pos m)) with (Zdigits2 (Z.pos m)) in Hcanon.
  change (emax - prec) with 971 in Hmax. lia.
Qed.

(** The quotient mantissa of a division and its exponent. *)
Lemma div_core_bounds (m1 e1 m2 e2 : Z) :
  0 < m1 -> 0 < m2 ->
  let r := SFdiv_core_binary prec emax m1 e1 m2 e2 in
  let q := fst (fst r) in
  let e' := snd (fst r) in
  0 <= q /\
  e' <= fexp prec emax (Zdigits2 m1 + e1 - (Zdigits2 m2 + e2)) /\
  Zdigits2 q + e' <= Z.max e' (Zdigits2 m1 + e1 - (Zdigits2 m2 + e2) + 1).
Proof.
  intros H1 H2. cbv zeta. unfold SFdiv_core_binary.
  set (e' := Z.min (fexp prec emax (Zdigits2 m1 + e1 - (Zdigits2 m2 + e2))) (e1 - e2)).
  set (s := e1 - e2 - e').
  set (m' := match s with Z.pos _ => Z.shiftl m1 s | 0 => m1 | Z.neg _ => 0 end).
  assert (Hs : 0 <= s) by (unfold s, e'; lia).
  assert (Hm' : m' = m1 * 2 ^ s).
  { unfold m'. destruct s as [|p|p]; [simpl; lia| |lia].
    apply Z.shiftl_mul_pow2. lia. }
  destruct (Z.div_eucl m' m2) as [q r] eqn:E. simpl.
  assert (Hq : q = m' / m2) by (unfold Z.div; rewrite E; reflexivity).
  pose proof (pow2_pos s Hs) as Hp.
  assert (Hqnn : 0 <= q) by (rewrite Hq; apply Z.div_pos; nia).
  split; [exact Hqnn|]. split; [unfold e'; lia|].
  destruct (Zdigits2_bounds m1 H1) as [_ Hup1].
  destruct (Zdigits2_bounds m2 H2) as [Hlo2 _].
  pose proof (Zdigits2_nonneg m1) as Hd1. pose proof (Zdigits2_nonneg m2) as Hd2.
  assert (Hd2pos : 0 < Zdigits2 m2).
  { destruct m2; simpl; lia. }
  set (k := Zdigits2 m1 + s - Zdigits2 m2 + 1).
  destruct (Z.le_gt_cases 0 k) as [Hk|Hk].
  - assert (Hlt : q < 2 ^ k).
    { rewrite Hq. apply Z.div_lt_upper_bound; [assumption|].
      apply Z.lt_le_trans with (2 ^ (Zdigits2 m2 - 1) * 2 ^ k).
      - rewrite <- Z.pow_add_r by lia.
        replace (Zdigits2 m2 - 1 + k) with (Zdigits2 m1 + s) by (unfold k; lia).
        rewrite Hm', Z.pow_add_r by lia. nia.
      - apply Z.mul_le_mono_nonneg_r; [apply Z.lt_le_incl, pow2_pos; lia|assumption]. }
    assert (Zdigits2 q <= k) by (apply Zdigits2_le; lia).
    unfold k, s in *. lia.
  - assert (Hq0 : q = 0).
    { rewrite Hq. apply Z.div_small. split; [nia|].
      apply Z.lt_le_trans with (2 ^ (Zdigits2 m2 - 1)); [|assumption].
      apply Z.lt_le_trans with (2 ^ (Zdigits2 m1 + s)).
      - rewrite Hm', Z.pow_add_r by lia. nia.
      - apply Z.pow_le_mono_r; unfold k in Hk; lia. }
    rewrite Hq0. simpl. lia.
Qed.

End Radians.

Section RadiansFloat.
Local Open Scope float_scope.

Lemma SF_180 : Prim2SF 180 = S754_finite false 6333186975989760 (-45).
Proof. vm_compute. reflexivity. Qed.

Lemma SF_bound : Prim2SF 0x1p+1020 = S754_finite false 4503599627370496 968.
Proof. vm_compute. reflexivity. Qed.

(** Below 2^1020 in magnitude a float is a zero or [m * 2^e] with
    [digits m + e <= 1020]. *)
Lemma below_bound_shape (y : float) :
  (abs y <? 0x1p+1020) = true ->
  (exists b, Prim2SF y = S754_zero b) \/
  (exists s m e,
     Prim2SF y = S754_finite s m e /\
     (Zdigits2 (Z.pos m) + e <= 1020)%Z /\ (e <= 968)%Z).
Proof.
  rewrite ltb_spec, abs_spec, SF_bound.
  pose proof (Prim2SF_valid y) as Hvalid.
  destruct (Prim2SF y) as [b|b| |s m e]; simpl SFabs; intros H.
  - left; exists b; reflexivity.
  - discriminate.
  - discriminate.
  - right. exists s, m, e. split; [reflexivity|].
    destruct (valid_finite_digits s m e Hvalid) as [Hd _].
    unfold SFltb, SFcompare in H.
    destruct (Z.compare_spec e 968) as [E|E|E]; try discriminate.
    + rewrite compare_cont_Eq in H.
      destruct (Pos.compare_spec m 4503599627370496) as [E'|E'|E']; try discriminate.
      apply Pos2Z.pos_lt_pos in E'.
      assert (Hd52 : (Zdigits2 (Z.pos m) <= 52)%Z).
      { apply Zdigits2_le; [discriminate|]. split; [apply Pos2Z.is_nonneg|exact E']. }
      clear H Hvalid E'. lia.
    + clear H Hvalid. lia.
Qed.

(** The radians of a latitude below 2^1020 in magnitude are finite. *)
Lemma radians_finite (y : float) :
  (abs y <? 0x1p+1020) = true -> is_finite (y * Js.Math_PI / 180) = true.
Proof.
  intros Hy.
  assert (Hx : is_finite (y * Js.Math_PI) = true).
  { rewrite is_finite_spec, mul_spec, SF_PI.
    destruct (below_bound_shape y Hy) as [[b ->]|(s & m & e & -> & Hd & He)].
    - reflexivity.
    - unfold SF64mul, SFmul.
      pose proof (binary_round_aux_no_overflow (xorb s false)
                    (Z.pos (m * 7074237752028440)) (e + -51) loc_Exact) as H.
      destruct (binary_round_aux prec emax _ _ _ _); try reflexivity;
        exfalso; apply H; try lia.
      all: assert (Hdm : (Zdigits2 (Z.pos (m * 7074237752028440))
                          <= Zdigits2 (Z.pos m) + 53)%Z);
        [|lia].
      all: pose proof (Zdigits2_upper (Z.pos m) (Pos2Z.is_nonneg m)) as Hup;
        pose proof (Zdigits2_nonneg (Z.pos m)) as Hnn;
        apply Zdigits2_le; [lia|]; split; [lia|];
        rewrite Pos2Z.inj_mul, Z.pow_add_r by lia;
        apply Z.mul_lt_mono_nonneg; [lia|exact Hup|lia|reflexivity]. }
  set (x := y * Js.Math_PI) in *.
  rewrite is_finite_spec in Hx |- *. rewrite div_spec, SF_180.
  pose proof (Prim2SF_valid x) as Hvalid.
  destruct (Prim2SF x) as [b|b| |s m e]; try discriminate.
  - reflexivity.
  - destruct (valid_finite_digits s m e Hvalid) as [Hd He].
    unfold SF64div, SFdiv.
    pose proof (div_core_bounds (Z.pos m) e (Z.pos 6333186975989760) (-45)
                  ltac:(lia) ltac:(lia)) as Hb.
    destruct (SFdiv_core_binary prec emax (Z.pos m) e (Z.pos 6333186975989760) (-45))
      as [[mz ez] lz].
    cbv zeta in Hb. cbn [fst snd] in Hb. destruct Hb as (Hq & Hez & Hdq).
    change (Zdigits2 (Z.pos 6333186975989760)) with 53%Z in Hez, Hdq.
    rewrite fexp64 in Hez.
    pose proof (binary_round_aux_no_overflow (xorb s false) mz ez lz Hq) as H.
    destruct (binary_round_aux prec emax _ _ _ _); try reflexivity;
      exfalso; apply H; lia.
Qed.

End RadiansFloat.

(** The engine of the examples is sound. *)
Section ReferenceFacts.
Local Open Scope float_scope.

Lemma leb_true_number (a b : float) : (a <=? b) = true -> is_nan a = false.
Proof.
  rewrite leb_spec, is_nan_spec.
  destruct (Prim2SF a); try reflexivity. discriminate.
Qed.

Lemma reference_sound : MathLibSound Reference.engine.
Proof.
  constructor; simpl; intros x Hfin.
  - unfold Reference.sin.
    set (p := x * (1 - _)).
    destruct (p <? -1) eqn:Hlo; [reflexivity|].
    destruct (p <=? 1) eqn:Hhi; [|reflexivity].
    rewrite (ltb_false_leb p (-1) (leb_true_number p 1 Hhi) eq_refl Hlo), Hhi.
    reflexivity.
  - intros _. unfold Reference.log.
    destruct (Z.frexp x) as [m e].
    match goal with |- is_nan (if is_nan ?r then _ else _) = false =>
      destruct (is_nan r) eqn:Hr; [reflexivity|exact Hr] end.
Qed.

End ReferenceFacts.

(** C9, the claim as given fails: the latitude 2^1023 is finite, its value
    in radians overflows to +Infinity, whose sine is NaN, and the
    comparisons of the clamp are both false on NaN, so [projectY] returns
    NaN, which is not in [0, 1]. *)
Lemma projectY_of_huge_latitude :
  is_finite 0x1p+1023%float = true /\
  projectY (M := Reference.engine) 0x1p+1023%float = nan /\
  ((0 <=? nan) && (nan <=? 1))%float = false.
Proof. vm_compute. repeat split. Qed.

(** C9, amended: [projectY] lies in the closed interval [0, 1] for every
    latitude whose value in radians, [(y * Math.PI) / 180] as computed, is
    finite, and that is every latitude below 2^1020 (about 1.1e307) in
    magnitude, the poles included; this for an engine whose sine stays
    within [-1, 1] and whose logarithm of a positive finite number is a
    number. Where the sine is exactly 1 the quotient is +Infinity and the
    result is clamped to 0, where it is exactly -1 the quotient is 0 and
    the result is clamped to 1; and [projectY 0] is 0.5. *)
Theorem projectY_range {M : MathLib} (sound : MathLibSound M) (y : float) :
  (is_finite (y * Js.Math_PI / 180)%float = true ->
   ((0 <=? projectY y) && (projectY y <=? 1))%float = true) /\
  ((Math_abs y <? 0x1p+1020)%float = true ->
   is_finite (y * Js.Math_PI / 180)%float = true) /\
  (Math_sin (y * Js.Math_PI / 180)%float = 1%float -> projectY y = 0%float) /\
  (Math_sin (y * Js.Math_PI / 180)%float = (-1)%float -> projectY y = 1%float) /\
  projectY 0 = 0.5%float.
Proof.
  split; [apply projectY_unit|].
  split; [apply radians_finite|].
  split; [|split].
  - intros Hsin. unfold projectY. rewrite Hsin. vm_compute. reflexivity.
  - intros Hsin. unfold projectY. rewrite Hsin. vm_compute. reflexivity.
  - vm_compute. reflexivity.
Qed.

Lemma projectY_range_witness :
  (Math_abs 90 <? 0x1p+1020)%float = true /\
  ((0 <=? projectY (M := Reference.engine) 90)
   && (projectY (M := Reference.engine) 90 <=? 1))%float = true /\
  (Math_abs (-90) <? 0x1p+1020)%float = true /\
  ((0 <=? projectY (M := Reference.engine) (-90))
   && (projectY (M := Reference.engine) (-90) <=? 1))%float = true.
Proof.
  pose proof (projectY_range reference_sound 90%float) as (Hunit & Hfin & _).
  pose proof (projectY_range reference_sound (-90)%float) as (Hunit' & Hfin' & _).
  split; [reflexivity|]. split; [exact (Hunit (Hfin eq_refl))|].
  split; [reflexivity|]. exact (Hunit' (Hfin' eq_refl)).
Defined.

(** * Further properties of the conversion *)

Section OptionFacts.
Context {M : MathLib} {simplifier : Simplifier}.

Lemma convertChildren_cons (g : Geometry) (gs : list Geometry)
    (features : list ProtoFeature.t) (id : Js.any) (properties : option Properties)
    (options : ConvertFeatureOptions) (index : option nat) :
  convertChildren (g :: gs) features id properties options index
  = (features <- convertGeometry features id g properties options index ;;
     convertChildren gs features id properties options index).
Proof. reflexivity. Qed.

(** [convertGeometry] consults the options and the index only through the
    squared tolerance, [lineMetrics] and the resolution of the id. *)
Lemma convertGeometry_ext (o1 o2 : ConvertFeatureOptions) (i1 i2 : option nat) :
  (forall id0 properties, resolveId o1 id0 properties i1 = resolveId o2 id0 properties i2) ->
  sqTolerance o1 = sqTolerance o2 -> lineMetrics o1 = lineMetrics o2 ->
  forall g features id0 properties,
    convertGeometry features id0 g properties o1 i1
    = convertGeometry features id0 g properties o2 i2.
Proof.
  intros Hid Hsq Hlm g.
  induction g as [c|c|c|c|c|c|gs IHgs|t] using Geometry_nested_ind;
    intros features id0 properties;
    try (cbn [convertGeometry]; rewrite Hid, ?Hsq, ?Hlm; reflexivity).
  rewrite !convertGeometry_collection, Hid.
  destruct (resolveId o2 id0 properties i2) as [id|e]; simpl; [|reflexivity].
  revert features; induction IHgs as [|g gs Hg _ IH]; intros features; [reflexivity|].
  rewrite !convertChildren_cons, Hg.
  destruct (convertGeometry features id g properties o2 i2); simpl; auto.
Qed.

(** The proto-features already in [features] play no part: the conversion
    of a geometry appends what it would push on an empty array. *)
Lemma convertGeometry_acc (g : Geometry) :
  forall features id0 properties options index,
    convertGeometry features id0 g properties options index
    = (new <- convertGeometry [] id0 g properties options index ;;
       Js.Return (features ++ new)).
Proof.
  induction g as [c|c|c|c|c|c|gs IHgs|t] using Geometry_nested_ind;
    intros features id0 properties options index;
    try (cbn [convertGeometry];
         destruct (resolveId options id0 properties index) as [id|e]; reflexivity).
  - cbn [convertGeometry].
    destruct (resolveId options id0 properties index) as [id|e]; [|reflexivity].
    simpl. destruct (lineMetrics options); [|reflexivity].
    rewrite !fold_left_push. reflexivity.
  - rewrite !convertGeometry_collection.
    destruct (resolveId options id0 properties index) as [id|e]; [|reflexivity].
    simpl. revert features.
    induction IHgs as [|g gs Hg _ IH]; intros features.
    + simpl. rewrite app_nil_r. reflexivity.
    + rewrite !convertChildren_cons. rewrite (Hg features).
      destruct (convertGeometry [] id g properties options index) as [n1|e]; [|reflexivity].
      simpl. rewrite (IH (features ++ n1)), (IH n1).
      destruct (convertChildren gs [] id properties options index) as [n2|e]; [|reflexivity].
      simpl. rewrite app_assoc. reflexivity.
  - cbn [convertGeometry].
    destruct (resolveId options id0 properties index) as [id|e]; [|reflexivity].
    simpl. destruct (recognized t); reflexivity.
Qed.

Lemma convertFeature_acc (geojson : Feature.t) (options : ConvertFeatureOptions)
    (index : option nat) (features : list ProtoFeature.t) :
  convertFeature features geojson options index
  = (new <- convertFeature [] geojson options index ;; Js.Return (features ++ new)).
Proof.
  unfold convertFeature. destruct (Feature.geometry geojson) as [g|].
  - apply convertGeometry_acc.
  - simpl. rewrite app_nil_r. reflexivity.
Qed.

Lemma convertFeatures_loop_acc (data_features : list Feature.t)
    (options : ConvertFeatureOptions) :
  forall i features,
    convertFeatures_loop data_features i features options
    = (new <- convertFeatures_loop data_features i [] options ;;
       Js.Return (features ++ new)).
Proof.
  induction data_features as [|geojson rest IH]; intros i features; simpl.
  - rewrite app_nil_r. reflexivity.
  - rewrite (convertFeature_acc geojson options (Some i) features).
    destruct (convertFeature [] geojson options (Some i)) as [n1|e]; [|reflexivity].
    simpl. rewrite (IH (S i) (features ++ n1)), (IH (S i) n1).
    destruct (convertFeatures_loop rest (S i) [] options) as [n2|e]; [|reflexivity].
    simpl. rewrite app_assoc. reflexivity.
Qed.

(** Without [generateId], or with [promoteId], the index is not consulted. *)
Lemma resolveId_index (options : ConvertFeatureOptions) (id0 : Js.any)
    (properties : option Properties) (i1 i2 : option nat) :
  generateId options = false \/ truthy (promoteId options) = true ->
  resolveId options id0 properties i1 = resolveId options id0 properties i2.
Proof.
  unfold resolveId. intros [H|H]; rewrite H; [|reflexivity].
  destruct (truthy (promoteId options)); reflexivity.
Qed.

Lemma convertFeatures_loop_index (data_features : list Feature.t)
    (options : ConvertFeatureOptions) :
  generateId options = false \/ truthy (promoteId options) = true ->
  forall i j features,
    convertFeatures_loop data_features i features options
    = convertFeatures_loop data_features j features options.
Proof.
  intros H. induction data_features as [|geojson rest IH]; intros i j features; simpl;
    [reflexivity|].
  assert (Hc : convertFeature features geojson options (Some i)
               = convertFeature features geojson options (Some j)).
  { unfold convertFeature. destruct (Feature.geometry geojson) as [g|]; [|reflexivity].
    apply convertGeometry_ext; try reflexivity.
    intros; apply resolveId_index; assumption. }
  rewrite Hc. destruct (convertFeature features geojson options (Some j)); simpl; auto.
Qed.

(** Whatever its form, the input is converted by the loop over its
    features: a single feature and a bare geometry count as position 0. *)
Lemma convertFeatures_as_loop (data : GeoJSON) (options : ConvertFeatureOptions) :
  convertFeatures data options
  = convertFeatures_loop (features_of data) 0 [] options.
Proof.
  assert (H : forall geojson,
            convertFeature [] geojson options None
            = convertFeatures_loop [geojson] 0 [] options).
  { intros geojson. simpl.
    assert (Hc : convertFeature [] geojson options None
                 = convertFeature [] geojson options (Some 0%nat)).
    { unfold convertFeature. destruct (Feature.geometry geojson) as [g|]; [|reflexivity].
      apply convertGeometry_ext; reflexivity. }
    rewrite Hc. destruct (convertFeature [] geojson options (Some 0%nat)); reflexivity. }
  destruct data as [data_features|geojson|geometry]; [reflexivity|apply H|apply H].
Qed.

End OptionFacts.

(** X1: when [promoteId] is a non-empty name, a geometry whose feature has
    no properties object cannot be converted: line 66 reads a property of
    undefined (or null) and a TypeError is thrown before the kind of the
    geometry is looked at. So every bare geometry throws, a feature
    without properties throws, and a collection throws at the first such
    feature when the features before it are converted. *)
Theorem promoteId_needs_properties {M : MathLib} {simplifier : Simplifier}
    (options : ConvertFeatureOptions) (g : Geometry) :
  truthy (promoteId options) = true ->
  (forall features id0 index,
     convertGeometry features id0 g None options index = Js.Throw Js.TypeError) /\
  convertFeatures (BareGeometry g) options = Js.Throw Js.TypeError /\
  (forall geojson,
     Feature.geometry geojson = Some g -> Feature.properties geojson = None ->
     convertFeatures (SingleFeature geojson) options = Js.Throw Js.TypeError /\
     forall before after out,
       convertFeatures (FeatureCollection before) options = Js.Return out ->
       convertFeatures (FeatureCollection (before ++ geojson :: after)) options
       = Js.Throw Js.TypeError).
Proof.
  intros Hp.
  assert (Hid : forall id0 index, resolveId options id0 None index = Js.Throw Js.TypeError).
  { intros. unfold resolveId. rewrite Hp. reflexivity. }
  assert (Hg : forall features id0 index,
             convertGeometry features id0 g None options index = Js.Throw Js.TypeError).
  { intros. destruct g; cbn [convertGeometry]; rewrite Hid; reflexivity. }
  split; [exact Hg|]. split; [apply Hg|].
  intros geojson Hgeo Hprops.
  assert (Hf : forall features index,
             convertFeature features geojson options index = Js.Throw Js.TypeError).
  { intros. unfold convertFeature. rewrite Hgeo, Hprops. apply Hg. }
  split; [apply Hf|].
  intros before after out Hout. simpl in *.
  rewrite convertFeatures_loop_app, Hout. simpl. rewrite Hf. reflexivity.
Qed.

Lemma promoteId_needs_properties_witness :
  convertFeatures (M := Reference.engine) (simplifier := Reference.marking)
    (BareGeometry (Point (0, 0)%float))
    {| maxZoom := 14; tolerance := 3%float; extent := 4096%float;
       lineMetrics := false; promoteId := Some "name"; generateId := false |}
  = Js.Throw Js.TypeError.
Proof.
  exact (proj1 (proj2 (promoteId_needs_properties (M := Reference.engine)
                         (simplifier := Reference.marking)
                         {| maxZoom := 14; tolerance := 3%float; extent := 4096%float;
                            lineMetrics := false; promoteId := Some "name";
                            generateId := false |}
                         (Point (0, 0)%float) eq_refl))).
Defined.

(** X2: an empty-string [promoteId] is falsy and counts as no [promoteId]:
    the conversion is that of the same options without it. *)
Theorem empty_promoteId_is_ignored {M : MathLib} {simplifier : Simplifier}
    (data : GeoJSON) (z : Z) (t e : float) (lm gi : bool) :
  convertFeatures data
    {| maxZoom := z; tolerance := t; extent := e; lineMetrics := lm;
       promoteId := Some ""; generateId := gi |}
  = convertFeatures data
      {| maxZoom := z; tolerance := t; extent := e; lineMetrics := lm;
         promoteId := None; generateId := gi |}.
Proof.
  set (o1 := {| maxZoom := z; promoteId := Some "" |}).
  set (o2 := {| maxZoom := z; promoteId := None |}).
  assert (Hg : forall g features id0 properties index,
             convertGeometry features id0 g properties o1 index
             = convertGeometry features id0 g properties o2 index).
  { intros. apply convertGeometry_ext; reflexivity. }
  assert (Hf : forall features geojson index,
             convertFeature features geojson o1 index
             = convertFeature features geojson o2 index).
  { intros. unfold convertFeature. destruct (Feature.geometry geojson); [apply Hg|reflexivity]. }
  destruct data as [data_features|geojson|geometry]; simpl; try apply Hf.
  generalize 0%nat, (@nil ProtoFeature.t).
  induction data_features as [|geojson rest IH]; intros i features; simpl; [reflexivity|].
  rewrite Hf. destruct (convertFeature features geojson o2 (Some i)); simpl; auto.
Qed.

(** X3: the three forms of input reduce to one: a single Feature converts
    as the collection holding just that feature (its missing index counts
    as 0), and a bare geometry converts as a feature with that geometry,
    no id and no properties. *)
Theorem single_feature_as_collection {M : MathLib} {simplifier : Simplifier}
    (options : ConvertFeatureOptions) :
  (forall geojson,
     convertFeatures (SingleFeature geojson) options
     = convertFeatures (FeatureCollection [geojson]) options) /\
  (forall geometry,
     convertFeatures (BareGeometry geometry) options
     = convertFeatures
         (FeatureCollection
            [{| Feature.id := Js.Prim Js.Undefined;
                Feature.geometry := Some geometry;
                Feature.properties := None |}])
         options).
Proof.
  split; intros; rewrite convertFeatures_as_loop; reflexivity.
Qed.

(** X4: features are converted one after the other into the same array, so
    the conversion of a collection [before ++ after] is the conversion of
    [before] followed by that of [after] at the positions after [before];
    when the index is not consulted (no [generateId], or a [promoteId]) it
    is the conversion of [before] followed by the conversion of [after]. *)
Theorem conversion_of_concatenation {M : MathLib} {simplifier : Simplifier}
    (options : ConvertFeatureOptions) (before after : list Feature.t) :
  convertFeatures (FeatureCollection (before ++ after)) options
  = (out1 <- convertFeatures (FeatureCollection before) options ;;
     out2 <- convertFeatures_loop after (List.length before) [] options ;;
     Js.Return (out1 ++ out2)) /\
  (generateId options = false \/ truthy (promoteId options) = true ->
   convertFeatures (FeatureCollection (before ++ after)) options
   = (out1 <- convertFeatures (FeatureCollection before) options ;;
      out2 <- convertFeatures (FeatureCollection after) options ;;
      Js.Return (out1 ++ out2))).
Proof.
  assert (H : convertFeatures (FeatureCollection (before ++ after)) options
              = (out1 <- convertFeatures (FeatureCollection before) options ;;
                 out2 <- convertFeatures_loop after (List.length before) [] options ;;
                 Js.Return (out1 ++ out2))).
  { simpl. rewrite convertFeatures_loop_app.
    destruct (convertFeatures_loop before 0 [] options) as [out1|e]; [|reflexivity].
    simpl. apply convertFeatures_loop_acc. }
  split; [exact H|].
  intros Hindex. rewrite H. simpl.
  rewrite (convertFeatures_loop_index after options Hindex (List.length before) 0%nat).
  reflexivity.
Qed.

Section CountFacts.
Context {M : MathLib} {simplifier : Simplifier}.

Lemma emitted_collection (options : ConvertFeatureOptions) (gs : list Geometry) :
  emitted options (GeometryCollection gs) = list_sum (map (emitted options) gs).
Proof.
  simpl. induction gs as [|g gs IH]; simpl; [reflexivity|]. rewrite IH; reflexivity.
Qed.

Lemma convertGeometry_count (options : ConvertFeatureOptions) (g : Geometry) :
  forall features id0 properties index out,
    convertGeometry features id0 g properties options index = Js.Return out ->
    List.length out = (List.length features + emitted options g)%nat.
Proof.
  induction g as [c|c|c|c|c|c|gs IHgs|t] using Geometry_nested_ind;
    intros features id0 properties index out;
    try (cbn [convertGeometry]; destruct (resolveId options id0 properties index) as [id|e];
         simpl; [|discriminate]; intros [= <-]; rewrite length_app; reflexivity).
  - cbn [convertGeometry]. destruct (resolveId options id0 properties index) as [id|e];
      simpl; [|discriminate].
    destruct (lineMetrics options); intros [= <-].
    + rewrite fold_left_push, length_app, length_map. reflexivity.
    + rewrite length_app. reflexivity.
  - rewrite convertGeometry_collection, emitted_collection.
    destruct (resolveId options id0 properties index) as [id|e]; simpl; [|discriminate].
    revert features. induction IHgs as [|g gs Hg _ IH]; intros features.
    + simpl. intros [= <-]. lia.
    + rewrite convertChildren_cons.
      destruct (convertGeometry features id g properties options index) as [mid|e] eqn:Hmid;
        simpl; [|discriminate].
      intros Hout. apply IH in Hout. apply Hg in Hmid. lia.
  - cbn [convertGeometry]. destruct (resolveId options id0 properties index); simpl;
      destruct (recognized t); discriminate.
Qed.

Lemma convertFeatures_loop_emitted (options : ConvertFeatureOptions)
    (data_features : list Feature.t) :
  forall i features out,
    convertFeatures_loop data_features i features options = Js.Return out ->
    List.length out
    = (List.length features + list_sum (map (feature_emitted options) data_features))%nat.
Proof.
  induction data_features as [|geojson rest IH]; intros i features out; simpl.
  - intros [= <-]. lia.
  - destruct (convertFeature features geojson options (Some i)) as [mid|e] eqn:Hmid;
      simpl; [|discriminate].
    intros Hout. apply IH in Hout. rewrite Hout.
    unfold convertFeature, feature_emitted in *.
    destruct (Feature.geometry geojson) as [g|].
    + apply convertGeometry_count in Hmid. lia.
    + injection Hmid as <-. lia.
Qed.

Lemma convertFeatures_loop_returns (options : ConvertFeatureOptions)
    (data_features : list Feature.t) :
  existsb feature_unsupported data_features = false ->
  forallb (readable options) data_features = true ->
  forall i features,
    exists out, convertFeatures_loop data_features i features options = Js.Return out.
Proof.
  induction data_features as [|geojson rest IH]; simpl; intros Hsup Hread i features.
  - eexists; reflexivity.
  - apply orb_false_iff in Hsup as [Hsup1 Hsup2].
    apply andb_true_iff in Hread as [Hread1 Hread2].
    destruct (convertFeature_returns geojson options Hsup1 Hread1 features (Some i))
      as [mid ->].
    simpl. apply IH; assumption.
Qed.

End CountFacts.

(** X5: the number of proto-features returned is the sum, over the
    features of the input, of what their geometries push: nothing without
    a geometry, one per geometry that is not a collection, one per line
    for a MultiLineString under [lineMetrics], and for a collection what
    its children push, at any depth. The conversion does return when no
    kind outside the seven occurs and every feature can be read. *)
Theorem number_of_proto_features {M : MathLib} {simplifier : Simplifier}
    (data : GeoJSON) (options : ConvertFeatureOptions) :
  (forall out,
     convertFeatures data options = Js.Return out ->
     List.length out = list_sum (map (feature_emitted options) (features_of data))) /\
  (existsb feature_unsupported (features_of data) = false ->
   forallb (readable options) (features_of data) = true ->
   exists out, convertFeatures data options = Js.Return out).
Proof.
  split.
  - intros out. rewrite convertFeatures_as_loop.
    intros Hout. apply convertFeatures_loop_emitted in Hout. exact Hout.
  - rewrite convertFeatures_as_loop.
    intros Hsup Hread. apply convertFeatures_loop_returns; assumption.
Qed.

Section ShapeFacts.
Context {M : MathLib} {simplifier : Simplifier}.

(** A property of proto-features that holds of what every geometry other
    than a collection pushes holds of what any geometry pushes. *)
Lemma convertGeometry_pushes (P : ProtoFeature.t -> Prop) (options : ConvertFeatureOptions) :
  (forall g features id0 properties index out,
     match g with GeometryCollection _ => False | _ => True end ->
     convertGeometry features id0 g properties options index = Js.Return out ->
     Forall P features -> Forall P out) ->
  forall g features id0 properties index out,
    convertGeometry features id0 g properties options index = Js.Return out ->
    Forall P features -> Forall P out.
Proof.
  intros Hleaf g.
  induction g as [c|c|c|c|c|c|gs IHgs|t] using Geometry_nested_ind;
    intros features id0 properties index out;
    try (apply Hleaf; exact I).
  rewrite convertGeometry_collection.
  destruct (resolveId options id0 properties index) as [id|e]; simpl; [|discriminate].
  revert features. induction IHgs as [|g gs Hg _ IH]; intros features.
  - simpl. intros [= <-]; auto.
  - rewrite convertChildren_cons.
    destruct (convertGeometry features id g properties options index) as [mid|e] eqn:Hmid;
      simpl; [|discriminate].
    intros Hout HP. eapply IH; [eassumption|]. eapply Hg; eassumption.
Qed.

Lemma convertFeatures_Forall (P : ProtoFeature.t -> Prop) (data : GeoJSON)
    (options : ConvertFeatureOptions) (out : list ProtoFeature.t) :
  (forall g features id0 properties index out,
     match g with GeometryCollection _ => False | _ => True end ->
     convertGeometry features id0 g properties options index = Js.Return out ->
     Forall P features -> Forall P out) ->
  convertFeatures data options = Js.Return out -> Forall P out.
Proof.
  intros Hleaf. rewrite convertFeatures_as_loop. intros Hout.
  eapply convertFeatures_loop_appends; [|eassumption|constructor].
  apply convertGeometry_pushes. exact Hleaf.
Qed.

End ShapeFacts.

(** X6: in whatever [convertFeatures] returns, the nesting of a
    proto-feature's geometry is the one of its kind (a flat array for
    Point, MultiPoint and LineString, an array of flat arrays for
    MultiLineString and Polygon, an array of such arrays for
    MultiPolygon), and under [lineMetrics] no proto-feature has the kind
    MultiLineString: every multi-line has been exploded. *)
Theorem kind_fixes_nesting {M : MathLib} {simplifier : Simplifier}
    (data : GeoJSON) (options : ConvertFeatureOptions) (out : list ProtoFeature.t) :
  convertFeatures data options = Js.Return out ->
  Forall (fun f =>
            nested_as_kind f = true /\
            (lineMetrics options = true -> ProtoFeature.kind f <> "MultiLineString"))
         out.
Proof.
  apply convertFeatures_Forall.
  intros g features id0 properties index out' Hg.
  destruct g as [c|c|c|c|c|c|gs|t]; try contradiction;
    cbn [convertGeometry]; destruct (resolveId options id0 properties index) as [id|e];
    simpl; try discriminate;
    try (intros [= <-] HP; apply Forall_app; split; [exact HP|];
         constructor; [|constructor]; split; [reflexivity|discriminate]).
  - destruct (lineMetrics options) eqn:Hlm; intros [= <-] HP.
    + rewrite fold_left_push. apply Forall_app; split; [exact HP|].
      rewrite Forall_map. apply Forall_forall. intros line _.
      split; [reflexivity|discriminate].
    + apply Forall_app; split; [exact HP|].
      constructor; [|constructor]. split; [reflexivity|discriminate].
  - destruct (recognized t); discriminate.
Qed.

Lemma kind_fixes_nesting_witness :
  Forall (fun f =>
            nested_as_kind f = true /\
            (true = true -> ProtoFeature.kind f <> "MultiLineString"))
    [createFeature (Js.Prim Js.Undefined) "LineString"
       (Flat (convertLine (M := Reference.engine) (simplifier := Reference.marking)
                [(0, 0); (90, 0)]%float empty (sqTolerance (M := Reference.engine)
                   {| maxZoom := 14; tolerance := 3%float; extent := 4096%float;
                      lineMetrics := true; promoteId := None; generateId := false |}) false))
       None].
Proof.
  exact (kind_fixes_nesting (M := Reference.engine) (simplifier := Reference.marking)
           (BareGeometry (MultiLineString [[(0, 0); (90, 0)]%float]))
           {| maxZoom := 14; tolerance := 3%float; extent := 4096%float;
              lineMetrics := true; promoteId := None; generateId := false |}
           _ eq_refl).
Defined.

Section AlignFacts.
Context {M : MathLib} {simplifier : Simplifier}.

Lemma convertFeatures_loop_located (options : ConvertFeatureOptions)
    (data_features : list Feature.t) :
  forallb (plain options) data_features = true ->
  forall i,
    exists out,
      convertFeatures_loop data_features i [] options = Js.Return out /\
      Forall2 (fun '(position, geojson) f =>
                 ProtoFeature.id f = expected_id options geojson (Some position) /\
                 ProtoFeature.properties f = Feature.properties geojson /\
                 option_map kind_of (Feature.geometry geojson) = Some (ProtoFeature.kind f))
              (located data_features i) out.
Proof.
  induction data_features as [|geojson rest IH]; simpl; intros Hall i.
  - exists []; split; [reflexivity|constructor].
  - apply andb_true_iff in Hall as [Hplain Hrest].
    destruct (IH Hrest (S i)) as (out & Hout & Hall2).
    unfold plain, has_geometry, convertFeature in *.
    destruct (Feature.geometry geojson) as [g|] eqn:Hg.
    + apply andb_true_iff in Hplain as [Hsingle Hread].
      destruct (readable_inv _ _ _ Hg Hread) as [_ Hres].
      destruct (Hres (Some i)) as [id Hid].
      destruct (convertGeometry_single g _ _ _ _ _ Hsingle Hid) as (f & Hf & Hcar & Hkind).
      rewrite Hf. simpl. rewrite convertFeatures_loop_acc, Hout. simpl.
      eexists; split; [reflexivity|].
      constructor; [|exact Hall2].
      apply resolveId_expected in Hid. subst id.
      destruct Hcar as (Hcid & Hcprops & _).
      rewrite Hg. simpl. rewrite Hkind. repeat split; assumption.
    + simpl. rewrite Hout. eexists; split; [reflexivity|exact Hall2].
Qed.

End AlignFacts.

(** X7: in a collection whose features have no geometry or a geometry that
    yields one proto-feature (and properties whenever [promoteId] is
    given), the proto-features returned are, in the order of the
    collection, those of the features that have a geometry: the k-th one
    has the properties and the kind of the k-th such feature and the id
    resolved for it at its position in the collection (under [promoteId]
    what [properties[promoteId]] reads, an inherited member included). In
    particular the ids generated under [generateId] are positions in the
    input, not in the output. *)
Theorem proto_features_follow_input {M : MathLib} {simplifier : Simplifier}
    (data_features : list Feature.t) (options : ConvertFeatureOptions) :
  forallb (plain options) data_features = true ->
  exists out,
    convertFeatures (FeatureCollection data_features) options = Js.Return out /\
    Forall2 (fun '(position, geojson) f =>
               ProtoFeature.id f = expected_id options geojson (Some position) /\
               ProtoFeature.properties f = Feature.properties geojson /\
               option_map kind_of (Feature.geometry geojson) = Some (ProtoFeature.kind f))
            (located data_features 0) out.
Proof. intros Hall. apply convertFeatures_loop_located. exact Hall. Qed.

Lemma proto_features_follow_input_witness :
  exists out,
    convertFeatures (M := Reference.engine) (simplifier := Reference.marking)
      (FeatureCollection
         [{| Feature.id := Js.Prim (Js.Num 7); Feature.geometry := None; Feature.properties := None |};
          {| Feature.id := Js.Prim (Js.Num 8); Feature.geometry := Some (Point (0, 0)%float);
             Feature.properties := Some [("name", Js.Str "a")] |}])
      {| maxZoom := 14; tolerance := 3%float; extent := 4096%float;
         lineMetrics := false; promoteId := None; generateId := true |}
    = Js.Return out /\
    Forall2 (fun '(position, geojson) f =>
               ProtoFeature.id f
               = expected_id
                   {| maxZoom := 14; tolerance := 3%float; extent := 4096%float;
                      lineMetrics := false; promoteId := None; generateId := true |}
                   geojson (Some position) /\
               ProtoFeature.properties f = Feature.properties geojson /\
               option_map kind_of (Feature.geometry geojson) = Some (ProtoFeature.kind f))
            [(1%nat, {| Feature.id := Js.Prim (Js.Num 8); Feature.geometry := Some (Point (0, 0)%float);
                        Feature.properties := Some [("name", Js.Str "a")] |})]
            out.
Proof.
  exact (proto_features_follow_input (M := Reference.engine) (simplifier := Reference.marking)
           [{| Feature.id := Js.Prim (Js.Num 7); Feature.geometry := None; Feature.properties := None |};
            {| Feature.id := Js.Prim (Js.Num 8); Feature.geometry := Some (Point (0, 0)%float);
               Feature.properties := Some [("name", Js.Str "a")] |}]
           {| maxZoom := 14; tolerance := 3%float; extent := 4096%float;
              lineMetrics := false; promoteId := None; generateId := true |}
           eq_refl).
Defined.

Section ShiftFacts.
Local Open Scope Z_scope.

Lemma shl_count (a b c : Z) : b mod 32 = c mod 32 -> Js.shl a b = Js.shl a c.
Proof.
  intros H. unfold Js.shl, Js.ToUint32.
  change 31 with (Z.ones 5). rewrite !Z.land_ones by lia.
  change (2 ^ 32) with (2 ^ 5 * 2 ^ 27).
  rewrite !Z.rem_mul_r by lia.
  rewrite !(Z.mul_comm (2 ^ 5)), !Z.mod_add by lia.
  rewrite !Z.mod_mod by lia.
  change (2 ^ 5) with 32. rewrite H. reflexivity.
Qed.

End ShiftFacts.

(** X8: the scale [1 << maxZoom] takes its shift count modulo 32, so the
    squared tolerance depends on [maxZoom] only through [maxZoom mod 32]:
    two zoom levels that differ by a multiple of 32 give the same squared
    tolerance. *)
Theorem squared_tolerance_period {M : MathLib}
    (z1 z2 : Z) (t e : float) (lm gi : bool) (p : option string) :
  (z1 mod 32 = z2 mod 32)%Z ->
  sqTolerance {| maxZoom := z1; tolerance := t; extent := e; lineMetrics := lm;
                 promoteId := p; generateId := gi |}
  = sqTolerance {| maxZoom := z2; tolerance := t; extent := e; lineMetrics := lm;
                   promoteId := p; generateId := gi |}.
Proof.
  intros H. unfold sqTolerance. simpl. rewrite (shl_count 1 z1 z2 H). reflexivity.
Qed.

Lemma squared_tolerance_period_witness :
  sqTolerance (M := Reference.engine)
    {| maxZoom := 46; tolerance := 3%float; extent := 4096%float; lineMetrics := false;
       promoteId := None; generateId := false |}
  = sqTolerance (M := Reference.engine)
      {| maxZoom := 14; tolerance := 3%float; extent := 4096%float; lineMetrics := false;
         promoteId := None; generateId := false |}.
Proof.
  exact (squared_tolerance_period (M := Reference.engine) 46 14 3%float 4096%float
           false false None eq_refl).
Defined.

Section LayoutFacts.
Context {M : MathLib} {simplifier : Simplifier}.

(** The slots of the [j]-th vertex among the vertices pushed for [ring]. *)
Lemma nth_error_vertices (s : float) (ring : list Position) :
  forall (j : nat) (p : Position),
    nth_error ring j = Some p ->
    nth_error (flat_map (vertex s) ring) (3 * j) = Some (Some (projectX (fst p))) /\
    nth_error (flat_map (vertex s) ring) (3 * j + 1) = Some (Some (projectY (snd p))) /\
    nth_error (flat_map (vertex s) ring) (3 * j + 2) = Some (Some s).
Proof.
  induction ring as [|q ring IH]; intros [|j] p; simpl; try discriminate.
  - intros [= ->]. repeat split.
  - intros Hp. destruct (IH j p Hp) as (Hx & Hy & Hs).
    replace (j + S (j + S (j + 0)))%nat with (S (S (3 * j)))%nat by lia.
    simpl in *. repeat split; assumption.
Qed.

(** An array of three slots is determined by its three reads. *)
Lemma array3_slots (a : Js.array) (s0 s1 s2 : option float) :
  List.length a = 3%nat ->
  Js.get a 0 = s0 -> Js.get a 1 = s1 -> Js.get a 2 = s2 ->
  a = [s0; s1; s2].
Proof.
  destruct a as [|t0 [|t1 [|t2 [|t3 a]]]]; simpl; try discriminate.
  unfold Js.get; simpl; intros _ <- <- <-; reflexivity.
Qed.

Lemma fold_convertPoint (coords : list Position) :
  forall out : FlatArray,
    fold_left (fun out p => convertPoint p out) coords out
    = {| elems := elems out ++ flat_map (vertex 0) coords;
         size := size out; start := start out; end_ := end_ out |}.
Proof.
  induction coords as [|p coords IH]; intros out; simpl.
  - rewrite app_nil_r. destruct out; reflexivity.
  - rewrite IH. simpl. unfold Js.push3. rewrite <- app_assoc. reflexivity.
Qed.

Lemma fold_convertLines (tolerance : float) (coords : list (list (list Position))) :
  forall geometry : list (list FlatArray),
    fold_left
      (fun geometry polygon => geometry ++ [convertLines polygon [] tolerance true])
      coords geometry
    = geometry
      ++ map (fun polygon => map (fun ring => convertLine ring empty tolerance true) polygon)
           coords.
Proof.
  intros geometry. rewrite fold_left_push. f_equal.
  apply map_ext. intros polygon. apply (convertLines_app polygon tolerance true []).
Qed.

End LayoutFacts.

Section VertexFacts.
Context {M : MathLib} {simplifier : Simplifier} {contract : SimplifierContract simplifier}.

(** The coordinate slots of the [j]-th vertex of a flattened line. *)
Lemma convertLine_vertex (ring : list Position) (tolerance : float) (isPolygon : bool)
    (j : nat) (p : Position) :
  nth_error ring j = Some p ->
  let line := convertLine ring empty tolerance isPolygon in
  Js.get (elems line) (Z.of_nat (3 * j)) = Some (projectX (fst p)) /\
  Js.get (elems line) (Z.of_nat (3 * j + 1)) = Some (projectY (snd p)).
Proof.
  intros Hp line.
  assert (Hj : (j < List.length ring)%nat) by (apply nth_error_Some; congruence).
  destruct (nth_error_vertices 0 ring j p Hp) as (Hx & Hy & _).
  assert (Hmx : (Z.of_nat (3 * j) mod 3 = 0)%Z).
  { rewrite Nat2Z.inj_mul, Z.mul_comm, Z.mod_mul by lia. reflexivity. }
  assert (Hmy : (Z.of_nat (3 * j + 1) mod 3 = 1)%Z).
  { rewrite Nat2Z.inj_add, Nat2Z.inj_mul, Z.add_comm, Z.mul_comm, Z.mod_add by lia.
    reflexivity. }
  assert (Hbx : (3 * j < 3 * List.length ring)%nat) by lia.
  assert (Hby : (3 * j + 1 < 3 * List.length ring)%nat) by lia.
  revert Hx Hy Hmx Hmy Hbx Hby.
  generalize (3 * j)%nat as ix, (3 * j + 1)%nat as iy.
  intros ix iy Hx Hy Hmx Hmy Hbx Hby.
  unfold line. rewrite convertLine_unfold. simpl.
  pose proof (flat_map_vertex_length 0 ring) as Hl. rewrite Hl.
  assert (Hix : (Z.of_nat ix mod 3 <> 2)%Z) by (rewrite Hmx; discriminate).
  assert (Hiy : (Z.of_nat iy mod 3 <> 2)%Z) by (rewrite Hmy; discriminate).
  assert (Hlast : ((Z.of_nat (3 * List.length ring) - 3 + 2) mod 3 = 2)%Z).
  { replace (Z.of_nat (3 * List.length ring) - 3 + 2)%Z
      with (2 + (Z.of_nat (List.length ring) - 1) * 3)%Z by lia.
    rewrite Z.mod_add by lia. reflexivity. }
  split.
  - rewrite get_set_other by (intros E; rewrite E in Hlast; congruence).
    rewrite simplify_coordinates by (rewrite Z.sub_0_r; exact Hix).
    rewrite get_set_other by (intros E; rewrite <- E in Hix; apply Hix; reflexivity).
    rewrite get_nat, Hx. reflexivity.
  - rewrite get_set_other by (intros E; rewrite E in Hlast; congruence).
    rewrite simplify_coordinates by (rewrite Z.sub_0_r; exact Hiy).
    rewrite get_set_other by (intros E; rewrite <- E in Hiy; apply Hiy; reflexivity).
    rewrite get_nat, Hy. reflexivity.
Qed.

End VertexFacts.

(** X9: the flattened array of a line or ring with at least one coordinate
    has three slots per coordinate, and the slots [3j] and [3j + 1] hold
    the projected longitude and latitude of the [j]-th coordinate: the
    conversion keeps every vertex, in order, and only the significance
    slots are the simplifier's to write (provided the simplifier keeps the
    length and the coordinates of the buffer). *)
Theorem vertices_in_order {M : MathLib} {simplifier : Simplifier}
    (contract : SimplifierContract simplifier)
    (ring : list Position) (tolerance : float) (isPolygon : bool) :
  ring <> [] ->
  let line := convertLine ring empty tolerance isPolygon in
  List.length (elems line) = (3 * List.length ring)%nat /\
  forall (j : nat) (p : Position),
    nth_error ring j = Some p ->
    Js.get (elems line) (Z.of_nat (3 * j)) = Some (projectX (fst p)) /\
    Js.get (elems line) (Z.of_nat (3 * j + 1)) = Some (projectY (snd p)).
Proof.
  intros Hne line. split; [apply convertLine_length; assumption|].
  intros j p Hp. apply convertLine_vertex. exact Hp.
Qed.

Lemma vertices_in_order_witness :
  let line :=
    convertLine (M := Reference.engine) (simplifier := Reference.marking)
      [(0, 0); (90, 0); (180, 0)]%float empty 0%float false in
  Js.get (elems line) 3 = Some 0.75%float /\ Js.get (elems line) 4 = Some 0.5%float.
Proof.
  exact (proj2 (vertices_in_order (M := Reference.engine) marking_contract
                  [(0, 0); (90, 0); (180, 0)]%float 0%float false
                  ltac:(discriminate))
               1%nat (90, 0)%float eq_refl).
Defined.

(** X10: a line or ring without coordinates does not flatten to an empty
    array: [out[2] = 1] is written on the empty array, which grows to two
    holes and a 1, while [out[last + 2]] is then the property [-1] and
    not an element. Its [size], [start] and [end] are 0. (For a
    simplifier that keeps the length and the coordinates of the buffer and
    the significance of the first end point.) *)
Theorem empty_line_is_padded {M : MathLib} {simplifier : Simplifier}
    (contract : SimplifierContract simplifier) (tolerance : float) (isPolygon : bool) :
  convertLine [] empty tolerance isPolygon
  = {| elems := [None; None; Some 1%float];
       size := Some 0%float; start := Some 0%float; end_ := Some 0%float |}.
Proof.
  rewrite convertLine_unfold. simpl.
  f_equal.
  change (Js.set [] 2 1%float) with [None; None; Some 1%float].
  change (0 - 3 + 2)%Z with (-1)%Z. change (0 - 3)%Z with (-3)%Z.
  change (Js.set ?a (-1) 1%float) with a.
  apply array3_slots.
  - rewrite simplify_length. reflexivity.
  - rewrite simplify_coordinates by (change ((0 - 0) mod 3)%Z with 0%Z; lia). reflexivity.
  - rewrite simplify_coordinates by (change ((1 - 0) mod 3)%Z with 1%Z; lia). reflexivity.
  - change 2%Z with (0 + 2)%Z at 1. rewrite simplify_first. reflexivity.
Qed.

Lemma empty_line_is_padded_witness :
  convertLine (M := Reference.engine) (simplifier := Reference.marking)
    [] empty 0%float true
  = {| elems := [None; None; Some 1%float];
       size := Some 0%float; start := Some 0%float; end_ := Some 0%float |}.
Proof.
  exact (empty_line_is_padded (M := Reference.engine) marking_contract 0%float true).
Defined.

(** X11: a Point becomes one flat array of the three slots of its vertex
    and a MultiPoint one flat array of three slots per point, in order
    (none for no point); every significance is 0 and the array has no
    [size], [start] or [end]. *)
Theorem points_are_flattened {M : MathLib} {simplifier : Simplifier}
    (features : list ProtoFeature.t) (id0 : Js.any) (properties : option Properties)
    (options : ConvertFeatureOptions) (index : option nat) :
  (forall coords,
     convertGeometry features id0 (Point coords) properties options index
     = (id <- resolveId options id0 properties index ;;
        Js.Return
          (features
           ++ [createFeature id "Point"
                 (Flat {| elems := vertex 0 coords;
                          size := None; start := None; end_ := None |})
                 properties]))) /\
  (forall coords,
     convertGeometry features id0 (MultiPoint coords) properties options index
     = (id <- resolveId options id0 properties index ;;
        Js.Return
          (features
           ++ [createFeature id "MultiPoint"
                 (Flat {| elems := flat_map (vertex 0) coords;
                          size := None; start := None; end_ := None |})
                 properties]))).
Proof.
  split; intros coords; cbn [convertGeometry]; [reflexivity|].
  rewrite fold_convertPoint. reflexivity.
Qed.

(** X12: the lines of a MultiLineString that is not exploded, the rings of
    a Polygon and the polygons of a MultiPolygon are flattened one by one
    and kept in order and number: the geometry of the proto-feature holds
    the flattened [i]-th line or ring at [i], and for a MultiPolygon the
    flattened rings of the [i]-th polygon at [i]; nothing is merged or
    left out, an empty polygon or ring included. *)
Theorem rings_are_kept {M : MathLib} {simplifier : Simplifier}
    (features : list ProtoFeature.t) (id0 : Js.any) (properties : option Properties)
    (options : ConvertFeatureOptions) (index : option nat) :
  let flatten isPolygon ring := convertLine ring empty (sqTolerance options) isPolygon in
  (forall coords,
     lineMetrics options = false ->
     convertGeometry features id0 (MultiLineString coords) properties options index
     = (id <- resolveId options id0 properties index ;;
        Js.Return
          (features
           ++ [createFeature id "MultiLineString" (Rings (map (flatten false) coords))
                 properties]))) /\
  (forall coords,
     convertGeometry features id0 (Polygon coords) properties options index
     = (id <- resolveId options id0 properties index ;;
        Js.Return
          (features
           ++ [createFeature id "Polygon" (Rings (map (flatten true) coords))
                 properties]))) /\
  (forall coords,
     convertGeometry features id0 (MultiPolygon coords) properties options index
     = (id <- resolveId options id0 properties index ;;
        Js.Return
          (features
           ++ [createFeature id "MultiPolygon"
                 (Polygons (map (map (flatten true)) coords))
                 properties]))) /\
  (forall rings out isPolygon,
     convertLines rings out (sqTolerance options) isPolygon
     = out ++ map (flatten isPolygon) rings).
Proof.
  intros flatten. repeat split.
  - intros coords Hlm. cbn [convertGeometry]. rewrite Hlm.
    rewrite (convertLines_app coords (sqTolerance options) false []). reflexivity.
  - intros coords. cbn [convertGeometry].
    rewrite (convertLines_app coords (sqTolerance options) true []). reflexivity.
  - intros coords. cbn [convertGeometry].
    rewrite (fold_convertLines (sqTolerance options) coords []). reflexivity.
  - intros rings out isPolygon. apply convertLines_app.
Qed.

Section NaNFacts.
Local Open Scope float_scope.

(** A Number that is not finite is NaN or an infinity. *)
Lemma not_finite_cases (x : float) :
  is_finite x = false -> x = nan \/ x = infinity \/ x = neg_infinity.
Proof.
  intros H. rewrite is_finite_spec in H.
  rewrite <- (SF2Prim_Prim2SF x).
  destruct (Prim2SF x) as [s|[|]| |s m e]; try discriminate; auto.
Qed.

End NaNFacts.

(** X13: the clamp of [projectY] does not catch NaN. When the latitude in
    radians, [(y * Math.PI) / 180] as computed, is not finite - the
    latitude is NaN or an infinity, or the product overflows - the sine is
    NaN and [projectY] returns NaN, whatever the engine's sine and
    logarithm do elsewhere. *)
Theorem projectY_of_non_finite {M : MathLib} (y : float) :
  (is_finite (y * Js.Math_PI / 180)%float = false -> projectY y = nan) /\
  (is_finite y = false -> projectY y = nan).
Proof.
  assert (H : is_finite (y * Js.Math_PI / 180)%float = false -> projectY y = nan).
  { intros Hr. unfold projectY.
    destruct (not_finite_cases _ Hr) as [-> | [-> | ->]]; reflexivity. }
  split; [exact H|].
  intros Hy. apply H.
  destruct (not_finite_cases _ Hy) as [-> | [-> | ->]]; reflexivity.
Qed.

Lemma projectY_of_non_finite_witness :
  projectY (M := Reference.engine) 0x1p+1023%float = nan.
Proof.
  exact (proj1 (projectY_of_non_finite (M := Reference.engine) 0x1p+1023%float) eq_refl).
Defined.

(** ** Longitudes *)

Section RoundBelow.
Local Open Scope Z_scope.

(** Rounding a mantissa below [2^(k - ex)], that is a value below [2^k],
    gives a zero or a finite number of value at most [2^k]. *)
Lemma binary_round_aux_below (sx : bool) (mx ex k : Z) (lx : location) :
  0 <= mx -> ex <= k -> -1074 <= k <= 971 -> mx < 2 ^ (k - ex) ->
  match binary_round_aux prec emax sx mx ex lx with
  | S754_zero s => s = sx
  | S754_finite s m e =>
      s = sx /\ e <= Z.max ex (fexp prec emax (k + 1)) /\ Z.pos m <= 2 ^ (k - e)
  | _ => False
  end.
Proof.
  intros Hmx Hex Hk Hlt.
  destruct (binary_round_aux_spec sx mx ex lx Hmx)
    as (m1 & e1 & m2 & m3 & e3 & He1 & Hm1 & Hm2 & He3 & Hm3 & ->).
  pose proof (Zdigits2_nonneg mx) as Hdn.
  assert (Hd : Zdigits2 mx <= k - ex) by (apply Zdigits2_le; lia).
  rewrite fexp64 in He1.
  assert (He1k : ex <= e1 <= k) by lia.
  assert (Hm1nn : 0 <= m1) by (rewrite Hm1; apply Z.div_pos; [lia|apply pow2_pos; lia]).
  assert (Hm1lt : m1 < 2 ^ (k - e1)).
  { rewrite Hm1. apply Z.div_lt_upper_bound; [apply pow2_pos; lia|].
    rewrite <- Z.pow_add_r by lia. replace (e1 - ex + (k - e1)) with (k - ex) by lia.
    exact Hlt. }
  assert (Hd2 : Zdigits2 m2 <= k - e1 + 1).
  { apply Zdigits2_le; [lia|]. split; [lia|].
    rewrite Z.pow_add_r by lia. change (2 ^ 1) with 2. lia. }
  pose proof (Zdigits2_nonneg m2) as Hd2n.
  rewrite fexp64 in He3.
  assert (He3k : e1 <= e3 <= k) by lia.
  assert (He3m : e3 <= Z.max ex (fexp prec emax (k + 1))) by (rewrite fexp64; lia).
  assert (Hm3nn : 0 <= m3) by (rewrite Hm3; apply Z.div_pos; [lia|apply pow2_pos; lia]).
  assert (Hm3le : m3 <= 2 ^ (k - e3)).
  { rewrite Hm3. apply Z.div_le_upper_bound; [apply pow2_pos; lia|].
    rewrite <- Z.pow_add_r by lia. replace (e3 - e1 + (k - e3)) with (k - e1) by lia.
    lia. }
  destruct m3 as [|p|p]; [reflexivity| |lia].
  replace (e3 <=? emax - prec) with true.
  - split; [reflexivity|]. split; assumption.
  - symmetry. apply Z.leb_le. change (emax - prec) with 971. lia.
Qed.

(** The digits of what rounding gives. *)
Lemma binary_round_aux_digits (sx : bool) (mx ex : Z) (lx : location) :
  0 <= mx ->
  match binary_round_aux prec emax sx mx ex lx with
  | S754_finite _ m e => Zdigits2 (Z.pos m) + e <= Z.max (Zdigits2 mx + ex) (-1074) + 1
  | _ => True
  end.
Proof.
  intros Hmx.
  destruct (binary_round_aux_spec sx mx ex lx Hmx)
    as (m1 & e1 & m2 & m3 & e3 & He1 & Hm1 & Hm2 & He3 & Hm3 & ->).
  pose proof (Zdigits2_nonneg mx) as Hdn.
  rewrite fexp64 in He1.
  assert (Hm1nn : 0 <= m1) by (rewrite Hm1; apply Z.div_pos; [lia|apply pow2_pos; lia]).
  assert (Hm1up : m1 < 2 ^ Z.max 0 (Zdigits2 mx - (e1 - ex))).
  { rewrite Hm1. apply shift_upper; try lia. split; [lia|]. apply Zdigits2_upper; lia. }
  assert (Hd2 : Zdigits2 m2 <= Z.max 0 (Zdigits2 mx - (e1 - ex)) + 1).
  { apply Zdigits2_le; [lia|]. split; [lia|].
    rewrite Z.pow_add_r by lia. change (2 ^ 1) with 2. lia. }
  pose proof (Zdigits2_nonneg m2) as Hd2n.
  rewrite fexp64 in He3.
  destruct m3 as [|p|p]; try exact I.
  destruct (e3 <=? emax - prec); [|exact I].
  assert (Hup : Z.pos p < 2 ^ Z.max 0 (Zdigits2 m2 - (e3 - e1))).
  { rewrite Hm3. apply shift_upper; try lia. split; [lia|]. apply Zdigits2_upper; lia. }
  assert (Hpos : 0 < Zdigits2 m2 - (e3 - e1)).
  { destruct (Z.le_gt_cases (Zdigits2 m2 - (e3 - e1)) 0) as [Hle|Hgt]; [|exact Hgt].
    rewrite Z.max_l in Hup by lia. simpl in Hup. lia. }
  assert (Hd3 : Zdigits2 (Z.pos p) <= Zdigits2 m2 - (e3 - e1)).
  { apply Zdigits2_le; [lia|]. split; [lia|]. rewrite Z.max_r in Hup by lia. exact Hup. }
  lia.
Qed.

(** [binary_round] aligns the mantissa and rounds it. *)
Lemma binary_round_value (sx : bool) (mx : positive) (ex : Z) :
  exists mz ez,
    ez = Z.min ex (fexp prec emax (Zdigits2 (Z.pos mx) + ex)) /\
    Z.pos mz = Z.pos mx * 2 ^ (ex - ez) /\
    binary_round prec emax sx mx ex = binary_round_aux prec emax sx (Z.pos mz) ez loc_Exact.
Proof.
  unfold binary_round.
  destruct (shl_align_spec mx ex (fexp prec emax (Z.pos (digits2_pos mx) + ex))) as [He Hm].
  destruct (shl_align mx ex _) as [mz ez]. cbn [fst snd] in He, Hm.
  exists mz, ez. split; [exact He|]. split; [|reflexivity].
  rewrite Hm, He. reflexivity.
Qed.

(** The quotient mantissa of a division and its exponent, exactly. *)
Lemma div_core_value (m1 e1 m2 e2 : Z) :
  0 < m1 -> 0 < m2 ->
  let r := SFdiv_core_binary prec emax m1 e1 m2 e2 in
  let e' := Z.min (fexp prec emax (Zdigits2 m1 + e1 - (Zdigits2 m2 + e2))) (e1 - e2) in
  snd (fst r) = e' /\ fst (fst r) = (m1 * 2 ^ (e1 - e2 - e')) / m2.
Proof.
  intros H1 H2. cbv zeta. unfold SFdiv_core_binary.
  set (e' := Z.min (fexp prec emax (Zdigits2 m1 + e1 - (Zdigits2 m2 + e2))) (e1 - e2)).
  set (s := e1 - e2 - e').
  set (m' := match s with Z.pos _ => Z.shiftl m1 s | 0 => m1 | Z.neg _ => 0 end).
  assert (Hs : 0 <= s) by (unfold s, e'; lia).
  assert (Hm' : m' = m1 * 2 ^ s).
  { unfold m'. destruct s as [|p|p]; [simpl; lia| |lia].
    apply Z.shiftl_mul_pow2. lia. }
  destruct (Z.div_eucl m' m2) as [q r] eqn:E. simpl.
  split; [reflexivity|].
  unfold Z.div. rewrite <- Hm', E. reflexivity.
Qed.

End RoundBelow.

Section LongitudeShapes.
Local Open Scope Z_scope.

(** Between [-c] and [c], for [c = mc * 2^ec]: a smaller exponent, or the
    same exponent and a mantissa that is not larger. *)
Lemma leb_bound_shape (sx : bool) (mx mc : positive) (ex ec : Z) :
  SFleb (S754_finite true mc ec) (S754_finite sx mx ex) = true ->
  SFleb (S754_finite sx mx ex) (S754_finite false mc ec) = true ->
  ex < ec \/ (ex = ec /\ (mx <= mc)%positive).
Proof.
  unfold SFleb, SFcompare. destruct sx.
  - intros Hlo _.
    destruct (Z.compare_spec ec ex) as [E|E|E]; try discriminate.
    + right; split; [symmetry; exact E|].
      rewrite compare_cont_Eq in Hlo.
      apply Pos.compare_ge_iff. intros Hlt. rewrite Hlt in Hlo. discriminate.
    + left. exact E.
  - intros _ Hhi.
    destruct (Z.compare_spec ex ec) as [E|E|E]; try discriminate.
    + right; split; [exact E|].
      rewrite compare_cont_Eq in Hhi.
      apply Pos.compare_le_iff. intros Hgt. rewrite Hgt in Hhi. discriminate.
    + left. exact E.
Qed.

(** A finite number below 180 in magnitude, divided by 360, is a zero or
    a finite number of magnitude at most 1/2. *)
Lemma div_360_below (s : bool) (m : positive) (e : Z) :
  e <= -45 -> Z.pos m < 45 * 2 ^ (2 - e) ->
  match SFdiv prec emax (S754_finite s m e) (S754_finite false 6333186975989760 (-44)) with
  | S754_zero _ => True
  | S754_finite _ mr er => er <= -1 /\ Z.pos mr <= 2 ^ (-1 - er)
  | _ => False
  end.
Proof.
  intros He Hm. unfold SFdiv.
  pose proof (div_core_value (Z.pos m) e (Z.pos 6333186975989760) (-44)
                ltac:(lia) ltac:(lia)) as Hv.
  destruct (SFdiv_core_binary prec emax (Z.pos m) e (Z.pos 6333186975989760) (-44))
    as [[q e'] l].
  cbv zeta in Hv. cbn [fst snd] in Hv. destruct Hv as [He' Hq].
  rewrite <- He' in Hq.
  change (Zdigits2 (Z.pos 6333186975989760)) with 53 in He'.
  assert (He'1 : e' <= e + 44) by (rewrite He'; lia).
  assert (Hs : 0 <= e - -44 - e') by lia.
  set (s' := e - -44 - e') in *.
  change (Z.pos 6333186975989760) with (45 * 2 ^ 47) in Hq.
  assert (H47 : 0 < 45 * 2 ^ 47) by reflexivity.
  assert (Hqnn : 0 <= q).
  { rewrite Hq. apply Z.div_pos; [|exact H47].
    pose proof (pow2_pos s' Hs). apply Z.mul_nonneg_nonneg; lia. }
  assert (Hqlt : q < 2 ^ (-1 - e')).
  { rewrite Hq. apply Z.div_lt_upper_bound; [exact H47|].
    pose proof (pow2_pos s' Hs) as Hp.
    apply Z.lt_le_trans with (45 * 2 ^ (2 - e) * 2 ^ s').
    - apply Z.mul_lt_mono_pos_r; assumption.
    - rewrite <- !Z.mul_assoc, <- !Z.pow_add_r by lia.
      replace (2 - e + s') with (47 + (-1 - e')) by (unfold s'; lia).
      lia. }
  clear Hq.
  pose proof (binary_round_aux_below (xorb s false) q e' (-1) l Hqnn ltac:(lia) ltac:(lia) Hqlt)
    as H.
  destruct (binary_round_aux prec emax (xorb s false) q e' l) as [b|b| |sr mr er];
    try contradiction; [exact I|].
  destruct H as (_ & Her & Hmr).
  change (fexp prec emax (-1 + 1)) with (-53) in Her.
  split; [lia|exact Hmr].
Qed.

(** The aligned sum of a half [h] and a mantissa [a] of at most a half. *)
Lemma half_sum_bounds (sr : bool) (a h w : Z) :
  0 < a -> a <= h -> (sr = false -> a < h) -> 0 < h -> w = 2 * h ->
  0 <= cond_Zopp sr a + cond_Zopp false h < w.
Proof.
  intros Ha Hle Hlt Hh Hw. destruct sr; cbv beta iota delta [cond_Zopp].
  - clear Hlt. lia.
  - specialize (Hlt eq_refl). lia.
Qed.

(** Half plus a finite number of magnitude at most 1/2, the value 1/2
    itself left aside, is +0 or a positive finite number at most 1. *)
Lemma add_half_below (sr : bool) (mr : positive) (er : Z) :
  er <= -1 -> Z.pos mr <= 2 ^ (-1 - er) ->
  (sr = false -> Z.pos mr < 2 ^ (-1 - er)) ->
  SFunit (SFadd prec emax (S754_finite sr mr er) (S754_finite false 4503599627370496 (-53))).
Proof.
  intros Her Hmr Hstrict. unfold SFunit, SFadd. cbv zeta.
  set (ez := Z.min er (-53)).
  destruct (shl_align_spec mr er ez) as [_ Hr].
  destruct (shl_align_spec 4503599627370496 (-53) ez) as [_ Hh].
  replace (Z.min er ez) with ez in Hr by (unfold ez; lia).
  replace (Z.min (-53) ez) with ez in Hh by (unfold ez; lia).
  rewrite Hr, Hh. clear Hr Hh.
  change (Z.pos 4503599627370496) with (2 ^ 52).
  assert (Hez : ez <= -53) by (unfold ez; lia).
  assert (Hezr : ez <= er) by (unfold ez; lia).
  assert (Hhalf : 2 ^ 52 * 2 ^ (-53 - ez) = 2 ^ (-1 - ez)).
  { rewrite <- Z.pow_add_r by lia. f_equal. lia. }
  rewrite Hhalf. clear Hhalf.
  pose proof (pow2_pos (er - ez) ltac:(lia)) as Hp.
  pose proof (pow2_pos (-1 - ez) ltac:(lia)) as Hph.
  assert (Hsplit : 2 ^ (-1 - er) * 2 ^ (er - ez) = 2 ^ (-1 - ez)).
  { rewrite <- Z.pow_add_r by lia. f_equal. lia. }
  assert (Hle : Z.pos mr * 2 ^ (er - ez) <= 2 ^ (-1 - ez)).
  { rewrite <- Hsplit. apply Z.mul_le_mono_nonneg_r; lia. }
  assert (Hdouble : 2 ^ (- ez) = 2 * 2 ^ (-1 - ez)).
  { replace (- ez) with (1 + (-1 - ez)) by lia. rewrite Z.pow_add_r by lia. reflexivity. }
  assert (Hlt : sr = false -> Z.pos mr * 2 ^ (er - ez) < 2 ^ (-1 - ez)).
  { intros Hsr. rewrite <- Hsplit. apply Z.mul_lt_mono_pos_r; [exact Hp|].
    apply Hstrict. exact Hsr. }
  assert (Ha : 0 < Z.pos mr * 2 ^ (er - ez)) by (apply Z.mul_pos_pos; [reflexivity|exact Hp]).
  pose proof (half_sum_bounds sr _ _ _ Ha Hle Hlt Hph Hdouble) as Hsum.
  revert Hsum.
  generalize (cond_Zopp sr (Z.pos mr * 2 ^ (er - ez)) + cond_Zopp false (2 ^ (-1 - ez))) as sum.
  intros sum Hsum. clear Hle Hlt Ha Hsplit Hstrict Hmr Hp Hdouble Hph.
  destruct sum as [|p|p]; simpl binary_normalize; [reflexivity| |lia].
  destruct (binary_round_value false p ez) as (mz & ez2 & Hez2 & Hmz & ->).
  rewrite fexp64 in Hez2.
  assert (Hlt : Z.pos mz < 2 ^ (0 - ez2)).
  { rewrite Hmz.
    apply Z.lt_le_trans with (2 ^ (- ez) * 2 ^ (ez - ez2)).
    - apply Z.mul_lt_mono_pos_r; [apply pow2_pos; lia|lia].
    - rewrite <- Z.pow_add_r by lia. replace (- ez + (ez - ez2)) with (0 - ez2) by lia. lia. }
  pose proof (binary_round_aux_below false (Z.pos mz) ez2 0 loc_Exact
                ltac:(lia) ltac:(lia) ltac:(lia) Hlt) as H.
  destruct (binary_round_aux prec emax false (Z.pos mz) ez2 loc_Exact) as [b|b| |s m e];
    try contradiction; [exact H|].
  destruct H as (Hs & He & Hm).
  change (fexp prec emax (0 + 1)) with (-52) in He.
  split; [exact Hs|]. split; [lia|]. rewrite Z.sub_0_l in Hm. exact Hm.
Qed.

(** A valid finite number of value exactly 1/2 is the Number 0.5. *)
Lemma half_canonical (s : bool) (m : positive) (e : Z) :
  valid_binary (S754_finite s m e) = true ->
  e <= -1 -> Z.pos m = 2 ^ (-1 - e) ->
  e = -53 /\ m = 4503599627370496%positive.
Proof.
  intros Hvalid He Hm.
  change (bounded prec emax m e = true) in Hvalid.
  unfold bounded, canonical_mantissa in Hvalid.
  apply andb_true_iff in Hvalid as [Hcanon _].
  apply Z.eqb_eq in Hcanon. rewrite fexp64 in Hcanon.
  change (Z.pos (digits2_pos m)) with (Zdigits2 (Z.pos m)) in Hcanon.
  assert (Hd : Zdigits2 (Z.pos m) = - e).
  { apply Zdigits2_unique; [|lia]. rewrite Hm.
    replace (- e - 1) with (-1 - e) by lia. split; [lia|].
    apply Z.pow_lt_mono_r; lia. }
  rewrite Hd in Hcanon.
  assert (He53 : e = -53) by lia.
  split; [exact He53|].
  subst e. change (2 ^ (-1 - -53)) with (Z.pos 4503599627370496) in Hm.
  injection Hm as ->. reflexivity.
Qed.

End LongitudeShapes.

Section LongitudeFloat.
Local Open Scope float_scope.

Lemma SF_360 : Prim2SF 360 = S754_finite false 6333186975989760 (-44).
Proof. vm_compute. reflexivity. Qed.

(** A positive finite number [m * 2^e] with [e <= ec] and [m <= mc] at
    [e = ec] is at most [mc * 2^ec]. *)
Lemma SFleb_of_shape (m mc : positive) (e ec : Z) :
  (e <= ec)%Z -> (e = ec -> (Z.pos m <= Z.pos mc)%Z) ->
  SFleb (S754_finite false m e) (S754_finite false mc ec) = true.
Proof.
  intros He Hm. unfold SFleb, SFcompare.
  destruct (Z.compare_spec e ec) as [E|E|E]; [|reflexivity|exfalso; lia].
  rewrite compare_cont_Eq. specialize (Hm E). unfold Z.le in Hm. cbn [Z.compare] in Hm.
  destruct (m ?= mc)%positive; try reflexivity. contradiction Hm; reflexivity.
Qed.

Lemma pow2_52 : (2 ^ 52 = Z.pos 4503599627370496)%Z.
Proof. reflexivity. Qed.

Lemma pow2_47 : (45 * 2 ^ 47 = Z.pos 6333186975989760)%Z.
Proof. reflexivity. Qed.

Lemma pow2_53 : (2 ^ 53 = Z.pos 9007199254740992)%Z.
Proof. reflexivity. Qed.

(** What is at most 1 and not negative, as [projectX] returns it. *)
Lemma unit_of_shape (r : float) :
  SFunit (Prim2SF r) -> (0 <=? r) && (r <=? 1) = true.
Proof.
  rewrite zero_leb_spec, leb_spec, SF_one. unfold SFone, SFunit.
  destruct (Prim2SF r) as [s|s| |s m e]; try contradiction.
  - intros ->. reflexivity.
  - intros (-> & He & Hm). simpl andb.
    apply SFleb_of_shape; [exact He|].
    intros ->. change (- (-52))%Z with 52%Z in Hm. rewrite pow2_52 in Hm. exact Hm.
Qed.

Lemma SFunit_half : SFunit (S754_finite false 4503599627370496 (-53)).
Proof.
  split; [reflexivity|]. split; [discriminate|].
  change (- -53)%Z with 53%Z. rewrite pow2_53. discriminate.
Qed.

Lemma SFunit_one : SFunit (S754_finite false 4503599627370496 (-52)).
Proof.
  split; [reflexivity|]. split; [discriminate|].
  change (- -52)%Z with 52%Z. rewrite pow2_52. discriminate.
Qed.

Lemma SFunit_zero : SFunit (S754_zero false).
Proof. reflexivity. Qed.

Lemma SFadd_half (r : float) :
  Prim2SF (r + 0.5) = SFadd prec emax (Prim2SF r) (S754_finite false 4503599627370496 (-53)).
Proof. rewrite add_spec, SF_half. reflexivity. Qed.

(** Longitudes from -180 to 180 are projected into [0, 1]. *)
Lemma projectX_unit (x : float) :
  (-180 <=? x) && (x <=? 180) = true ->
  (0 <=? projectX x) && (projectX x <=? 1) = true.
Proof.
  intros Hrange. apply andb_true_iff in Hrange as [Hlo Hhi].
  rewrite leb_spec in Hlo, Hhi. rewrite SF_180 in Hhi.
  change (Prim2SF (-180)) with (S754_finite true 6333186975989760 (-45)) in Hlo.
  pose proof (Prim2SF_valid x) as Hvalid.
  pose proof (Prim2SF_valid (x / 360)) as Hvalidr.
  pose proof (div_spec x 360) as Hdiv. rewrite SF_360 in Hdiv.
  unfold projectX. apply unit_of_shape. rewrite SFadd_half.
  destruct (Prim2SF x) as [b|b| |s m e] eqn:Ex.
  - rewrite Hdiv. destruct b; exact SFunit_half.
  - destruct b; discriminate.
  - discriminate.
  - destruct (valid_finite_digits s m e Hvalid) as [Hd _].
    assert (Hm53 : (Z.pos m < 2 ^ 53)%Z).
    { eapply Z.lt_le_trans; [apply Zdigits2_upper; apply Pos2Z.is_nonneg|].
      apply Z.pow_le_mono_r; [reflexivity|exact Hd]. }
    assert (Hcases : (e = (-45)%Z /\ m = 6333186975989760%positive)
                     \/ ((e <= -45)%Z /\ (Z.pos m < 45 * 2 ^ (2 - e))%Z)).
    { destruct (leb_bound_shape s m 6333186975989760 e (-45) Hlo Hhi) as [Hlt|[-> Hle]].
      - right. split; [apply Z.lt_le_incl; exact Hlt|].
        eapply Z.lt_le_trans; [exact Hm53|].
        apply Z.le_trans with (45 * 2 ^ 48)%Z; [discriminate|].
        apply Z.mul_le_mono_nonneg_l; [discriminate|].
        apply Z.pow_le_mono_r; [reflexivity|]. clear Hm53 Hlo Hhi Hvalid Hvalidr Hdiv Hd. lia.
      - destruct (Pos.eq_dec m 6333186975989760) as [->|Hne]; [left; split; reflexivity|].
        right. split; [reflexivity|].
        change (2 - -45)%Z with 47%Z. rewrite pow2_47.
        apply Pos2Z.pos_lt_pos. apply Pos.le_lteq in Hle.
        destruct Hle as [Hle|Hle]; [exact Hle|contradiction]. }
    clear Hlo Hhi.
    clear Hm53 Hd.
    destruct Hcases as [[-> ->]|[He Hm]].
    + rewrite Hdiv. destruct s.
      * assert (E : SFadd prec emax
                      (SF64div (S754_finite true 6333186975989760 (-45))
                         (S754_finite false 6333186975989760 (-44)))
                      (S754_finite false 4503599627370496 (-53))
                    = S754_zero false) by (vm_compute; reflexivity).
        rewrite E. exact SFunit_zero.
      * assert (E : SFadd prec emax
                      (SF64div (S754_finite false 6333186975989760 (-45))
                         (S754_finite false 6333186975989760 (-44)))
                      (S754_finite false 4503599627370496 (-53))
                    = S754_finite false 4503599627370496 (-52)) by (vm_compute; reflexivity).
        rewrite E. exact SFunit_one.
    + pose proof (div_360_below s m e He Hm) as Hr.
      rewrite <- Ex in Hdiv. rewrite Ex in Hdiv. unfold SF64div in Hdiv.
      rewrite <- Hdiv in Hr. rewrite Hdiv in Hvalidr.
      rewrite <- Hdiv in Hvalidr.
      destruct (Prim2SF (x / 360)) as [b|b| |sr mr er]; try contradiction.
      * destruct b; exact SFunit_half.
      * destruct Hr as [Her Hmr].
        destruct (Z.eq_dec (Z.pos mr) (2 ^ (-1 - er))) as [Heq|Hne].
        -- destruct (half_canonical sr mr er Hvalidr Her Heq) as [-> ->].
           destruct sr.
           ++ assert (E : SFadd prec emax (S754_finite true 4503599627370496 (-53))
                            (S754_finite false 4503599627370496 (-53))
                          = S754_zero false) by (vm_compute; reflexivity).
              rewrite E. exact SFunit_zero.
           ++ assert (E : SFadd prec emax (S754_finite false 4503599627370496 (-53))
                            (S754_finite false 4503599627370496 (-53))
                          = S754_finite false 4503599627370496 (-52))
                by (vm_compute; reflexivity).
              rewrite E. exact SFunit_one.
        -- apply add_half_below; [exact Her|exact Hmr|]. intros _. lia.
Qed.

End LongitudeFloat.

Section LongitudeTotal.
Local Open Scope Z_scope.

(** Adding a finite number keeps a number a number. *)
Lemma SFadd_number (x : spec_float) (sy : bool) (my : positive) (ey : Z) :
  SFnumber x -> SFnumber (SFadd prec emax x (S754_finite sy my ey)).
Proof.
  destruct x as [s|s| |s m e]; try (simpl; auto; fail). intros _.
  unfold SFadd.
  match goal with |- SFnumber (binary_normalize prec emax ?z ?e false) =>
    pose proof (binary_normalize_signed z e) as H;
    destruct (binary_normalize prec emax z e false); simpl; auto
  end.
Qed.

(** A finite number divided by 360 is a zero or a finite number below 2^1017. *)
Lemma div_360_finite (s : bool) (m : positive) (e : Z) :
  valid_binary (S754_finite s m e) = true ->
  match SFdiv prec emax (S754_finite s m e) (S754_finite false 6333186975989760 (-44)) with
  | S754_zero _ => True
  | S754_finite _ mr er => Zdigits2 (Z.pos mr) + er <= 1017
  | _ => False
  end.
Proof.
  intros Hvalid. destruct (valid_finite_digits s m e Hvalid) as [Hd He].
  unfold SFdiv.
  pose proof (div_core_bounds (Z.pos m) e (Z.pos 6333186975989760) (-44)
                ltac:(reflexivity) ltac:(reflexivity)) as Hb.
  destruct (SFdiv_core_binary prec emax (Z.pos m) e (Z.pos 6333186975989760) (-44))
    as [[q e'] l].
  cbv zeta in Hb. cbn [fst snd] in Hb. destruct Hb as (Hq & He' & Hdq).
  change (Zdigits2 (Z.pos 6333186975989760)) with 53 in He', Hdq.
  rewrite fexp64 in He'.
  pose proof (Zdigits2_nonneg (Z.pos m)) as Hdn.
  clear Hvalid.
  pose proof (binary_round_aux_no_overflow (xorb s false) q e' l Hq ltac:(lia) ltac:(lia)) as H1.
  pose proof (binary_round_aux_digits (xorb s false) q e' l Hq) as H2.
  destruct (binary_round_aux prec emax (xorb s false) q e' l) as [b|b| |sr mr er];
    try contradiction; [exact I|].
  lia.
Qed.

(** Half added to a finite number below 2^1017 does not overflow. *)
Lemma add_half_finite (sr : bool) (mr : positive) (er : Z) :
  Zdigits2 (Z.pos mr) + er <= 1017 ->
  match SFadd prec emax (S754_finite sr mr er) (S754_finite false 4503599627370496 (-53)) with
  | S754_zero _ | S754_finite _ _ _ => True
  | _ => False
  end.
Proof.
  intros Hd. unfold SFadd. cbv zeta.
  set (ez := Z.min er (-53)).
  destruct (shl_align_spec mr er ez) as [_ Hr].
  destruct (shl_align_spec 4503599627370496 (-53) ez) as [_ Hh].
  replace (Z.min er ez) with ez in Hr by (unfold ez; lia).
  replace (Z.min (-53) ez) with ez in Hh by (unfold ez; lia).
  rewrite Hr, Hh. clear Hr Hh.
  rewrite <- pow2_52.
  assert (Hez : ez <= -53) by (unfold ez; lia).
  assert (Hezr : ez <= er) by (unfold ez; lia).
  clearbody ez.
  assert (Hhalf : 2 ^ 52 * 2 ^ (-53 - ez) = 2 ^ (-1 - ez)).
  { rewrite <- Z.pow_add_r by lia. f_equal. lia. }
  rewrite Hhalf. clear Hhalf.
  pose proof (Zdigits2_nonneg (Z.pos mr)) as Hdn.
  set (D := Z.max (Zdigits2 (Z.pos mr) + er) 0).
  assert (HD : 0 <= D <= 1017) by (unfold D; lia).
  assert (Ha : 0 < Z.pos mr * 2 ^ (er - ez) < 2 ^ (D - ez)).
  { pose proof (pow2_pos (er - ez) ltac:(lia)) as Hp.
    split; [apply Z.mul_pos_pos; [reflexivity|exact Hp]|].
    apply Z.lt_le_trans with (2 ^ Zdigits2 (Z.pos mr) * 2 ^ (er - ez)).
    - apply Z.mul_lt_mono_pos_r; [exact Hp|]. apply Zdigits2_upper. apply Pos2Z.is_nonneg.
    - rewrite <- Z.pow_add_r by lia. apply Z.pow_le_mono_r; [reflexivity|]. unfold D. lia. }
  assert (Hh : 0 < 2 ^ (-1 - ez) < 2 ^ (D - ez)).
  { split; [apply pow2_pos; lia|]. apply Z.pow_lt_mono_r; lia. }
  assert (Hdouble : 2 ^ (D - ez + 1) = 2 * 2 ^ (D - ez)).
  { rewrite Z.pow_add_r by lia. change (2 ^ 1) with 2. lia. }
  revert Ha Hh Hdouble.
  generalize (Z.pos mr * 2 ^ (er - ez)) as a, (2 ^ (-1 - ez)) as h, (2 ^ (D - ez)) as w.
  intros a h w Ha Hh Hdouble.
  assert (Hsum : Z.abs (cond_Zopp sr a + cond_Zopp false h) < 2 ^ (D - ez + 1)).
  { rewrite Hdouble. destruct sr; cbv beta iota delta [cond_Zopp]; lia. }
  revert Hsum. generalize (cond_Zopp sr a + cond_Zopp false h) as sum.
  intros sum Hsum. clear Ha Hh Hdouble a h w.
  assert (Hround : forall (sx : bool) (p : positive),
             Z.pos p < 2 ^ (D - ez + 1) ->
             match binary_round prec emax sx p ez with
             | S754_zero _ | S754_finite _ _ _ => True
             | _ => False
             end).
  { intros sx p Hp.
    destruct (binary_round_spec sx p ez) as (mz & ez2 & Hez2 & Hdz & ->).
    rewrite fexp64 in Hez2.
    assert (Hdp : Zdigits2 (Z.pos p) <= D - ez + 1).
    { apply Zdigits2_le; [lia|]. split; [apply Pos2Z.is_nonneg|exact Hp]. }
    apply binary_round_aux_no_overflow; [apply Pos2Z.is_nonneg|lia|lia]. }
  destruct sum as [|p|p]; simpl binary_normalize; [exact I| |].
  - apply Hround. exact Hsum.
  - apply Hround. exact Hsum.
Qed.

End LongitudeTotal.

Section LongitudeTotalFloat.
Local Open Scope float_scope.

(** [projectX] gives NaN for NaN only. *)
Lemma projectX_nan (x : float) : is_nan (projectX x) = is_nan x.
Proof.
  unfold projectX. rewrite !is_nan_spec, SFadd_half, div_spec, SF_360.
  destruct (Prim2SF x) as [b|b| |s m e] eqn:Ex; try reflexivity.
  pose proof (SFdiv_number (S754_finite s m e) false 6333186975989760 (-44) I) as Hr.
  apply (SFadd_number _ false 4503599627370496 (-53)) in Hr.
  unfold SF64div.
  destruct (SFadd prec emax _ _); simpl in Hr; try reflexivity. contradiction.
Qed.

(** [projectX] of a finite longitude is finite. *)
Lemma projectX_finite (x : float) : is_finite x = true -> is_finite (projectX x) = true.
Proof.
  unfold projectX. rewrite !is_finite_spec, SFadd_half, div_spec, SF_360.
  pose proof (Prim2SF_valid x) as Hvalid.
  destruct (Prim2SF x) as [b|b| |s m e] eqn:Ex; try discriminate; intros _.
  - reflexivity.
  - pose proof (div_360_finite s m e Hvalid) as Hr. unfold SF64div.
    destruct (SFdiv prec emax _ _) as [b|b| |sr mr er]; try contradiction.
    + reflexivity.
    + pose proof (add_half_finite sr mr er Hr) as Hs.
      destruct (SFadd prec emax _ _); try contradiction; reflexivity.
Qed.

End LongitudeTotalFloat.

(** X14: [projectX] maps the longitudes from -180 to 180 into [0, 1],
    roundings included: -180 gives exactly 0, 0 gives 0.5 and 180 exactly
    1, and every longitude between them a value from 0 to 1. *)
Theorem projectX_range (x : float) :
  ((-180 <=? x) && (x <=? 180) = true ->
   (0 <=? projectX x) && (projectX x <=? 1) = true)%float /\
  projectX (-180) = 0%float /\ projectX 0 = 0.5%float /\ projectX 180 = 1%float.
Proof.
  split; [apply projectX_unit|]. repeat split.
Qed.

Lemma projectX_range_witness :
  ((0 <=? projectX 90) && (projectX 90 <=? 1))%float = true.
Proof.
  exact (proj1 (projectX_range 90%float) eq_refl).
Defined.

(** X15: [projectX] is total on the Numbers without a clamp: a finite
    longitude, however large, gives a finite value (the division by 360
    leaves room for the 0.5), and the result is NaN only for NaN. *)
Theorem projectX_total (x : float) :
  (is_finite x = true -> is_finite (projectX x) = true) /\
  is_nan (projectX x) = is_nan x.
Proof.
  split; [apply projectX_finite|apply projectX_nan].
Qed.

Lemma projectX_total_witness :
  is_finite (projectX 0x1.fffffffffffffp+1023%float) = true.
Proof.
  exact (proj1 (projectX_total 0x1.fffffffffffffp+1023%float) eq_refl).
Defined.

(** X16: the coordinates of the globe are flattened into the unit square:
    for a line or ring whose longitudes lie from -180 to 180 and whose
    latitudes are below 2^1020 in magnitude, the [x] and [y] slots of
    every vertex of the flattened array hold Numbers from 0 to 1 (for an
    engine whose sine stays within [-1, 1] and whose logarithm of a
    positive finite number is a number, and a simplifier that does not
    write coordinates). *)
Theorem flattened_in_unit_square {M : MathLib} {simplifier : Simplifier}
    (sound : MathLibSound M) (contract : SimplifierContract simplifier)
    (ring : list Position) (tolerance : float) (isPolygon : bool) :
  forallb on_globe ring = true ->
  let line := convertLine ring empty tolerance isPolygon in
  forall j : nat,
    (j < List.length ring)%nat ->
    in_unit (Js.get (elems line) (Z.of_nat (3 * j))) /\
    in_unit (Js.get (elems line) (Z.of_nat (3 * j + 1))).
Proof.
  intros Hglobe line j Hj.
  destruct (nth_error ring j) as [p|] eqn:Hp.
  2:{ apply nth_error_None in Hp. lia. }
  assert (Hon : on_globe p = true).
  { rewrite forallb_forall in Hglobe. apply Hglobe. eapply nth_error_In. exact Hp. }
  unfold on_globe in Hon.
  apply andb_true_iff in Hon as [Hlon Hlat].
  destruct (convertLine_vertex ring tolerance isPolygon j p Hp) as [Hx Hy].
  fold line in Hx, Hy. rewrite Hx, Hy. split.
  - exists (projectX (fst p)). split; [reflexivity|]. apply projectX_unit. exact Hlon.
  - exists (projectY (snd p)). split; [reflexivity|].
    apply projectY_unit. apply radians_finite. exact Hlat.
Qed.

Lemma flattened_in_unit_square_witness :
  let line :=
    convertLine (M := Reference.engine) (simplifier := Reference.marking)
      [(-180, 85); (0, 0); (180, -85)]%float empty 0%float true in
  in_unit (Js.get (elems line) 6) /\ in_unit (Js.get (elems line) 7).
Proof.
  exact (flattened_in_unit_square (M := Reference.engine) reference_sound marking_contract
           [(-180, 85); (0, 0); (180, -85)]%float 0%float true eq_refl 2%nat
           ltac:(simpl; lia)).
Defined.

(** * Properties of the WMS request URLs *)

Section TextFacts.

Lemma append_assoc (a b c : string) : ((a ++ b) ++ c = a ++ (b ++ c))%string.
Proof. induction a as [|x a IH]; simpl; [reflexivity|]. rewrite IH; reflexivity. Qed.

Lemma append_nil_r (a : string) : (a ++ "" = a)%string.
Proof. induction a as [|x a IH]; simpl; [reflexivity|]. rewrite IH; reflexivity. Qed.

Lemma concat_cons (sep x : string) (l : list string) :
  l <> [] -> String.concat sep (x :: l) = (x ++ sep ++ String.concat sep l)%string.
Proof. destruct l; [congruence|reflexivity]. Qed.

End TextFacts.

Section ObjectFacts.

Lemma get_define (o : Wms.object) (k : string) (v : Wms.value) (k' : string) :
  Wms.get (Wms.define o k v) k' = if String.eqb k k' then v else Wms.get o k'.
Proof.
  induction o as [|[k0 v0] o IH]; simpl; [reflexivity|].
  destruct (String.eqb_spec k0 k) as [->|Hne]; simpl.
  - destruct (String.eqb k k'); reflexivity.
  - rewrite IH. destruct (String.eqb_spec k0 k') as [->|Hne']; [|reflexivity].
    destruct (String.eqb_spec k k'); [congruence|reflexivity].
Qed.

Lemma has_cons (k0 : string) (v0 : Wms.value) (o : Wms.object) (k : string) :
  Wms.has ((k0, v0) :: o) k = String.eqb k k0 || Wms.has o k.
Proof. reflexivity. Qed.

Lemma has_app (a b : Wms.object) (k : string) :
  Wms.has (a ++ b) k = Wms.has a k || Wms.has b k.
Proof. unfold Wms.has. rewrite map_app, existsb_app. reflexivity. Qed.

Lemma has_define (o : Wms.object) (k : string) (v : Wms.value) (k' : string) :
  Wms.has (Wms.define o k v) k' = Wms.has o k' || String.eqb k' k.
Proof.
  induction o as [|[k0 v0] o IH]; simpl.
  - unfold Wms.has; simpl. rewrite orb_false_r. reflexivity.
  - destruct (String.eqb_spec k0 k) as [->|Hne].
    + rewrite !has_cons. destruct (String.eqb k' k), (Wms.has o k'); reflexivity.
    + rewrite !has_cons, IH. destruct (String.eqb k' k0), (Wms.has o k'); reflexivity.
Qed.

Lemma has_In (o : Wms.object) (k : string) :
  Wms.has o k = true <-> In k (map fst o).
Proof.
  unfold Wms.has. rewrite existsb_exists. split.
  - intros (x & Hin & Heq). apply String.eqb_eq in Heq. subst x. exact Hin.
  - intros Hin. exists k. split; [exact Hin|apply String.eqb_refl].
Qed.

Lemma get_missing (o : Wms.object) (k : string) :
  Wms.has o k = false -> Wms.get o k = Wms.undefined.
Proof.
  induction o as [|[k0 v0] o IH]; simpl; [reflexivity|].
  rewrite has_cons. rewrite (String.eqb_sym k k0).
  destruct (String.eqb k0 k); simpl; [discriminate|exact IH].
Qed.

(** A property that exists keeps its place, a new one comes last. *)
Lemma define_has (o : Wms.object) (k : string) (v : Wms.value) :
  Wms.has o k = true -> map fst (Wms.define o k v) = map fst o.
Proof.
  induction o as [|[k0 v0] o IH]; simpl; [discriminate|].
  rewrite has_cons. destruct (String.eqb_spec k0 k) as [->|Hne]; [reflexivity|].
  destruct (String.eqb_spec k k0) as [->|_]; [congruence|]. simpl.
  intros H. rewrite IH by exact H. reflexivity.
Qed.

Lemma define_fresh (o : Wms.object) (k : string) (v : Wms.value) :
  Wms.has o k = false -> Wms.define o k v = o ++ [(k, v)].
Proof.
  induction o as [|[k0 v0] o IH]; simpl; [reflexivity|].
  rewrite has_cons. destruct (String.eqb_spec k0 k) as [->|Hne].
  - rewrite String.eqb_refl. discriminate.
  - destruct (String.eqb k k0); [discriminate|]. simpl.
    intros H. rewrite IH by exact H. reflexivity.
Qed.

Lemma has_defines (l : list (string * Wms.value)) :
  forall t k, Wms.has (defines t l) k = Wms.has t k || Wms.has l k.
Proof.
  induction l as [|[k0 v0] l IH]; intros t k; simpl.
  - unfold Wms.has at 2; simpl. rewrite orb_false_r. reflexivity.
  - unfold defines in *. simpl. rewrite IH, has_define, has_cons.
    destruct (Wms.has t k), (String.eqb k k0), (Wms.has l k); reflexivity.
Qed.

(** The last definition of a key wins; with each key once, that is the
    definition in [l] if there is one. *)
Lemma get_defines (l : list (string * Wms.value)) :
  distinct_keys l ->
  forall t k, Wms.get (defines t l) k = if Wms.has l k then Wms.get l k else Wms.get t k.
Proof.
  unfold distinct_keys.
  induction l as [|[k0 v0] l IH]; intros Hnd t k; simpl; [reflexivity|].
  inversion Hnd as [|? ? Hnotin Hnd']; subst.
  unfold defines in *. simpl. rewrite (IH Hnd'), get_define, has_cons.
  destruct (Wms.has l k) eqn:Hl.
  - destruct (String.eqb_spec k k0) as [->|Hne]; simpl.
    + apply has_In in Hl. contradiction.
    + destruct (String.eqb_spec k0 k); [congruence|reflexivity].
  - rewrite orb_false_r, (String.eqb_sym k k0).
    destruct (String.eqb k0 k); reflexivity.
Qed.

(** New keys are appended in the order of their definition. *)
Lemma defines_fresh (l : list (string * Wms.value)) :
  distinct_keys l ->
  forall t, (forall k, Wms.has l k = true -> Wms.has t k = false) -> defines t l = t ++ l.
Proof.
  unfold distinct_keys.
  induction l as [|[k0 v0] l IH]; intros Hnd t Hfresh; simpl.
  - rewrite app_nil_r. reflexivity.
  - inversion Hnd as [|? ? Hnotin Hnd']; subst.
    unfold defines in *. simpl.
    rewrite define_fresh by (apply Hfresh; rewrite has_cons, String.eqb_refl; reflexivity).
    rewrite (IH Hnd').
    + rewrite <- app_assoc. reflexivity.
    + intros k Hk. rewrite has_app, (Hfresh k).
      * simpl. rewrite has_cons. unfold Wms.has at 1. simpl. rewrite orb_false_r.
        destruct (String.eqb_spec k k0) as [->|_]; [|reflexivity].
        apply has_In in Hk. contradiction.
      * rewrite has_cons, Hk. apply orb_true_r.
Qed.

(** The keys of the target keep their places at the front. *)
Lemma defines_keys (l : list (string * Wms.value)) :
  forall t, exists rest, map fst (defines t l) = map fst t ++ rest.
Proof.
  induction l as [|[k0 v0] l IH]; intros t; simpl.
  - exists []. rewrite app_nil_r. reflexivity.
  - unfold defines in *. simpl.
    destruct (IH (Wms.define t k0 v0)) as [rest Hrest]. rewrite Hrest.
    destruct (Wms.has t k0) eqn:Hhas.
    + rewrite define_has by exact Hhas. exists rest. reflexivity.
    + rewrite define_fresh by exact Hhas. rewrite map_app, <- app_assoc.
      eexists. reflexivity.
Qed.

Lemma insert_index_perm (n : N) (kv : string * Wms.value) (l : list (N * (string * Wms.value))) :
  Permutation (Wms.insert_index n kv l) ((n, kv) :: l).
Proof.
  induction l as [|[n' kv'] l IH]; simpl; [reflexivity|].
  destruct (n <=? n')%N; [reflexivity|].
  rewrite IH. apply perm_swap.
Qed.

(** [Object.entries] lists every property once. *)
Lemma entries_perm (o : Wms.object) : Permutation (Wms.entries o) o.
Proof.
  unfold Wms.entries.
  induction o as [|kv o IH]; simpl; [reflexivity|].
  unfold Wms.named at 1. destruct (Wms.array_index (fst kv)) as [n|].
  - rewrite insert_index_perm. simpl. constructor. exact IH.
  - rewrite <- Permutation_middle. constructor. exact IH.
Qed.

(** Without array indices among the keys it lists them in the order of
    their creation. *)
Lemma entries_named (o : Wms.object) : forallb Wms.named o = true -> Wms.entries o = o.
Proof.
  unfold Wms.entries. intros H.
  assert (Hi : Wms.index_properties o = []).
  { induction o as [|kv o IH]; simpl in *; [reflexivity|].
    apply andb_true_iff in H as [Hkv Ho]. unfold Wms.named in Hkv.
    destruct (Wms.array_index (fst kv)); [discriminate|]. apply IH. exact Ho. }
  assert (Hf : filter Wms.named o = o).
  { induction o as [|kv o IH]; simpl in *; [reflexivity|].
    apply andb_true_iff in H as [Hkv Ho]. rewrite Hkv.
    rewrite IH; [reflexivity|exact Ho|].
    unfold Wms.named in Hkv. destruct (Wms.array_index (fst kv)); [discriminate|exact Hi]. }
  rewrite Hi, Hf. reflexivity.
Qed.

Lemma distinct_perm (a b : Wms.object) :
  Permutation a b -> distinct_keys a -> distinct_keys b.
Proof.
  unfold distinct_keys. intros Hp. apply Permutation_NoDup. apply Permutation_map. exact Hp.
Qed.

Lemma has_perm (a b : Wms.object) (k : string) :
  Permutation a b -> Wms.has a k = Wms.has b k.
Proof.
  intros Hp. apply eq_true_iff_eq. rewrite !has_In.
  split; apply Permutation_in; apply Permutation_map; [exact Hp|symmetry; exact Hp].
Qed.

Lemma get_perm (a b : Wms.object) (k : string) :
  Permutation a b -> distinct_keys a -> Wms.get a k = Wms.get b k.
Proof.
  unfold distinct_keys. intros Hp. induction Hp as [|[k0 v0] a b Hp IH|[k0 v0] [k1 v1] a|a b c Hp1 IH1 Hp2 IH2];
    intros Hnd; simpl.
  - reflexivity.
  - inversion Hnd; subst. rewrite IH by assumption. reflexivity.
  - inversion Hnd as [|? ? Hnotin Hnd']; subst.
    destruct (String.eqb_spec k0 k) as [->|_]; [|reflexivity].
    destruct (String.eqb_spec k1 k) as [->|_]; [|reflexivity].
    exfalso. apply Hnotin. left. reflexivity.
  - rewrite IH1 by assumption. apply IH2.
    eapply Permutation_NoDup; [apply Permutation_map; exact Hp1|exact Hnd].
Qed.

(** [{...target, ...source}]: a key of the source takes the source's
    value, any other keeps the target's. *)
Lemma get_spread (t s : Wms.object) (k : string) :
  distinct_keys s ->
  Wms.get (Wms.spread t (Some s)) k = if Wms.has s k then Wms.get s k else Wms.get t k.
Proof.
  intros Hnd. unfold Wms.spread. fold (defines t (Wms.entries s)).
  assert (Hp : Permutation (Wms.entries s) s) by apply entries_perm.
  assert (Hnd' : distinct_keys (Wms.entries s)).
  { eapply distinct_perm; [symmetry; exact Hp|exact Hnd]. }
  rewrite get_defines by exact Hnd'.
  rewrite (has_perm _ _ k Hp), (get_perm _ _ k Hp Hnd'). reflexivity.
Qed.

Lemma has_spread (t s : Wms.object) (k : string) :
  Wms.has (Wms.spread t (Some s)) k = Wms.has t k || Wms.has s k.
Proof.
  unfold Wms.spread. fold (defines t (Wms.entries s)).
  rewrite has_defines, (has_perm _ _ k (entries_perm s)). reflexivity.
Qed.

Lemma spread_keys (t : Wms.object) (s : option Wms.object) :
  exists rest, map fst (Wms.spread t s) = map fst t ++ rest.
Proof.
  destruct s as [s|]; simpl.
  - apply defines_keys.
  - exists []. rewrite app_nil_r. reflexivity.
Qed.

End ObjectFacts.

Section UrlFacts.
Context {L : Wms.StringLib}.

Lemma fold_add_parameter (version : Wms.value) (l : list (string * Wms.value)) :
  forall (u : string) (first : bool),
    fold_left (Wms.add_parameter version) l (u, first)
    = match filter Wms.sent l with
      | [] => (u, first)
      | q =>
          ((u ++ (if first then "?" else "&")
              ++ String.concat "&" (map (written version) q))%string,
           false)
      end.
Proof.
  induction l as [|kv l IH]; intros u first; [reflexivity|].
  cbn [fold_left filter].
  assert (Hstep : Wms.add_parameter version (u, first) kv
                  = if Wms.sent kv
                    then ((u ++ (if first then "?" else "&") ++ written version kv)%string, false)
                    else (u, first)) by reflexivity.
  rewrite Hstep. clear Hstep. destruct (Wms.sent kv).
  - rewrite IH. destruct (filter Wms.sent l) as [|kv' q]; [reflexivity|].
    f_equal.
    change (map (written version) (kv :: kv' :: q))
      with (written version kv :: map (written version) (kv' :: q)).
    rewrite (concat_cons "&" (written version kv)) by discriminate.
    rewrite !append_assoc. reflexivity.
  - apply IH.
Qed.

Lemma spread_None (t : Wms.object) : Wms.spread t None = t.
Proof. reflexivity. Qed.

Lemma spread_optional (t : Wms.object) (s : option Wms.object) :
  Wms.spread t s = Wms.spread t (Some (optional s)).
Proof. destruct s; reflexivity. Qed.

Lemma has_allParameters (this : Wms.WMSService) (request : string)
    (wmsParameters : Wms.object) (vendorParameters : option Wms.object) (k : string) :
  Wms.has (Wms.allParameters this request wmsParameters vendorParameters) k
  = Wms.has (request_defaults request wmsParameters) k
    || Wms.has wmsParameters k
    || Wms.has (Wms.vendorParameters this) k
    || Wms.has (optional vendorParameters) k.
Proof.
  unfold Wms.allParameters. rewrite spread_optional, !has_spread. reflexivity.
Qed.

Lemma named_keys (o : Wms.object) :
  forallb Wms.named o = forallb named_key (map fst o).
Proof. induction o as [|kv o IH]; simpl; [reflexivity|]. rewrite IH. reflexivity. Qed.

Lemma named_spread (t : Wms.object) (s : option Wms.object) :
  forallb Wms.named t = true -> forallb Wms.named (optional s) = true ->
  forallb Wms.named (Wms.spread t s) = true.
Proof.
  intros Ht Hs. rewrite named_keys in *. rewrite forallb_forall in *.
  intros k Hk. apply has_In in Hk. rewrite spread_optional, has_spread in Hk.
  apply orb_true_iff in Hk as [Hk|Hk]; apply has_In in Hk; auto.
Qed.

End UrlFacts.

(** X17: the URL of a request is [encodeURI] of the service's URL, one
    question mark and the parameters joined by [&], in the order of
    [Object.entries]: every property of [allParameters] is written, its
    value empty when falsy, except [transparent], which is written only
    when truthy. SERVICE is always among the parameters, so the query is
    never empty and the question mark is always there. *)
Theorem query_of_request {L : Wms.StringLib} (this : Wms.WMSService) (request : string)
    (wmsParameters : Wms.object) (vendorParameters : option Wms.object) :
  let version := Wms.get wmsParameters "version" in
  let query :=
    filter Wms.sent
      (Wms.entries (Wms.allParameters this request wmsParameters vendorParameters)) in
  In "service" (map fst query) /\
  Wms._getWMSUrl this request wmsParameters vendorParameters
  = Wms.encodeURI
      (Wms.url this ++ "?" ++ String.concat "&" (map (written version) query))%string.
Proof.
  intros version query.
  assert (Hservice : In "service" (map fst query)).
  { assert (Hhas : Wms.has (Wms.allParameters this request wmsParameters vendorParameters)
                     "service" = true).
    { rewrite has_allParameters. reflexivity. }
    apply has_In in Hhas. apply in_map_iff in Hhas as ([k v] & Hk & Hin).
    simpl in Hk. subst k.
    apply in_map_iff. exists ("service", v). split; [reflexivity|].
    apply filter_In. split; [|reflexivity].
    eapply Permutation_in; [symmetry; apply entries_perm|exact Hin]. }
  split; [exact Hservice|].
  unfold Wms._getWMSUrl. rewrite fold_add_parameter. fold query.
  destruct query as [|kv q]; [contradiction|]. reflexivity.
Qed.

(** X18: in [allParameters] the later object wins, key by key: the vendor
    parameters of the call, then the vendor parameters of the service,
    then the WMS parameters, then [service], [version] and [request]
    themselves, which a parameter of these names therefore replaces. When
    no key is an array index the parameters are written in the order of
    their first definition, SERVICE, VERSION and REQUEST first. *)
Theorem later_parameters_win (this : Wms.WMSService) (request : string)
    (wmsParameters : Wms.object) (vendorParameters : option Wms.object) :
  distinct_keys wmsParameters ->
  distinct_keys (Wms.vendorParameters this) ->
  distinct_keys (optional vendorParameters) ->
  let all := Wms.allParameters this request wmsParameters vendorParameters in
  (forall k,
     Wms.get all k
     = first_of [optional vendorParameters; Wms.vendorParameters this; wmsParameters;
                 request_defaults request wmsParameters] k) /\
  (forallb Wms.named wmsParameters = true ->
   forallb Wms.named (Wms.vendorParameters this) = true ->
   forallb Wms.named (optional vendorParameters) = true ->
   exists rest,
     map fst (Wms.entries all) = "service" :: "version" :: "request" :: rest).
Proof.
  intros Hw Hs Hv all. split.
  - intros k. unfold all, Wms.allParameters.
    rewrite spread_optional, !get_spread by assumption.
    cbn [first_of].
    destruct (Wms.has (optional vendorParameters) k); [reflexivity|].
    destruct (Wms.has (Wms.vendorParameters this) k); [reflexivity|].
    destruct (Wms.has wmsParameters k); [reflexivity|].
    fold (request_defaults request wmsParameters).
    destruct (Wms.has (request_defaults request wmsParameters) k) eqn:Hd; [reflexivity|].
    apply get_missing. exact Hd.
  - intros Hnw Hns Hnv.
    assert (Hnamed : forallb Wms.named all = true).
    { unfold all, Wms.allParameters.
      apply named_spread; [|exact Hnv].
      apply named_spread; [|exact Hns].
      apply named_spread; [reflexivity|exact Hnw]. }
    rewrite (entries_named all Hnamed). unfold all, Wms.allParameters.
    destruct (spread_keys
                (Wms.spread
                   (Wms.spread (request_defaults request wmsParameters) (Some wmsParameters))
                   (Some (Wms.vendorParameters this)))
                vendorParameters) as [r3 H3].
    destruct (spread_keys
                (Wms.spread (request_defaults request wmsParameters) (Some wmsParameters))
                (Some (Wms.vendorParameters this))) as [r2 H2].
    destruct (spread_keys (request_defaults request wmsParameters) (Some wmsParameters))
      as [r1 H1].
    fold (request_defaults request wmsParameters).
    rewrite H3, H2, H1. simpl. eexists. reflexivity.
Qed.

Section MapFacts.
Context {L : Wms.StringLib}.

Lemma defines_app (t : Wms.object) (a b : list (string * Wms.value)) :
  defines t (a ++ b) = defines (defines t a) b.
Proof. unfold defines. apply fold_left_app. Qed.

Lemma spread_empty (t : Wms.object) : Wms.spread t (Some []) = t.
Proof. reflexivity. Qed.

Lemma forallb_app_named (a b : Wms.object) :
  forallb Wms.named (a ++ b) = forallb Wms.named a && forallb Wms.named b.
Proof. apply forallb_app. Qed.

Lemma own_key_named (keys : list string) (o : Wms.object) :
  forallb (own_key keys) (map fst o) = true -> forallb Wms.named o = true.
Proof.
  rewrite named_keys, !forallb_forall. intros H k Hk.
  specialize (H k Hk). unfold own_key in H. apply andb_true_iff in H. apply H.
Qed.

Lemma own_key_fresh (keys : list string) (o t : Wms.object) :
  forallb (own_key keys) (map fst o) = true ->
  (forall k, Wms.has t k = true -> existsb (String.eqb k) keys = true) ->
  forall k, Wms.has o k = true -> Wms.has t k = false.
Proof.
  rewrite forallb_forall. intros H Ht k Hk.
  apply has_In in Hk. specialize (H k Hk). unfold own_key in H.
  apply andb_true_iff in H as [_ H]. apply negb_true_iff in H.
  destruct (Wms.has t k) eqn:E; [|reflexivity].
  rewrite (Ht k E) in H. discriminate.
Qed.

Lemma has_listed (t : Wms.object) (keys : list string) :
  forallb (fun k => existsb (String.eqb k) keys) (map fst t) = true ->
  forall k, Wms.has t k = true -> existsb (String.eqb k) keys = true.
Proof.
  rewrite forallb_forall. intros H k Hk. apply has_In in Hk. apply H. exact Hk.
Qed.

(** After the first parameter every parameter that is sent adds its [&]
    and its text. *)
Lemma fold_appended (version : Wms.value) (l : list (string * Wms.value)) :
  forallb Wms.sent l = true ->
  forall u,
    fold_left (Wms.add_parameter version) l (u, false)
    = ((u ++ appended version l)%string, false).
Proof.
  induction l as [|kv l IH]; intros Hall u.
  - simpl. rewrite append_nil_r. reflexivity.
  - cbn [forallb] in Hall. apply andb_true_iff in Hall as [Hkv Hl].
    cbn [fold_left appended].
    assert (Hstep : Wms.add_parameter version (u, false) kv
                    = ((u ++ "&" ++ written version kv)%string, false)).
    { unfold Wms.add_parameter. rewrite Hkv. reflexivity. }
    rewrite Hstep, (IH Hl). f_equal. rewrite !append_assoc. reflexivity.
Qed.

Lemma add_parameter_skipped (version : Wms.value) (state : string * bool)
    (kv : string * Wms.value) :
  Wms.sent kv = false -> Wms.add_parameter version state kv = state.
Proof. intros H. destruct state. unfold Wms.add_parameter. rewrite H. reflexivity. Qed.

(** One parameter with an ASCII key, written. *)
Lemma add_parameter_ascii (sound : Wms.StringLibSound L) (version : Wms.value)
    (u : string) (first : bool) (key : string) (v : Wms.value) :
  let key' := if String.eqb key "crs" && Wms.not_1_3_0 version then "srs" else key in
  Wms.sent (key, v) = true -> Wms.ascii_only key' = true ->
  Wms.add_parameter version (u, first) (key, v)
  = ((u ++ (if first then "?" else "&") ++ Wms.map_chars Wms.upper key' ++ "="
        ++ match v with
           | Wms.Arr _ => Wms.ToString v
           | _ => if Wms.ToBoolean v then Wms.ToString v else ""
           end)%string,
     false).
Proof.
  intros key' Hsent Hascii. unfold Wms.add_parameter. rewrite Hsent.
  cbn [fst snd]. unfold Wms._getParameterValue. fold key'.
  rewrite (Wms.toUpperCase_ascii key' Hascii). destruct v; reflexivity.
Qed.

Lemma own_key_sent (o : Wms.object) :
  forallb (own_key getMap_keys) (map fst o) = true -> forallb Wms.sent o = true.
Proof.
  rewrite !forallb_forall. intros H kv Hkv.
  specialize (H (fst kv) (in_map fst _ _ Hkv)).
  unfold own_key in H. apply andb_true_iff in H as [_ H]. apply negb_true_iff in H.
  unfold Wms.sent. apply orb_true_iff. left. apply negb_true_iff.
  simpl in H. repeat (apply orb_false_iff in H as [? H]). assumption.
Qed.

End MapFacts.

(** The engine of the examples maps the case of ASCII strings as
    ECMAScript says. *)
Lemma reference_strings : Wms.StringLibSound WmsReference.engine.
Proof. constructor; reflexivity. Qed.

(** X19: a service made with no parameters of its own asks for a map with
    the defaults of the constructor: for parameters of the call none of
    which is an array index or one of the keys the service defines, the
    URL is the service's URL, then SERVICE=WMS, VERSION=1.3.0,
    REQUEST=GetMap, an empty STYLES, CRS=EPSG:4326 and FORMAT=image/png,
    then the parameters of the call in the order the caller gave them, all
    of it passed through [encodeURI]; TRANSPARENT, undefined by default,
    is not written. *)
Theorem getMapURL_defaults {L : Wms.StringLib} (sound : Wms.StringLibSound L)
    (u : string) (parameters : Wms.object) :
  distinct_keys parameters ->
  forallb (own_key getMap_keys) (map fst parameters) = true ->
  Wms.getMapURL
    (Wms.constructor
       {| Wms.props_url := u;
          Wms.props_wmsParameters := None;
          Wms.props_vendorParameters := None |})
    parameters None
  = Wms.encodeURI
      (u ++ "?SERVICE=WMS&VERSION=1.3.0&REQUEST=GetMap&STYLES=&CRS=EPSG:4326&FORMAT=image/png"
         ++ appended (Wms.str "1.3.0") parameters)%string.
Proof.
  intros Hnd Hown.
  pose proof (own_key_named _ _ Hown) as Hnamed.
  set (base := [("version", Wms.str "1.3.0"); ("styles", Wms.undefined);
                ("crs", Wms.str "EPSG:4326"); ("format", Wms.str "image/png");
                ("transparent", Wms.undefined)]).
  set (front := [("service", Wms.str "WMS"); ("version", Wms.str "1.3.0");
                 ("request", Wms.str "GetMap"); ("styles", Wms.undefined);
                 ("crs", Wms.str "EPSG:4326"); ("format", Wms.str "image/png");
                 ("transparent", Wms.undefined)]).
  assert (Hoptions : Wms.spread base (Some parameters) = base ++ parameters).
  { unfold Wms.spread. rewrite (entries_named _ Hnamed).
    apply (defines_fresh parameters Hnd base).
    apply (own_key_fresh getMap_keys); [exact Hown|].
    apply has_listed. reflexivity. }
  unfold Wms.getMapURL.
  change (Wms.spread _ (Some parameters)) with (Wms.spread base (Some parameters)).
  rewrite Hoptions.
  assert (Hall : Wms.allParameters
                   (Wms.constructor
                      {| Wms.props_url := u;
                         Wms.props_wmsParameters := None;
                         Wms.props_vendorParameters := None |})
                   "GetMap" (base ++ parameters) None
                 = front ++ parameters).
  { unfold Wms.allParameters. rewrite spread_None.
    change (Wms.vendorParameters _) with (@nil (string * Wms.value)).
    rewrite spread_empty.
    unfold Wms.spread. rewrite entries_named.
    2:{ rewrite forallb_app_named, Hnamed. reflexivity. }
    fold (defines [("service", Wms.str "WMS");
                   ("version", Wms.get (base ++ parameters) "version");
                   ("request", Wms.str "GetMap")] (base ++ parameters)).
    rewrite defines_app.
    change (defines _ base) with front.
    apply (defines_fresh parameters Hnd front).
    apply (own_key_fresh getMap_keys); [exact Hown|].
    apply has_listed. reflexivity. }
  unfold Wms._getWMSUrl. rewrite Hall.
  rewrite entries_named by (rewrite forallb_app_named, Hnamed; reflexivity).
  rewrite fold_left_app.
  change (Wms.get (base ++ parameters) "version") with (Wms.str "1.3.0").
  assert (Hfront : fold_left (Wms.add_parameter (Wms.str "1.3.0")) front (u, true)
                   = ((u ++ "?SERVICE=WMS&VERSION=1.3.0&REQUEST=GetMap&STYLES=&CRS=EPSG:4326&FORMAT=image/png")%string,
                      false)).
  { unfold front. cbn [fold_left].
    do 6 (rewrite (add_parameter_ascii sound) by reflexivity).
    rewrite add_parameter_skipped by reflexivity.
    cbn. rewrite !append_assoc. reflexivity. }
  cbn [Wms.url Wms.constructor Wms.props_url].
  rewrite Hfront.
  rewrite fold_appended by (apply own_key_sent; exact Hown).
  rewrite append_assoc. reflexivity.
Qed.

Lemma getMapURL_defaults_witness :
  Wms.getMapURL (L := WmsReference.engine) WmsReference.service
    [("layers", Wms.Arr [Wms.str "oa"; Wms.str "ob"]);
     ("bbox", Wms.Arr [Wms.Atom (Js.Num 30); Wms.Atom (Js.Num 70);
                       Wms.Atom (Js.Num 35); Wms.Atom (Js.Num 75)]);
     ("width", Wms.Atom (Js.Num 800));
     ("height", Wms.Atom (Js.Num 0))]
    None
  = "https://example.com/wms?SERVICE=WMS&VERSION=1.3.0&REQUEST=GetMap&STYLES=&CRS=EPSG:4326&FORMAT=image/png&LAYERS=oa,ob&BBOX=30,70,35,75&WIDTH=800&HEIGHT=".
Proof.
  exact (getMapURL_defaults reference_strings "https://example.com/wms"
           [("layers", Wms.Arr [Wms.str "oa"; Wms.str "ob"]);
            ("bbox", Wms.Arr [Wms.Atom (Js.Num 30); Wms.Atom (Js.Num 70);
                              Wms.Atom (Js.Num 35); Wms.Atom (Js.Num 75)]);
            ("width", Wms.Atom (Js.Num 800));
            ("height", Wms.Atom (Js.Num 0))]
           ltac:(repeat constructor; simpl; intuition discriminate)
           eq_refl).
Defined.

Lemma later_parameters_win_witness :
  Wms.get
    (Wms.allParameters WmsReference.service "GetMap"
       [("version", Wms.str "1.1.1"); ("layers", Wms.str "a")]
       (Some [("service", Wms.str "WMTS"); ("layers", Wms.str "b")]))
    "layers"
  = Wms.str "b".
Proof.
  exact (proj1 (later_parameters_win WmsReference.service "GetMap"
                  [("version", Wms.str "1.1.1"); ("layers", Wms.str "a")]
                  (Some [("service", Wms.str "WMTS"); ("layers", Wms.str "b")])
                  ltac:(repeat constructor; simpl; intuition discriminate)
                  ltac:(constructor)
                  ltac:(repeat constructor; simpl; intuition discriminate))
               "layers").
Defined.

Section SplitFacts.

Lemma free_of_cons (c x : ascii) (s : string) :
  free_of c (String x s) = negb (Ascii.eqb c x) && free_of c s.
Proof. unfold free_of. simpl. rewrite negb_orb. reflexivity. Qed.

Lemma free_of_app (c : ascii) (a b : string) :
  free_of c (a ++ b) = free_of c a && free_of c b.
Proof.
  induction a as [|x a IH]; [reflexivity|].
  change (String x a ++ b)%string with (String x (a ++ b)).
  rewrite !free_of_cons, IH, andb_assoc. reflexivity.
Qed.

Lemma split_not_nil (c : ascii) (s : string) : Wms.split c s <> [].
Proof.
  induction s as [|x s IH]; simpl; [discriminate|].
  destruct (Ascii.eqb x c); [discriminate|].
  destruct (Wms.split c s); discriminate.
Qed.

Lemma split_free (c : ascii) (s : string) : free_of c s = true -> Wms.split c s = [s].
Proof.
  induction s as [|x s IH]; [reflexivity|].
  rewrite free_of_cons. intros H. apply andb_true_iff in H as [Hx Hs].
  apply negb_true_iff in Hx. rewrite Ascii.eqb_sym in Hx.
  simpl. rewrite Hx, (IH Hs). reflexivity.
Qed.

Lemma split_app (c : ascii) (a b : string) :
  free_of c a = true -> Wms.split c (a ++ String c b) = a :: Wms.split c b.
Proof.
  induction a as [|x a IH].
  - intros _. simpl. rewrite Ascii.eqb_refl. reflexivity.
  - rewrite free_of_cons. intros H. apply andb_true_iff in H as [Hx Ha].
    apply negb_true_iff in Hx. rewrite Ascii.eqb_sym in Hx.
    change (String x a ++ String c b)%string with (String x (a ++ String c b)).
    cbn [Wms.split]. rewrite Hx, (IH Ha). reflexivity.
Qed.

(** Pieces without the separator, joined and split, are the pieces. *)
Lemma split_concat (c : ascii) (x : string) (l : list string) :
  forallb (free_of c) (x :: l) = true ->
  Wms.split c (String.concat (String c EmptyString) (x :: l)) = x :: l.
Proof.
  revert x. induction l as [|y l IH]; intros x H.
  - simpl in H. rewrite andb_true_r in H. apply split_free. exact H.
  - cbn [forallb] in H. apply andb_true_iff in H as [Hx Hl].
    rewrite concat_cons by discriminate.
    change (String c "" ++ String.concat (String c "") (y :: l))%string
      with (String c (String.concat (String c "") (y :: l))).
    rewrite split_app by exact Hx. rewrite (IH y Hl). reflexivity.
Qed.

Lemma free_of_concat (c d : ascii) (l : list string) :
  Ascii.eqb c d = false -> forallb (free_of c) l = true ->
  free_of c (String.concat (String d EmptyString) l) = true.
Proof.
  intros Hcd. induction l as [|x l IH]; [reflexivity|].
  intros H. cbn [forallb] in H. apply andb_true_iff in H as [Hx Hl].
  destruct l as [|y l]; [exact Hx|].
  rewrite concat_cons by discriminate.
  rewrite !free_of_app, Hx, (IH Hl). unfold free_of at 1. simpl. rewrite Hcd. reflexivity.
Qed.

End SplitFacts.

Section ParseFacts.

Lemma readable_pair_inv (kv : string * string) :
  readable_pair kv = true ->
  plain_text (fst kv) = true /\ plain_text (snd kv) = true /\
  String.eqb (fst kv) "__proto__" = false.
Proof.
  unfold readable_pair. intros H. apply andb_true_iff in H as [H _].
  apply andb_true_iff in H as [H H3]. apply andb_true_iff in H as [H1 H2].
  apply negb_true_iff in H3. auto.
Qed.

Lemma readable_pairs_named (pairs : list (string * string)) :
  forallb readable_pair pairs = true ->
  forallb Wms.named (map (fun kv => (fst kv, Wms.str (snd kv))) pairs) = true.
Proof.
  induction pairs as [|kv pairs IH]; simpl; [reflexivity|].
  intros H. apply andb_true_iff in H as [Hkv Hrest]. rewrite (IH Hrest), andb_true_r.
  unfold readable_pair in Hkv. apply andb_true_iff in Hkv as [_ Hkv]. exact Hkv.
Qed.

Lemma plain_text_inv (s : string) :
  plain_text s = true ->
  free_of "?" s = true /\ free_of "&" s = true /\ free_of "=" s = true.
Proof.
  unfold plain_text. intros H.
  apply andb_true_iff in H as [H H3]. apply andb_true_iff in H as [H1 H2]. auto.
Qed.

Lemma assign_assignment (parameters : Wms.object) (kv : string * string) :
  readable_pair kv = true ->
  Wms.assign_parameter parameters (assignment kv)
  = Wms.define parameters (fst kv) (Wms.str (snd kv)).
Proof.
  intros H. destruct (readable_pair_inv kv H) as (Hk & Hv & Hproto).
  destruct (plain_text_inv _ Hk) as (_ & _ & Hk3).
  destruct (plain_text_inv _ Hv) as (_ & _ & Hv3).
  unfold Wms.assign_parameter, assignment.
  change (fst kv ++ "=" ++ snd kv)%string with (fst kv ++ String "=" (snd kv))%string.
  rewrite split_app by exact Hk3. rewrite (split_free _ _ Hv3), Hproto. reflexivity.
Qed.

Lemma fold_assignments (pairs : list (string * string)) :
  forallb readable_pair pairs = true ->
  forall parameters,
    fold_left Wms.assign_parameter (map assignment pairs) parameters
    = defines parameters (map (fun kv => (fst kv, Wms.str (snd kv))) pairs).
Proof.
  induction pairs as [|kv pairs IH]; intros H parameters; [reflexivity|].
  cbn [forallb] in H. apply andb_true_iff in H as [Hkv Hrest].
  cbn [map fold_left]. rewrite (assign_assignment _ _ Hkv), (IH Hrest). reflexivity.
Qed.

Lemma assignment_free (c : ascii) (kv : string * string) :
  Ascii.eqb c "=" = false ->
  free_of c (fst kv) = true -> free_of c (snd kv) = true ->
  free_of c (assignment kv) = true.
Proof.
  intros Hc Hk Hv. unfold assignment. rewrite !free_of_app, Hk, Hv.
  unfold free_of at 1. simpl. rewrite Hc. reflexivity.
Qed.

End ParseFacts.

(** X20: [_parseWMSUrl] reads a URL back into its base and its parameters
    when the query holds at least one [key=value] and the keys (each once,
    none of them an array index or [__proto__]) and the values hold no
    [?], [&] or [=]: the parameters are those of the URL, the values as
    strings, and [Object.entries] gives them in the order of the URL. A
    URL without a question mark makes it throw a TypeError ([search] is
    undefined), and a URL that ends with its question mark gives one
    parameter, of the empty key and undefined. *)
Theorem parseWMSUrl_reads_back (base : string) (pairs : list (string * string)) :
  free_of "?" base = true ->
  (pairs <> [] ->
   forallb readable_pair pairs = true -> NoDup (map fst pairs) ->
   let parameters := map (fun kv => (fst kv, Wms.str (snd kv))) pairs in
   Wms._parseWMSUrl (base ++ "?" ++ String.concat "&" (map assignment pairs))%string
   = Js.Return (base, parameters) /\
   Wms.entries parameters = parameters) /\
  Wms._parseWMSUrl base = Js.Throw Js.TypeError /\
  Wms._parseWMSUrl (base ++ "?")%string = Js.Return (base, [("", Wms.undefined)]).
Proof.
  intros Hbase. split; [|split].
  - intros Hne Hall Hnd parameters.
    split; [|apply entries_named, readable_pairs_named; exact Hall].
    unfold parameters. clear parameters.
    assert (Hq : forallb (free_of "?") (map assignment pairs) = true).
    { rewrite forallb_forall in *. intros s Hs. apply in_map_iff in Hs as (kv & <- & Hkv).
      destruct (readable_pair_inv kv (Hall kv Hkv)) as (Hk & Hv & _).
      destruct (plain_text_inv _ Hk) as (Hk1 & _ & _).
      destruct (plain_text_inv _ Hv) as (Hv1 & _ & _).
      apply assignment_free; [reflexivity|assumption|assumption]. }
    assert (Ha : forallb (free_of "&") (map assignment pairs) = true).
    { rewrite forallb_forall in *. intros s Hs. apply in_map_iff in Hs as (kv & <- & Hkv).
      destruct (readable_pair_inv kv (Hall kv Hkv)) as (Hk & Hv & _).
      destruct (plain_text_inv _ Hk) as (_ & Hk2 & _).
      destruct (plain_text_inv _ Hv) as (_ & Hv2 & _).
      apply assignment_free; [reflexivity|assumption|assumption]. }
    unfold Wms._parseWMSUrl.
    change (base ++ "?" ++ String.concat "&" (map assignment pairs))%string
      with (base ++ String "?" (String.concat "&" (map assignment pairs)))%string.
    rewrite split_app by exact Hbase.
    rewrite split_free by (apply free_of_concat; [reflexivity|exact Hq]).
    destruct pairs as [|kv pairs]; [congruence|].
    cbn [map] in Ha |- *. rewrite (split_concat "&" _ _ Ha).
    change (assignment kv :: map assignment pairs) with (map assignment (kv :: pairs)).
    rewrite (fold_assignments _ Hall).
    rewrite defines_fresh.
    + reflexivity.
    + unfold distinct_keys. rewrite map_map. exact Hnd.
    + reflexivity.
  - unfold Wms._parseWMSUrl. rewrite (split_free _ _ Hbase). reflexivity.
  - unfold Wms._parseWMSUrl.
    change (base ++ "?")%string with (base ++ String "?" "")%string.
    rewrite split_app by exact Hbase. reflexivity.
Qed.

Lemma parseWMSUrl_reads_back_witness :
  Wms._parseWMSUrl "https://example.com/wms?SERVICE=WMS&VERSION=1.3.0&REQUEST=GetCapabilities"
  = Js.Return
      ("https://example.com/wms",
       [("SERVICE", Wms.str "WMS"); ("VERSION", Wms.str "1.3.0");
        ("REQUEST", Wms.str "GetCapabilities")]).
Proof.
  exact (proj1 (proj1 (parseWMSUrl_reads_back "https://example.com/wms"
                         [("SERVICE", "WMS"); ("VERSION", "1.3.0");
                          ("REQUEST", "GetCapabilities")]
                         eq_refl)
                      ltac:(discriminate) eq_refl
                      ltac:(repeat constructor; simpl; intuition discriminate))).
Defined.

Section CaseFacts.

Lemma map_chars_cons (f : ascii -> ascii) (x : ascii) (s : string) :
  Wms.map_chars f (String x s) = String (f x) (Wms.map_chars f s).
Proof. reflexivity. Qed.

Lemma map_chars_app (f : ascii -> ascii) (a b : string) :
  Wms.map_chars f (a ++ b) = (Wms.map_chars f a ++ Wms.map_chars f b)%string.
Proof.
  induction a as [|x a IH]; [reflexivity|].
  change (String x a ++ b)%string with (String x (a ++ b)).
  rewrite !map_chars_cons, IH. reflexivity.
Qed.

Lemma map_chars_split (f : ascii -> ascii) (a' b' : string) :
  forall s, Wms.map_chars f s = (a' ++ b')%string ->
  exists a b, s = (a ++ b)%string /\ Wms.map_chars f a = a' /\ Wms.map_chars f b = b'.
Proof.
  induction a' as [|c a' IH]; intros s H.
  - exists EmptyString, s. auto.
  - destruct s as [|x s]; [discriminate|].
    rewrite map_chars_cons in H.
    change (String c a' ++ b')%string with (String c (a' ++ b')) in H.
    injection H as Hx Hs. destruct (IH s Hs) as (a & b & -> & Ha & Hb).
    exists (String x a), b. rewrite map_chars_cons, Hx, Ha. auto.
Qed.

Lemma prefix_app (p b : string) : String.prefix p (p ++ b) = true.
Proof.
  induction p as [|x p IH]; [destruct b; reflexivity|].
  simpl. destruct (ascii_dec x x); [exact IH|congruence].
Qed.

Lemma prefix_inv (p : string) : forall s, String.prefix p s = true -> exists b, s = (p ++ b)%string.
Proof.
  induction p as [|x p IH]; intros s H.
  - exists s. reflexivity.
  - destruct s as [|y s]; simpl in H; [discriminate|].
    destruct (ascii_dec x y) as [->|]; [|discriminate].
    destruct (IH s H) as [b ->]. exists b. reflexivity.
Qed.

Lemma includes_step (s sub : string) :
  Wms.includes s sub
  = String.prefix sub s
    || match s with
       | EmptyString => false
       | String _ s' => Wms.includes s' sub
       end.
Proof. destruct s; reflexivity. Qed.

Lemma includes_app (a sub b : string) : Wms.includes (a ++ sub ++ b) sub = true.
Proof.
  induction a as [|x a IH].
  - rewrite includes_step. change ("" ++ sub ++ b)%string with (sub ++ b)%string.
    rewrite prefix_app. reflexivity.
  - change (String x a ++ sub ++ b)%string with (String x (a ++ sub ++ b)).
    cbn [Wms.includes]. rewrite IH. apply orb_true_r.
Qed.

Lemma includes_inv (sub : string) :
  forall s, Wms.includes s sub = true -> exists a b, s = (a ++ sub ++ b)%string.
Proof.
  induction s as [|x s IH]; intros H; rewrite includes_step in H;
    apply orb_true_iff in H as [H|H].
  - destruct (prefix_inv _ _ H) as [b Hb]. exists EmptyString, b. exact Hb.
  - discriminate.
  - destruct (prefix_inv _ _ H) as [b Hb]. exists EmptyString, b. exact Hb.
  - destruct (IH H) as (a & b & ->). exists (String x a), b. reflexivity.
Qed.

End CaseFacts.

Section CreatorFacts.
Context {L : Wms.StringLib}.

Lemma fold_appended_sent (version : Wms.value) (l : list (string * Wms.value)) :
  forall u,
    fold_left (Wms.add_parameter version) l (u, false)
    = ((u ++ appended version (filter Wms.sent l))%string, false).
Proof.
  induction l as [|kv l IH]; intros u.
  - simpl. rewrite append_nil_r. reflexivity.
  - cbn [fold_left filter]. destruct (Wms.sent kv) eqn:Hkv.
    + assert (Hstep : Wms.add_parameter version (u, false) kv
                      = ((u ++ "&" ++ written version kv)%string, false)).
      { unfold Wms.add_parameter. rewrite Hkv. reflexivity. }
      rewrite Hstep, IH. cbn [appended]. f_equal. rewrite !append_assoc. reflexivity.
    + rewrite add_parameter_skipped by exact Hkv. apply IH.
Qed.

Lemma filter_all {A : Type} (f : A -> bool) (l : list A) :
  forallb f l = true -> filter f l = l.
Proof.
  induction l as [|x l IH]; simpl; [reflexivity|].
  intros H. apply andb_true_iff in H as [Hx Hl]. rewrite Hx, (IH Hl). reflexivity.
Qed.

Lemma get_app_fresh (a b : Wms.object) (k : string) :
  Wms.has b k = false -> Wms.get (a ++ b) k = Wms.get a k.
Proof.
  intros Hb. induction a as [|[k0 v0] a IH]; simpl.
  - apply get_missing. exact Hb.
  - rewrite IH. reflexivity.
Qed.

(** The text of a string value: the empty string is falsy and written as
    the empty string. *)
Lemma written_text (s : string) : (if negb (String.eqb s "") then s else "") = s.
Proof. destruct (String.eqb_spec s ""); simpl; congruence. Qed.

(** A request whose options are [base] and then parameters of the
    caller's own: the URL is what [base] gives, then the caller's
    parameters in their order. *)
Lemma getWMSUrl_own_keys (this : Wms.WMSService) (request : string)
    (base parameters : Wms.object) (keys : list string) (u' : string) :
  Wms.vendorParameters this = [] ->
  distinct_keys parameters ->
  forallb (own_key keys) (map fst parameters) = true ->
  forallb (fun k => existsb (String.eqb k) keys) (request_keys ++ map fst base) = true ->
  forallb Wms.named base = true ->
  fold_left (Wms.add_parameter (Wms.get base "version"))
    (defines (request_defaults request base) base) (Wms.url this, true) = (u', false) ->
  Wms._getWMSUrl this request (Wms.spread base (Some parameters)) None
  = Wms.encodeURI (u' ++ appended (Wms.get base "version") (filter Wms.sent parameters))%string.
Proof.
  intros Hvendor Hnd Hown Hkeys Hbase Hfold.
  pose proof (own_key_named _ _ Hown) as Hnamed.
  rewrite forallb_app in Hkeys. apply andb_true_iff in Hkeys as [Hkeys1 Hkeys2].
  assert (Hoptions : Wms.spread base (Some parameters) = base ++ parameters).
  { unfold Wms.spread. rewrite (entries_named _ Hnamed).
    apply (defines_fresh parameters Hnd base).
    apply (own_key_fresh keys); [exact Hown|].
    apply has_listed. exact Hkeys2. }
  assert (Hversion : Wms.get (base ++ parameters) "version" = Wms.get base "version").
  { apply get_app_fresh.
    destruct (Wms.has parameters "version") eqn:E; [|reflexivity].
    assert (Hno : Wms.has (request_defaults request base) "version" = false).
    { apply (own_key_fresh keys parameters); [exact Hown| |exact E].
      apply has_listed. exact Hkeys1. }
    discriminate Hno. }
  assert (Hall : Wms.allParameters this request (base ++ parameters) None
                 = defines (request_defaults request base) base ++ parameters).
  { unfold Wms.allParameters. rewrite spread_None, Hvendor, spread_empty, Hversion.
    fold (request_defaults request base).
    unfold Wms.spread. rewrite entries_named
      by (rewrite forallb_app_named, Hbase, Hnamed; reflexivity).
    fold (defines (request_defaults request base) (base ++ parameters)).
    rewrite defines_app.
    apply (defines_fresh parameters Hnd).
    apply (own_key_fresh keys); [exact Hown|].
    intros k Hk. rewrite has_defines in Hk. apply orb_true_iff in Hk as [Hk|Hk].
    - apply (has_listed (request_defaults request base)); [exact Hkeys1|exact Hk].
    - apply (has_listed base); [exact Hkeys2|exact Hk]. }
  assert (Hfront : forallb Wms.named (defines (request_defaults request base) base) = true).
  { rewrite named_keys, forallb_forall. intros k Hk. apply has_In in Hk.
    rewrite has_defines in Hk. apply orb_true_iff in Hk as [Hk|Hk].
    - apply has_In in Hk. simpl in Hk.
      destruct Hk as [<-|[<-|[<-|[]]]]; reflexivity.
    - apply has_In in Hk. rewrite named_keys, forallb_forall in Hbase. apply Hbase. exact Hk. }
  unfold Wms._getWMSUrl. rewrite Hoptions, Hall, Hversion.
  rewrite entries_named by (rewrite forallb_app_named, Hfront, Hnamed; reflexivity).
  rewrite fold_left_app, Hfold, fold_appended_sent. reflexivity.
Qed.

End CreatorFacts.

(** X21: [testURL] accepts a URL of ASCII characters exactly when the
    letters w, m and s follow each other somewhere in it, each in either
    case; where they stand, in the host, the path or the query, does not
    matter. *)
Theorem testURL_any_case {L : Wms.StringLib} (sound : Wms.StringLibSound L) (url : string) :
  Wms.ascii_only url = true ->
  Wms.testURL url = true
  <-> exists a w b, url = (a ++ w ++ b)%string /\ Wms.map_chars Wms.lower w = "wms".
Proof.
  intros Hascii. unfold Wms.testURL. rewrite (Wms.toLowerCase_ascii url Hascii). split.
  - intros H. apply includes_inv in H as (a' & b' & H).
    apply map_chars_split in H as (a & r & -> & _ & Hr).
    apply map_chars_split in Hr as (w & b & -> & Hw & _).
    exists a, w, b. auto.
  - intros (a & w & b & -> & Hw).
    rewrite !map_chars_app, Hw. apply includes_app.
Qed.

Lemma testURL_any_case_witness :
  Wms.testURL (L := WmsReference.engine) "https://example.com/NewMsgBoard" = true.
Proof.
  apply (proj2 (testURL_any_case reference_strings "https://example.com/NewMsgBoard" eq_refl)).
  exists "https://example.com/Ne", "wMs", "gBoard". split; reflexivity.
Defined.

(** X22: a service made with no parameters of its own asks for feature
    information with SRS=EPSG:4326, not CRS, although its version is
    1.3.0: [getFeatureInfoURL] passes the reference system under the key
    [srs]. The URL is the service's URL, then SERVICE=WMS, VERSION=1.3.0,
    REQUEST=GetFeatureInfo, SRS=EPSG:4326, FORMAT=image/png,
    INFO_FORMAT=text/plain and an empty STYLES, then the parameters of the
    call in their order (a falsy [transparent] left out), for parameters
    none of which is an array index or one of the keys the service
    defines. *)
Theorem getFeatureInfoURL_defaults {L : Wms.StringLib} (sound : Wms.StringLibSound L)
    (u : string) (parameters : Wms.object) :
  distinct_keys parameters ->
  forallb (own_key getFeatureInfo_keys) (map fst parameters) = true ->
  Wms.getFeatureInfoURL
    (Wms.constructor
       {| Wms.props_url := u;
          Wms.props_wmsParameters := None;
          Wms.props_vendorParameters := None |})
    parameters None
  = Wms.encodeURI
      (u ++ "?SERVICE=WMS&VERSION=1.3.0&REQUEST=GetFeatureInfo&SRS=EPSG:4326&FORMAT=image/png&INFO_FORMAT=text/plain&STYLES="
         ++ appended (Wms.str "1.3.0") (filter Wms.sent parameters))%string.
Proof.
  intros Hnd Hown. unfold Wms.getFeatureInfoURL.
  rewrite (getWMSUrl_own_keys _ "GetFeatureInfo" _ parameters getFeatureInfo_keys
             (u ++ "?SERVICE=WMS&VERSION=1.3.0&REQUEST=GetFeatureInfo&SRS=EPSG:4326&FORMAT=image/png&INFO_FORMAT=text/plain&STYLES=")%string);
    try reflexivity; try assumption.
  - rewrite append_assoc. reflexivity.
  - cbn [Wms.url Wms.constructor Wms.props_url].
    change (defines _ _)
      with [("service", Wms.str "WMS"); ("version", Wms.str "1.3.0");
            ("request", Wms.str "GetFeatureInfo"); ("srs", Wms.str "EPSG:4326");
            ("format", Wms.str "image/png"); ("info_format", Wms.str "text/plain");
            ("styles", Wms.undefined)].
    cbn [fold_left].
    do 7 (rewrite (add_parameter_ascii sound) by reflexivity).
    cbn. rewrite !append_assoc. reflexivity.
Qed.

Lemma getFeatureInfoURL_defaults_witness :
  Wms.getFeatureInfoURL (L := WmsReference.engine) WmsReference.service
    [("x", Wms.Atom (Js.Num 400));
     ("y", Wms.Atom (Js.Num 256));
     ("query_layers", Wms.Arr [Wms.str "oa"]);
     ("transparent", Wms.Atom (Js.Bool false))]
    None
  = "https://example.com/wms?SERVICE=WMS&VERSION=1.3.0&REQUEST=GetFeatureInfo&SRS=EPSG:4326&FORMAT=image/png&INFO_FORMAT=text/plain&STYLES=&X=400&Y=256&QUERY_LAYERS=oa".
Proof.
  exact (getFeatureInfoURL_defaults reference_strings "https://example.com/wms"
           [("x", Wms.Atom (Js.Num 400));
            ("y", Wms.Atom (Js.Num 256));
            ("query_layers", Wms.Arr [Wms.str "oa"]);
            ("transparent", Wms.Atom (Js.Bool false))]
           ltac:(repeat constructor; simpl; intuition discriminate)
           eq_refl).
Defined.

(** X23: the version given to the constructor decides the name of the
    reference system in the URL of a map: CRS under 1.3.0, SRS under every
    other version; the version itself is written as it was given. *)
Theorem getMapURL_version {L : Wms.StringLib} (sound : Wms.StringLibSound L)
    (u version : string) (parameters : Wms.object) :
  distinct_keys parameters ->
  forallb (own_key getMap_keys) (map fst parameters) = true ->
  Wms.getMapURL
    (Wms.constructor
       {| Wms.props_url := u;
          Wms.props_wmsParameters := Some [("version", Wms.str version)];
          Wms.props_vendorParameters := None |})
    parameters None
  = Wms.encodeURI
      (u ++ "?SERVICE=WMS&VERSION=" ++ version ++ "&REQUEST=GetMap&STYLES=&"
         ++ crs_name version ++ "=EPSG:4326&FORMAT=image/png"
         ++ appended (Wms.str version) parameters)%string.
Proof.
  intros Hnd Hown. unfold Wms.getMapURL.
  rewrite (getWMSUrl_own_keys _ "GetMap" _ parameters getMap_keys
             (u ++ "?SERVICE=WMS&VERSION=" ++ version ++ "&REQUEST=GetMap&STYLES=&"
                ++ crs_name version ++ "=EPSG:4326&FORMAT=image/png")%string);
    try reflexivity; try assumption.
  - rewrite (filter_all _ _ (own_key_sent _ Hown)).
    change (Wms.get _ "version") with (Wms.str version).
    rewrite !append_assoc. reflexivity.
  - cbn [Wms.url Wms.constructor Wms.props_url].
    change (Wms.get _ "version") with (Wms.str version).
    change (defines _ _)
      with [("service", Wms.str "WMS"); ("version", Wms.str version);
            ("request", Wms.str "GetMap"); ("styles", Wms.undefined);
            ("crs", Wms.str "EPSG:4326"); ("format", Wms.str "image/png");
            ("transparent", Wms.undefined)].
    cbn [fold_left].
    do 4 (rewrite (add_parameter_ascii sound) by reflexivity).
    unfold crs_name.
    destruct (String.eqb version "1.3.0") eqn:Hv.
    + rewrite (add_parameter_ascii sound)
        by (try reflexivity; cbn [Wms.not_1_3_0 Wms.str]; rewrite Hv; reflexivity).
      rewrite (add_parameter_ascii sound) by reflexivity.
      rewrite add_parameter_skipped by reflexivity.
      cbn [Wms.not_1_3_0 Wms.str]. rewrite Hv.
      cbn. rewrite written_text, !append_assoc. reflexivity.
    + rewrite (add_parameter_ascii sound)
        by (try reflexivity; cbn [Wms.not_1_3_0 Wms.str]; rewrite Hv; reflexivity).
      rewrite (add_parameter_ascii sound) by reflexivity.
      rewrite add_parameter_skipped by reflexivity.
      cbn [Wms.not_1_3_0 Wms.str]. rewrite Hv.
      cbn. rewrite written_text, !append_assoc. reflexivity.
Qed.

Lemma getMapURL_version_witness :
  Wms.getMapURL (L := WmsReference.engine)
    (Wms.constructor
       {| Wms.props_url := "https://example.com/wms";
          Wms.props_wmsParameters := Some [("version", Wms.str "1.1.1")];
          Wms.props_vendorParameters := None |})
    [("layers", Wms.Arr [Wms.str "oa"])]
    None
  = "https://example.com/wms?SERVICE=WMS&VERSION=1.1.1&REQUEST=GetMap&STYLES=&SRS=EPSG:4326&FORMAT=image/png&LAYERS=oa".
Proof.
  exact (getMapURL_version reference_strings "https://example.com/wms" "1.1.1"
           [("layers", Wms.Arr [Wms.str "oa"])]
           ltac:(repeat constructor; simpl; intuition discriminate)
           eq_refl).
Defined.

(** X24: the requests that take only the version from the service:
    [getCapabilitiesURL], [describeLayerURL] and [getLegendGraphicURL] of
    a service made with no parameters of its own give the service's URL,
    then SERVICE=WMS, VERSION=1.3.0 and REQUEST with the name of the
    request, then the parameters of the call in their order (a falsy
    [transparent] left out), for parameters none of which is an array
    index or named service, version or request. Without parameters
    [getCapabilitiesURL] gives the three alone. *)
Theorem version_only_requests {L : Wms.StringLib} (sound : Wms.StringLibSound L)
    (u : string) (parameters : Wms.object) :
  distinct_keys parameters ->
  forallb (own_key request_keys) (map fst parameters) = true ->
  let this :=
    Wms.constructor
      {| Wms.props_url := u;
         Wms.props_wmsParameters := None;
         Wms.props_vendorParameters := None |} in
  let rest := appended (Wms.str "1.3.0") (filter Wms.sent parameters) in
  Wms.getCapabilitiesURL this (Some parameters) None
  = Wms.encodeURI (u ++ "?SERVICE=WMS&VERSION=1.3.0&REQUEST=GetCapabilities" ++ rest)%string /\
  Wms.getCapabilitiesURL this None None
  = Wms.encodeURI (u ++ "?SERVICE=WMS&VERSION=1.3.0&REQUEST=GetCapabilities")%string /\
  Wms.describeLayerURL this parameters None
  = Wms.encodeURI (u ++ "?SERVICE=WMS&VERSION=1.3.0&REQUEST=DescribeLayer" ++ rest)%string /\
  Wms.getLegendGraphicURL this parameters None
  = Wms.encodeURI (u ++ "?SERVICE=WMS&VERSION=1.3.0&REQUEST=GetLegendGraphic" ++ rest)%string.
Proof.
  intros Hnd Hown this rest.
  assert (Hrequest : forall request : string,
             fold_left (Wms.add_parameter (Wms.str "1.3.0"))
               [("service", Wms.str "WMS"); ("version", Wms.str "1.3.0");
                ("request", Wms.str request)] (u, true)
             = ((u ++ "?SERVICE=WMS&VERSION=1.3.0&REQUEST=" ++ request)%string, false)).
  { intros request. cbn [fold_left].
    do 3 (rewrite (add_parameter_ascii sound) by reflexivity).
    cbn. rewrite written_text, !append_assoc. reflexivity. }
  repeat split.
  - unfold Wms.getCapabilitiesURL.
    rewrite (getWMSUrl_own_keys this "GetCapabilities" _ parameters request_keys
               (u ++ "?SERVICE=WMS&VERSION=1.3.0&REQUEST=GetCapabilities")%string);
      try reflexivity; try assumption.
    + rewrite append_assoc. reflexivity.
    + apply (Hrequest "GetCapabilities").
  - unfold Wms.getCapabilitiesURL.
    match goal with
    | |- context [Wms.spread ?b None] =>
        change (Wms.spread b None) with (Wms.spread b (Some []))
    end.
    rewrite (getWMSUrl_own_keys this "GetCapabilities" _ [] request_keys
               (u ++ "?SERVICE=WMS&VERSION=1.3.0&REQUEST=GetCapabilities")%string);
      try reflexivity.
    + cbn [filter appended]. rewrite append_nil_r. reflexivity.
    + constructor.
    + apply (Hrequest "GetCapabilities").
  - unfold Wms.describeLayerURL.
    rewrite (getWMSUrl_own_keys this "DescribeLayer" _ parameters request_keys
               (u ++ "?SERVICE=WMS&VERSION=1.3.0&REQUEST=DescribeLayer")%string);
      try reflexivity; try assumption.
    + rewrite append_assoc. reflexivity.
    + apply (Hrequest "DescribeLayer").
  - unfold Wms.getLegendGraphicURL.
    rewrite (getWMSUrl_own_keys this "GetLegendGraphic" _ parameters request_keys
               (u ++ "?SERVICE=WMS&VERSION=1.3.0&REQUEST=GetLegendGraphic")%string);
      try reflexivity; try assumption.
    + rewrite append_assoc. reflexivity.
    + apply (Hrequest "GetLegendGraphic").
Qed.

Lemma version_only_requests_witness :
  Wms.describeLayerURL (L := WmsReference.engine) WmsReference.service
    [("layers", Wms.Arr [Wms.str "oa"; Wms.str "ob"])] None
  = "https://example.com/wms?SERVICE=WMS&VERSION=1.3.0&REQUEST=DescribeLayer&LAYERS=oa,ob".
Proof.
  exact (proj1 (proj2 (proj2
           (version_only_requests reference_strings "https://example.com/wms"
              [("layers", Wms.Arr [Wms.str "oa"; Wms.str "ob"])]
              ltac:(repeat constructor; simpl; intuition discriminate)
              eq_refl)))).
Defined.
